(** * oil: Id/Kind registry, word model and the [[ ]] boolean parser

    A shallow embedding of [core/id_kind.py], [core/word_node.py] and
    [osh/bool_parse.py].  Python dictionaries are finite maps, the [Id] and
    [Kind] classes (whose attributes are set with [setattr]) are maps from
    attribute names to integers, and the parser object is a record threaded
    through a state-and-exception monad. *)

From Stdlib Require Import Ascii String NArith Lia.
From stdpp Require Import base option list strings gmap.

Open Scope string_scope.
Open Scope list_scope.
Open Scope N_scope.

#[local] Set Warnings "-register-all".

(** ** core/id_kind.py *)

(** [OperandType = util.Enum('OperandType', 'Undefined Path Int Str Other')] *)
Inductive OperandType :=
| OT_Undefined | OT_Path | OT_Int | OT_Str | OT_Other.

#[global] Instance OperandType_eq_dec : EqDecision OperandType.
Proof. solve_decision. Defined.

(** One entry of a [lexer_pairs] list: [(False, char_pat, token_index)]. *)
Definition LexerPair : Type := bool * string * N.

(** The fields of [IdSpec].  [id_enum] and [kind_enum] are the classes [Id]
    and [Kind]; [token_names], [kind_lookup] and [bool_ops] are the module
    dictionaries [_ID_NAMES], [_ID_TO_KIND] and [BOOL_OPS] the instance is
    given at construction. *)
Record IdSpec := mkIdSpec {
  id_enum : gmap string N;
  kind_enum : gmap string N;
  token_names : gmap N string;
  kind_lookup : gmap N N;
  kind_sizes : list nat;
  lexer_pairs : gmap N (list LexerPair);
  bool_ops : gmap N OperandType;
  token_index : N;
  kind_index : N
}.

(** [IdSpec.__init__] applied to empty dictionaries. *)
Definition IdSpec_init : IdSpec :=
  {| id_enum := ∅; kind_enum := ∅; token_names := ∅; kind_lookup := ∅;
     kind_sizes := []; lexer_pairs := ∅; bool_ops := ∅;
     token_index := 0; kind_index := 0 |}.

(** ['%s_%s' % (kind_name, name)] *)
Definition token_name_of (kind_name name : string) : string :=
  kind_name +:+ "_" +:+ name.

Definition _AddId (token_name : string) (spec : IdSpec) : IdSpec :=
  let ti := token_index spec + 1 in
  {| id_enum := <[token_name := ti]> (id_enum spec);
     kind_enum := kind_enum spec;
     token_names := <[ti := token_name]> (token_names spec);
     kind_lookup := <[ti := kind_index spec]> (kind_lookup spec);
     kind_sizes := kind_sizes spec;
     lexer_pairs := lexer_pairs spec;
     bool_ops := bool_ops spec;
     token_index := ti;
     kind_index := kind_index spec |}.

Definition _AddKind (kind_name : string) (spec : IdSpec) : IdSpec :=
  {| id_enum := id_enum spec;
     kind_enum := <[kind_name := kind_index spec]> (kind_enum spec);
     token_names := token_names spec;
     kind_lookup := kind_lookup spec;
     kind_sizes := kind_sizes spec;
     lexer_pairs := lexer_pairs spec;
     bool_ops := bool_ops spec;
     token_index := token_index spec;
     kind_index := kind_index spec + 1 |}.

Definition append_kind_size (n : nat) (spec : IdSpec) : IdSpec :=
  {| id_enum := id_enum spec; kind_enum := kind_enum spec;
     token_names := token_names spec; kind_lookup := kind_lookup spec;
     kind_sizes := kind_sizes spec ++ [n];
     lexer_pairs := lexer_pairs spec; bool_ops := bool_ops spec;
     token_index := token_index spec; kind_index := kind_index spec |}.

Definition set_lexer_pairs (k : N) (ps : list LexerPair) (spec : IdSpec) : IdSpec :=
  {| id_enum := id_enum spec; kind_enum := kind_enum spec;
     token_names := token_names spec; kind_lookup := kind_lookup spec;
     kind_sizes := kind_sizes spec;
     lexer_pairs := <[k := ps]> (lexer_pairs spec); bool_ops := bool_ops spec;
     token_index := token_index spec; kind_index := kind_index spec |}.

Definition AddBoolOp (id_ : N) (arg_type : OperandType) (spec : IdSpec) : IdSpec :=
  {| id_enum := id_enum spec; kind_enum := kind_enum spec;
     token_names := token_names spec; kind_lookup := kind_lookup spec;
     kind_sizes := kind_sizes spec;
     lexer_pairs := lexer_pairs spec;
     bool_ops := <[id_ := arg_type]> (bool_ops spec);
     token_index := token_index spec; kind_index := kind_index spec |}.

(** The [for name in tokens] loop of [AddKind]. *)
Fixpoint AddKind_ids (kind_name : string) (tokens : list string) (spec : IdSpec) : IdSpec :=
  match tokens with
  | [] => spec
  | name :: rest => AddKind_ids kind_name rest (_AddId (token_name_of kind_name name) spec)
  end.

Definition AddKind (kind_name : string) (tokens : list string) (spec : IdSpec) : IdSpec :=
  append_kind_size (length tokens) (_AddKind kind_name (AddKind_ids kind_name tokens spec)).

(** The loop of [AddKindPairs]; the accumulator is the local [lexer_pairs]. *)
Fixpoint AddKindPairs_ids (kind_name : string) (pairs : list (string * string))
    (acc : list LexerPair) (spec : IdSpec) : list LexerPair * IdSpec :=
  match pairs with
  | [] => (acc, spec)
  | (name, char_pat) :: rest =>
      let spec' := _AddId (token_name_of kind_name name) spec in
      AddKindPairs_ids kind_name rest (acc ++ [(false, char_pat, token_index spec')]) spec'
  end.

Definition AddKindPairs (kind_name : string) (pairs : list (string * string))
    (spec : IdSpec) : IdSpec :=
  let '(lp, spec1) := AddKindPairs_ids kind_name pairs [] spec in
  let spec2 := set_lexer_pairs (kind_index spec1) lp spec1 in
  append_kind_size (length pairs) (_AddKind kind_name spec2).

(** The inner loop of [AddBoolKind] over the pairs of one operand type. *)
Fixpoint AddBoolKind_pairs (kind_name : string) (arg_type : OperandType)
    (pairs : list (string * string)) (acc : list LexerPair) (spec : IdSpec)
    : list LexerPair * IdSpec :=
  match pairs with
  | [] => (acc, spec)
  | (name, char_pat) :: rest =>
      let spec1 := _AddId (token_name_of kind_name name) spec in
      let spec2 := AddBoolOp (token_index spec1) arg_type spec1 in
      AddBoolKind_pairs kind_name arg_type rest
        (acc ++ [(false, char_pat, token_index spec2)]) spec2
  end.

(** The outer loop of [AddBoolKind] over [arg_type_pairs.items()]; the
    dictionary literal is kept as the list of its items in source order. *)
Fixpoint AddBoolKind_items (kind_name : string)
    (items : list (OperandType * list (string * string)))
    (acc : list LexerPair) (num_tokens : nat) (spec : IdSpec)
    : list LexerPair * nat * IdSpec :=
  match items with
  | [] => (acc, num_tokens, spec)
  | (arg_type, pairs) :: rest =>
      let '(acc', spec') := AddBoolKind_pairs kind_name arg_type pairs acc spec in
      AddBoolKind_items kind_name rest acc' (num_tokens + length pairs)%nat spec'
  end.

Definition AddBoolKind (kind_name : string)
    (arg_type_pairs : list (OperandType * list (string * string)))
    (spec : IdSpec) : IdSpec :=
  let '(lp, num_tokens, spec1) := AddBoolKind_items kind_name arg_type_pairs [] 0%nat spec in
  let spec2 := set_lexer_pairs (kind_index spec1) lp spec1 in
  append_kind_size num_tokens (_AddKind kind_name spec2).

(** [_AddKinds]: the registration calls in source order. *)
Definition _AddKinds (spec : IdSpec) : IdSpec :=
  let spec := AddKind "Undefined" ["Tok"] spec in
  let spec := AddKind "Unknown" ["Tok"] spec in
  let spec := AddKind "Eof" ["Real"; "RParen"; "Backtick"] spec in
  let spec := AddKind "Ignored" ["LineCont"; "Space"; "Comment"] spec in
  let spec := AddKind "WS" ["Space"] spec in
  let spec := AddKind "Lit" [
      "Chars"; "VarLike"; "Other"; "EscapedChar";
      "LBrace"; "RBrace"; "Comma";
      "DRightBracket";
      "Tilde";
      "Pound";
      "Slash"; "Percent";
      "Digits";
      "At";
      "ArithVarLike"] spec in
  let spec := AddKind "Op" [
      "Newline"; "Amp"; "Pipe"; "PipeAmp"; "DAmp"; "DPipe"; "Semi"; "DSemi";
      "LParen"; "RParen"; "DLeftParen"; "DRightParen"] spec in
  let spec := AddKind "Redir" [
      "Less"; "Great"; "DLess"; "TLess"; "DGreat"; "GreatAnd"; "LessAnd";
      "DLessDash"; "LessGreat"; "Clobber"] spec in
  let spec := AddKind "Left" [
      "DoubleQuote"; "SingleQuote"; "Backtick"; "CommandSub"; "VarSub";
      "ArithSub"; "ArithSub2"; "DollarDoubleQuote"; "DollarSingleQuote";
      "ProcSubIn"; "ProcSubOut"] spec in
  let spec := AddKind "Right" [
      "DoubleQuote"; "SingleQuote"; "Backtick"; "CommandSub"; "VarSub";
      "ArithSub"; "DollarDoubleQuote"; "DollarSingleQuote";
      "Subshell"; "FuncDef"; "CasePat"; "ArrayLiteral"] spec in
  let spec := AddKind "VSub" [
      "Name"; "Number"; "Bang"; "At"; "Pound"; "Dollar"; "Amp"; "Star";
      "Hyphen"; "QMark"] spec in
  let spec := AddKindPairs "VTest" [
      ("ColonHyphen", ":-"); ("Hyphen", "-"); ("ColonEquals", ":=");
      ("Equals", "="); ("ColonQMark", ":?"); ("QMark", "?");
      ("ColonPlus", ":+"); ("Plus", "+")] spec in
  let spec := AddKindPairs "VOp1" [
      ("Percent", "%"); ("DPercent", "%%"); ("Pound", "#"); ("DPound", "##");
      ("Caret", "^"); ("DCaret", "^^"); ("Comma", ","); ("DComma", ",,")] spec in
  let spec := AddKindPairs "VOp2" [
      ("Slash", "/"); ("Colon", ":"); ("LBracket", "["); ("RBracket", "]")] spec in
  let spec := AddKindPairs "Arith" [
      ("Semi", ";"); ("Comma", ",");
      ("Plus", "+"); ("Minus", "-"); ("Star", "*"); ("Slash", "/");
      ("Percent", "%");
      ("DPlus", "++"); ("DMinus", "--"); ("DStar", "**");
      ("LParen", "("); ("RParen", ")");
      ("LBracket", "["); ("RBracket", "]");
      ("RBrace", "}");
      ("QMark", "?"); ("Colon", ":");
      ("LessEqual", "<="); ("Less", "<"); ("GreatEqual", ">="); ("Great", ">");
      ("DEqual", "=="); ("NEqual", "!=");
      ("DAmp", "&&"); ("DPipe", "||"); ("Bang", "!");
      ("DGreat", ">>"); ("DLess", "<<");
      ("Amp", "&"); ("Pipe", "|"); ("Caret", "^"); ("Tilde", "~");
      ("Equal", "=");
      ("PlusEqual", "+="); ("MinusEqual", "-="); ("StarEqual", "*=");
      ("SlashEqual", "/="); ("PercentEqual", "%=");
      ("DGreatEqual", ">>="); ("DLessEqual", "<<=");
      ("AmpEqual", "&="); ("PipeEqual", "|=");
      ("CaretEqual", "^=")] spec in
  let spec := AddKind "Node" [
      "PostDPlus"; "PostDMinus";
      "UnaryPlus"; "UnaryMinus";
      "ArithVar";
      "Command"; "Assign"; "AndOr"; "Block"; "Subshell"; "Fork";
      "FuncDef"; "ForEach"; "ForExpr"; "NoOp";
      "UnaryExpr"; "BinaryExpr"; "TernaryExpr"; "FuncCall";
      "ConstInt"] spec in
  let spec := AddKind "Word" ["Compound"] spec in
  let spec := AddKind "KW" [
      "DLeftBracket"; "Bang";
      "For"; "While"; "Until"; "Do"; "Done"; "In"; "Case";
      "Esac"; "If"; "Fi"; "Then"; "Else"; "Elif"; "Function"] spec in
  AddKind "Assign" ["Declare"; "Export"; "Local"; "Readonly"] spec.

(** [list(s)] and [tuple(s)] of a string: its one-character strings. *)
Fixpoint chars (s : string) : list string :=
  match s with
  | EmptyString => []
  | String c rest => String c EmptyString :: chars rest
  end.

Definition UNARY_FILE_CHARS : list string := chars "abcdefghLprsStuwxOGN".

(** [_Dash]: pairs of (token name, string to match). *)
Definition _Dash (strs : list string) : list (string * string) :=
  map (fun s => (s, "-" +:+ s)) strs.

(** Attribute access [Id.<name>] on the class under construction; [None]
    is Python's [AttributeError]. *)
Definition getattr (enum : gmap string N) (name : string) : option N :=
  enum !! name.

Definition _AddBoolKinds (spec : IdSpec) : option IdSpec :=
  let spec := AddBoolKind "BoolUnary" [
      (OT_Str, _Dash (chars "zn"));
      (OT_Other, _Dash (chars "ovR"));
      (OT_Path, _Dash UNARY_FILE_CHARS)] spec in
  let spec := AddBoolKind "BoolBinary" [
      (OT_Str, [("Equal", "="); ("DEqual", "=="); ("NEqual", "!=");
                ("EqualTilde", "=~")]);
      (OT_Path, _Dash ["ef"; "nt"; "ot"]);
      (OT_Int, _Dash ["eq"; "ne"; "gt"; "ge"; "lt"; "le"])] spec in
  i ← getattr (id_enum spec) "Op_DAmp";
  let spec := AddBoolOp i OT_Undefined spec in
  i ← getattr (id_enum spec) "Op_DPipe";
  let spec := AddBoolOp i OT_Undefined spec in
  i ← getattr (id_enum spec) "KW_Bang";
  let spec := AddBoolOp i OT_Undefined spec in
  i ← getattr (id_enum spec) "Redir_Less";
  let spec := AddBoolOp i OT_Str spec in
  i ← getattr (id_enum spec) "Redir_Great";
  Some (AddBoolOp i OT_Str spec).

(** [ID_SPEC = IdSpec(_ID_NAMES, _ID_TO_KIND, BOOL_OPS)] followed by
    [_AddKinds(ID_SPEC)] and [_AddBoolKinds(ID_SPEC)]. *)
Definition ID_SPEC_build : option IdSpec := _AddBoolKinds (_AddKinds IdSpec_init).

Definition ID_SPEC : IdSpec := default IdSpec_init ID_SPEC_build.

Definition is_some_b {A} (o : option A) : bool :=
  match o with Some _ => true | None => false end.


(** The module dictionaries once [ID_SPEC] is built: [_ID_TO_KIND] and
    [BOOL_OPS] are the very objects [kind_lookup] and [bool_ops] of the
    instance refer to. *)
Definition _ID_TO_KIND : gmap N N := Eval vm_compute in kind_lookup ID_SPEC.
Definition BOOL_OPS : gmap N OperandType := Eval vm_compute in bool_ops ID_SPEC.

(** [LookupKind(id_)] is [_ID_TO_KIND[id_]]; [None] is Python's [KeyError]. *)
Definition LookupKind (id_ : N) : option N := _ID_TO_KIND !! id_.

(** [IdName(t)] is [_ID_NAMES[t]]. *)
Definition IdName (t : N) : option string := token_names ID_SPEC !! t.

(** Attribute access on the finished classes. *)
Definition Id_attr (name : string) : N := default 0 (id_enum ID_SPEC !! name).
Definition Kind_attr (name : string) : N := default 0 (kind_enum ID_SPEC !! name).


(** The attributes of [Id] and [Kind] the word model and the parser name. *)
Module Id.
Definition Undefined_Tok : N := Eval vm_compute in Id_attr "Undefined_Tok".
Definition Eof_Real : N := Eval vm_compute in Id_attr "Eof_Real".
Definition Lit_Chars : N := Eval vm_compute in Id_attr "Lit_Chars".
Definition Lit_VarLike : N := Eval vm_compute in Id_attr "Lit_VarLike".
Definition Lit_EscapedChar : N := Eval vm_compute in Id_attr "Lit_EscapedChar".
Definition Lit_LBrace : N := Eval vm_compute in Id_attr "Lit_LBrace".
Definition Lit_RBrace : N := Eval vm_compute in Id_attr "Lit_RBrace".
Definition Lit_DRightBracket : N := Eval vm_compute in Id_attr "Lit_DRightBracket".
Definition Lit_Tilde : N := Eval vm_compute in Id_attr "Lit_Tilde".
Definition Lit_ArithVarLike : N := Eval vm_compute in Id_attr "Lit_ArithVarLike".
Definition Op_Newline : N := Eval vm_compute in Id_attr "Op_Newline".
Definition Op_DAmp : N := Eval vm_compute in Id_attr "Op_DAmp".
Definition Op_DPipe : N := Eval vm_compute in Id_attr "Op_DPipe".
Definition Op_LParen : N := Eval vm_compute in Id_attr "Op_LParen".
Definition Op_RParen : N := Eval vm_compute in Id_attr "Op_RParen".
Definition Redir_Less : N := Eval vm_compute in Id_attr "Redir_Less".
Definition Redir_Great : N := Eval vm_compute in Id_attr "Redir_Great".
Definition Left_DoubleQuote : N := Eval vm_compute in Id_attr "Left_DoubleQuote".
Definition Left_SingleQuote : N := Eval vm_compute in Id_attr "Left_SingleQuote".
Definition Left_CommandSub : N := Eval vm_compute in Id_attr "Left_CommandSub".
Definition Left_VarSub : N := Eval vm_compute in Id_attr "Left_VarSub".
Definition Left_ArithSub : N := Eval vm_compute in Id_attr "Left_ArithSub".
Definition Right_ArrayLiteral : N := Eval vm_compute in Id_attr "Right_ArrayLiteral".
Definition Word_Compound : N := Eval vm_compute in Id_attr "Word_Compound".
Definition KW_Bang : N := Eval vm_compute in Id_attr "KW_Bang".
Definition BoolUnary_z : N := Eval vm_compute in Id_attr "BoolUnary_z".
Definition BoolBinary_DEqual : N := Eval vm_compute in Id_attr "BoolBinary_DEqual".
Definition BoolBinary_EqualTilde : N := Eval vm_compute in Id_attr "BoolBinary_EqualTilde".
End Id.

Module Kind.
Definition Undefined : N := Eval vm_compute in Kind_attr "Undefined".
Definition Eof : N := Eval vm_compute in Kind_attr "Eof".
Definition Op : N := Eval vm_compute in Kind_attr "Op".
Definition Redir : N := Eval vm_compute in Kind_attr "Redir".
Definition Word : N := Eval vm_compute in Kind_attr "Word".
Definition KW : N := Eval vm_compute in Kind_attr "KW".
Definition Assign : N := Eval vm_compute in Kind_attr "Assign".
Definition BoolUnary : N := Eval vm_compute in Kind_attr "BoolUnary".
Definition BoolBinary : N := Eval vm_compute in Kind_attr "BoolBinary".
End Kind.


(** ** Python values and exceptions *)

(** The exceptions the modelled code raises.  [KeyError] comes from a
    dictionary lookup, [AttributeError] from a method looked up on [None] or
    on an object whose class lacks it.  The text an exception carries is the
    one written in the source: a word the source formats into it, or passes
    along as a second argument, is left out. *)
Inductive exn :=
| AssertionError (msg : string)
| RuntimeError (msg : string)
| AttributeError (msg : string)
| KeyError (key : N)
| NotImplementedError.

Inductive result (A : Type) :=
| Ok (a : A)
| Raise (e : exn).
Arguments Ok {A} a.
Arguments Raise {A} e.

(** A method that returns a string or [False]. *)
Inductive StrOrFalse :=
| PyStr (s : string)
| PyFalse.

(** Truth value of such a result: [False] and the empty string are falsy. *)
Definition truthy (v : StrOrFalse) : bool :=
  match v with
  | PyStr EmptyString => false
  | PyStr _ => true
  | PyFalse => false
  end.

(** [s[1:]] *)
Definition slice_from_1 (s : string) : string :=
  match s with
  | EmptyString => EmptyString
  | String _ rest => rest
  end.

(** [s[:-1]] *)
Fixpoint slice_to_last (s : string) : string :=
  match s with
  | EmptyString => EmptyString
  | String c rest =>
      match rest with
      | EmptyString => EmptyString
      | String _ _ => String c (slice_to_last rest)
      end
  end.

(** [s.endswith(c)] for a one-character suffix. *)
Fixpoint endswith_char (s : string) (c : ascii) : bool :=
  match s with
  | EmptyString => false
  | String a rest =>
      match rest with
      | EmptyString => bool_decide (a = c)
      | String _ _ => endswith_char rest c
      end
  end.

(** [''.join(l)] *)
Definition join_strings (l : list string) : string :=
  foldr String.append EmptyString l.

(** ** core/word_node.py *)

(** A token as the word model reads it: [token.id] and [token.val]. *)
Record Token := mkToken { token_id : N; token_val : string }.

(** An opaque handle for a tree owned by another parser (the command list of
    a command substitution, the arithmetic node, a var-sub operator). *)
Inductive Handle := handle (n : N).

(** The subclasses of [WordPart].  The [words] of an array literal are
    compound words, kept as their lists of parts. *)
Inductive WordPart :=
| ArrayLiteralPart (words : list (list WordPart))
| LiteralPart (token : Token)
| EscapedLiteralPart (token : Token)
| SingleQuotedPart (tokens : list Token)
| DoubleQuotedPart (parts : list WordPart)
| CommandSubPart (token : Token) (command_list : Handle)
| VarSubPart (name : string) (token : option Token)
    (prefix_op bracket_op suffix_op : option Handle)
| TildeSubPart (prefix : string)
| ArithSubPart (anode : Handle).

(** [Word]: a [CompoundWord] with its [parts], or a [TokenWord]. *)
Inductive Word :=
| CompoundWord (parts : list WordPart)
| TokenWord (token : Token).

(** [part.id], the Id each constructor hands to [_Node.__init__]. *)
Definition part_id (p : WordPart) : N :=
  match p with
  | ArrayLiteralPart _ => Id.Right_ArrayLiteral
  | LiteralPart _ => Id.Lit_Chars
  | EscapedLiteralPart _ => Id.Lit_EscapedChar
  | SingleQuotedPart _ => Id.Left_SingleQuote
  | DoubleQuotedPart _ => Id.Left_DoubleQuote
  | CommandSubPart _ _ => Id.Left_CommandSub
  | VarSubPart _ _ _ _ _ => Id.Left_VarSub
  | TildeSubPart _ => Id.Lit_Tilde
  | ArithSubPart _ => Id.Left_ArithSub
  end.

(** [WordPart.VarLikeName], overridden by [LiteralPart] only. *)
Definition VarLikeName (p : WordPart) : result StrOrFalse :=
  match p with
  | LiteralPart token =>
      if token_id token =? Id.Lit_VarLike then
        if endswith_char (token_val token) "="%char
        then Ok (PyStr (slice_to_last (token_val token)))
        else Raise (AssertionError "")
      else Ok PyFalse
  | _ => Ok PyFalse
  end.

(** [WordPart.ArithVarLikeName], overridden by [LiteralPart] only. *)
Definition ArithVarLikeName (p : WordPart) : StrOrFalse :=
  match p with
  | LiteralPart token =>
      if token_id token =? Id.Lit_ArithVarLike then PyStr (token_val token)
      else PyFalse
  | _ => PyFalse
  end.

(** [WordPart.LiteralId], overridden by [LiteralPart] only. *)
Definition LiteralId (p : WordPart) : N :=
  match p with
  | LiteralPart token => token_id token
  | _ => Id.Undefined_Tok
  end.

(** [WordPart.IsSubst] *)
Definition IsSubst (p : WordPart) : bool :=
  match p with
  | CommandSubPart _ _ | VarSubPart _ _ _ _ _ | ArithSubPart _ => true
  | _ => false
  end.

(** [EvalStatic] of a part: [(ok, value, quoted)].  [ArrayLiteralPart] does
    not override the method, so the base class raises.  The [print] calls of
    the tilde and arithmetic parts are output only and are left out. *)
Fixpoint part_EvalStatic (p : WordPart) : result (bool * string * bool) :=
  match p with
  | ArrayLiteralPart _ => Raise NotImplementedError
  | LiteralPart token => Ok (true, token_val token, false)
  | EscapedLiteralPart token => Ok (true, slice_from_1 (token_val token), true)
  | SingleQuotedPart tokens => Ok (true, join_strings (map token_val tokens), true)
  | DoubleQuotedPart parts =>
      (fix loop (ps : list WordPart) (ret : string) : result (bool * string * bool) :=
         match ps with
         | [] => Ok (true, ret, true)
         | p :: rest =>
             match part_EvalStatic p with
             | Raise e => Raise e
             | Ok (ok, s, _) =>
                 if ok then loop rest (ret +:+ s) else Ok (false, "", true)
             end
         end) parts ""
  | CommandSubPart _ _ => Ok (false, "", false)
  | VarSubPart _ _ _ _ _ => Ok (false, "", false)
  | TildeSubPart _ => Ok (false, "", false)
  | ArithSubPart _ => Ok (false, "", false)
  end.

(** The loop of [DoubleQuotedPart.EvalStatic], named. *)
Fixpoint dq_loop (ps : list WordPart) (ret : string) : result (bool * string * bool) :=
  match ps with
  | [] => Ok (true, ret, true)
  | p :: rest =>
      match part_EvalStatic p with
      | Raise e => Raise e
      | Ok (ok, s, _) =>
          if ok then dq_loop rest (ret +:+ s) else Ok (false, "", true)
      end
  end.

(** The loop of [CompoundWord.EvalStatic]. *)
Fixpoint word_loop (ps : list WordPart) (ret : string) (quoted : bool)
    : result (bool * string * bool) :=
  match ps with
  | [] => Ok (true, ret, quoted)
  | p :: rest =>
      match part_EvalStatic p with
      | Raise e => Raise e
      | Ok (ok, s, q) =>
          if ok then word_loop rest (ret +:+ s) (if q then true else quoted)
          else Ok (false, "", quoted)
      end
  end.

(** [Word.EvalStatic]: defined by [CompoundWord]; a [TokenWord] has no such
    method. *)
Definition EvalStatic (w : Word) : result (bool * string * bool) :=
  match w with
  | CompoundWord parts => word_loop parts "" false
  | TokenWord _ => Raise (AttributeError "EvalStatic")
  end.

(** [CompoundWord.BoolId] and [TokenWord.BoolId]. *)
Definition BoolId (w : Word) : result N :=
  match w with
  | TokenWord token => Ok (token_id token)
  | CompoundWord parts =>
      match parts with
      | [p] =>
          let token_type := LiteralId p in
          if token_type =? Id.Undefined_Tok then Ok Id.Word_Compound
          else if (token_type =? Id.KW_Bang) || (token_type =? Id.Lit_DRightBracket)
          then Ok token_type
          else
            match LookupKind token_type with
            | None => Raise (KeyError token_type)
            | Some token_kind =>
                if (token_kind =? Kind.BoolUnary) || (token_kind =? Kind.BoolBinary)
                then Ok token_type
                else Ok Id.Word_Compound
            end
      | _ => Ok Id.Word_Compound
      end
  end.

(** [CompoundWord.HasArrayPart] *)
Definition HasArrayPart (parts : list WordPart) : bool :=
  existsb (fun part => part_id part =? Id.Right_ArrayLiteral) parts.

(** [CompoundWord.LooksLikeAssignment]: [Some (name, rhs)] for the pair,
    [None] for [False].  The fresh [rhs] is a [CompoundWord]. *)
Definition LooksLikeAssignment (parts : list WordPart) : result (option (string * Word)) :=
  match parts with
  | [] => Ok None
  | p0 :: rest =>
      match VarLikeName p0 with
      | Raise e => Raise e
      | Ok name =>
          if truthy name then
            match name with
            | PyStr s =>
                match rest with
                | [] => Ok (Some (s, CompoundWord [SingleQuotedPart []]))
                | _ => Ok (Some (s, CompoundWord rest))
                end
            | PyFalse => Ok None
            end
          else Ok None
      end
  end.

(** [CompoundWord.AsArithVarName] *)
Definition AsArithVarName (parts : list WordPart) : StrOrFalse :=
  match parts with
  | [p] => ArithVarLikeName p
  | _ => PyStr ""
  end.

(** ** osh/bool_parse.py *)

(** The two lexical modes the boolean parser requests ([osh.lex.LexMode]). *)
Inductive LexMode := DBRACKET | BASH_REGEX.

#[global] Instance LexMode_eq_dec : EqDecision LexMode.
Proof. solve_decision. Defined.

(** A positional argument of [AddErrorContext]. *)
Inductive PyArg :=
| ArgWord (w : option Word)
| ArgStr (s : string).

(** Modelled from the spec: [base.MakeError] and the record it builds are in
    [core/base.py], which is not part of the sources at hand.  The spec gives
    an error record a message, an optional token and an optional word; the
    positional arguments handed over with the message are kept beside it. *)
Record ErrorContext := MakeError {
  err_msg : string;
  err_args : list PyArg;
  err_token : option Token;
  err_word : option Word
}.

(** The expression nodes.  A word used as a node is the implicit [-n] test;
    [NNone] is Python's [None], which the parser hands on as a child when a
    sub-parse has failed. *)
Inductive node :=
| NNone
| NWord (w : Word)
| UnaryExprNode (op_id : N) (child : node)
| BinaryExprNode (op_id : N) (left right : node)
| LogicalNot (child : node).

(** The value of a Python variable holding a word or [None], as a node. *)
Definition node_of (w : option Word) : node :=
  match w with
  | Some w => NWord w
  | None => NNone
  end.

(** A call of one of the two buffer operations, with the lexical mode asked
    for and the number of buffered words at entry.  The list of calls is a
    history kept beside the parser's own fields; the source has no such
    field, it only serves to state what holds at every call. *)
Inductive Call :=
| CallNextOne (lex_mode : LexMode) (n : nat)
| CallLookAhead (n : nat).

(** The fields of a [BoolParser].  [w_parser] is the state of the word
    reader: the lexical modes requested of it so far. *)
Record BoolParser := mkBoolParser {
  w_parser : list LexMode;
  words : list (option Word);
  cur_word : option Word;
  op_id : N;
  b_kind : N;
  error_stack : list ErrorContext;
  calls : list Call
}.

(** [BoolParser.__init__] *)
Definition BoolParser_init : BoolParser :=
  {| w_parser := []; words := []; cur_word := None;
     op_id := Id.Undefined_Tok; b_kind := Kind.Undefined;
     error_stack := []; calls := [] |}.

(** How a run of parser code ends: with a value, with an exception, or
    without an answer within the given number of steps. *)
Inductive outcome (A : Type) :=
| Done (a : A)
| Raised (e : exn)
| OutOfFuel.
Arguments Done {A} a.
Arguments Raised {A} e.
Arguments OutOfFuel {A}.

(** Parser code: a function of the parser object to an outcome and the
    object as the code leaves it. *)
Definition M (A : Type) : Type := BoolParser -> outcome A * BoolParser.

Definition ret {A} (a : A) : M A := fun st => (Done a, st).

Definition bind {A B} (m : M A) (k : A -> M B) : M B :=
  fun st =>
    match m st with
    | (Done a, st') => k a st'
    | (Raised e, st') => (Raised e, st')
    | (OutOfFuel, st') => (OutOfFuel, st')
    end.

Definition raise {A} (e : exn) : M A := fun st => (Raised e, st).

Definition out_of_fuel {A} : M A := fun st => (OutOfFuel, st).

Definition get {A} (f : BoolParser -> A) : M A := fun st => (Done (f st), st).

Definition modify (f : BoolParser -> BoolParser) : M unit := fun st => (Done tt, f st).

Definition lift {A} (r : result A) : M A :=
  match r with
  | Ok a => ret a
  | Raise e => raise e
  end.

Notation "x <- m ;; k" := (bind m (fun x => k))
  (at level 100, m at next level, right associativity).
Notation "m ;; k" := (bind m (fun _ => k))
  (at level 100, right associativity).

Definition set_w_parser (h : list LexMode) (st : BoolParser) : BoolParser :=
  {| w_parser := h; words := words st; cur_word := cur_word st;
     op_id := op_id st; b_kind := b_kind st;
     error_stack := error_stack st; calls := calls st |}.

Definition set_words (ws : list (option Word)) (st : BoolParser) : BoolParser :=
  {| w_parser := w_parser st; words := ws; cur_word := cur_word st;
     op_id := op_id st; b_kind := b_kind st;
     error_stack := error_stack st; calls := calls st |}.

Definition set_cur_word (w : option Word) (st : BoolParser) : BoolParser :=
  {| w_parser := w_parser st; words := words st; cur_word := w;
     op_id := op_id st; b_kind := b_kind st;
     error_stack := error_stack st; calls := calls st |}.

Definition set_op_id (i : N) (st : BoolParser) : BoolParser :=
  {| w_parser := w_parser st; words := words st; cur_word := cur_word st;
     op_id := i; b_kind := b_kind st;
     error_stack := error_stack st; calls := calls st |}.

Definition set_b_kind (k : N) (st : BoolParser) : BoolParser :=
  {| w_parser := w_parser st; words := words st; cur_word := cur_word st;
     op_id := op_id st; b_kind := k;
     error_stack := error_stack st; calls := calls st |}.

Definition extend_error_stack (errs : list ErrorContext) (st : BoolParser) : BoolParser :=
  {| w_parser := w_parser st; words := words st; cur_word := cur_word st;
     op_id := op_id st; b_kind := b_kind st;
     error_stack := error_stack st ++ errs; calls := calls st |}.

Definition record_call (c : Call) (st : BoolParser) : BoolParser :=
  {| w_parser := w_parser st; words := words st; cur_word := cur_word st;
     op_id := op_id st; b_kind := b_kind st;
     error_stack := error_stack st; calls := calls st ++ [c] |}.

(** The grammar's nonterminals, one per parsing method. *)
Inductive NonTerminal := PExpr | PTerm | PNegatedFactor | PFactor.

Section BoolParser.

(** The word reader ([osh/word_parse.py]) is not part of the sources at
    hand; the parser sees it through [ReadWord] and [Error] only.  A
    deterministic reader answers a request by a function of the lexical
    modes requested of it so far, the present one last: [None] for a
    failed read, and [reader_errors] for what [Error()] then returns. *)
Variable respond : list LexMode -> option Word.
Variable reader_errors : list LexMode -> list ErrorContext.

(** [libc.regex_parse] and Python's [repr] of a string. *)
Variable regex_parse : string -> bool.
Variable repr_str : string -> string.

(** [self.w_parser.ReadWord(lex_mode)] *)
Definition ReadWord (lex_mode : LexMode) : M (option Word) :=
  h <- get w_parser ;;
  modify (set_w_parser (h ++ [lex_mode])) ;;
  ret (respond (h ++ [lex_mode])).

(** [self.w_parser.Error()] *)
Definition reader_Error : M (list ErrorContext) :=
  h <- get w_parser ;;
  ret (reader_errors h).

(** [AddErrorContext(msg, *args, token=None, word=None)] *)
Definition AddErrorContext (msg : string) (args : list PyArg)
    (token : option Token) (word : option Word) : M unit :=
  modify (extend_error_stack [MakeError msg args token word]).

(** [w.BoolId()] for [w] a word or [None]. *)
Definition call_BoolId (w : option Word) : M N :=
  match w with
  | None => raise (AttributeError "BoolId")
  | Some w => lift (BoolId w)
  end.

(** [LookupKind(id_)] inside parser code. *)
Definition call_LookupKind (id_ : N) : M N :=
  match LookupKind id_ with
  | None => raise (KeyError id_)
  | Some k => ret k
  end.

Definition _NextOne (lex_mode : LexMode) : M bool :=
  ws <- get words ;;
  let n := length ws in
  modify (record_call (CallNextOne lex_mode n)) ;;
  ok <-
    match ws with
    | [w0; w1] =>
        (* n == 2 *)
        (if bool_decide (lex_mode = DBRACKET) then ret tt
         else raise (AssertionError "lex_mode == LexMode.DBRACKET")) ;;
        modify (set_words [w1; w1]) ;;
        modify (set_cur_word w1) ;;
        modify (set_words [w1]) ;;
        ret true
    | [] | [_] =>
        (* n in (0, 1) *)
        w <- ReadWord lex_mode ;;
        match w with
        | None =>
            err <- reader_Error ;;
            modify (extend_error_stack err) ;;
            ret false
        | Some _ =>
            (match ws with
             | [] => modify (set_words [w])
             | _ => modify (set_words (<[0%nat := w]> ws))
             end) ;;
            modify (set_cur_word w) ;;
            ret true
        end
    | _ => ret true
    end ;;
  if negb ok then ret false
  else
    cw <- get cur_word ;;
    i <- call_BoolId cw ;;
    modify (set_op_id i) ;;
    k <- call_LookupKind i ;;
    modify (set_b_kind k) ;;
    ret true.

(** [_Next]: the [while True] loop, one iteration per unit of fuel. *)
Fixpoint _Next (fuel : nat) (lex_mode : LexMode) : M bool :=
  match fuel with
  | O => out_of_fuel
  | S fuel' =>
      w <- _NextOne lex_mode ;;
      if negb w then ret false
      else
        i <- get op_id ;;
        if negb (i =? Id.Op_Newline) then ret true
        else _Next fuel' lex_mode
  end.

Definition AtEnd : M bool :=
  i <- get op_id ;;
  ret (i =? Id.Lit_DRightBracket).

Definition _LookAhead : M (option Word) :=
  ws <- get words ;;
  let n := length ws in
  modify (record_call (CallLookAhead n)) ;;
  (if negb (n =? 1)%nat then raise (AssertionError "self.words") else ret tt) ;;
  w <- ReadWord DBRACKET ;;
  modify (set_words (ws ++ [w])) ;;
  ret w.

(** [w.EvalStatic()] for [w] a word or [None]. *)
Definition call_EvalStatic (w : option Word) : M (bool * string * bool) :=
  match w with
  | None => raise (AttributeError "EvalStatic")
  | Some w => lift (EvalStatic w)
  end.

(** The body of [ParseFactor]; [ParseExpr] is the method it calls for a
    parenthesised expression, [fuel] bounds the loops of [_Next]. *)
Definition ParseFactor_body (fuel : nat) (ParseExpr : M node) : M node :=
  k <- get b_kind ;;
  if k =? Kind.BoolUnary then
    op <- get op_id ;;
    ok <- _Next fuel DBRACKET ;;
    if negb ok then ret NNone else
    word <- get cur_word ;;
    ok <- _Next fuel DBRACKET ;;
    if negb ok then ret NNone else
    ret (UnaryExprNode op (node_of word))
  else if k =? Kind.Word then
    t2 <- _LookAhead ;;
    t2_op_id <- call_BoolId t2 ;;
    t2_b_kind <- call_LookupKind t2_op_id ;;
    if (t2_b_kind =? Kind.BoolBinary) || (t2_b_kind =? Kind.Redir) then
      left <- get cur_word ;;
      ok <- _Next fuel DBRACKET ;;
      if negb ok then ret NNone else
      op <- get op_id ;;
      let is_regex := t2_op_id =? Id.BoolBinary_EqualTilde in
      ok <- (if is_regex then _Next fuel BASH_REGEX else _Next fuel DBRACKET) ;;
      if negb ok then ret NNone else
      right <- get cur_word ;;
      invalid <-
        (if is_regex then
           r <- call_EvalStatic right ;;
           let '(ok, regex_str, _) := r in
           if ok && negb (regex_parse regex_str) then
             AddErrorContext ("Invalid regex: " +:+ repr_str regex_str) []
               None right ;;
             ret true
           else ret false
         else ret false) ;;
      if (invalid : bool) then ret NNone else
      ok <- _Next fuel DBRACKET ;;
      if negb ok then ret NNone else
      ret (BinaryExprNode op (node_of left) (node_of right))
    else
      word <- get cur_word ;;
      ok <- _Next fuel DBRACKET ;;
      if negb ok then ret NNone else
      ret (node_of word)
  else
    i <- get op_id ;;
    if i =? Id.Op_LParen then
      ok <- _Next fuel DBRACKET ;;
      if negb ok then ret NNone else
      nd <- ParseExpr ;;
      i <- get op_id ;;
      if negb (i =? Id.Op_RParen) then raise (RuntimeError "Expected ), got %s")
      else
        ok <- _Next fuel DBRACKET ;;
        if negb ok then ret NNone else
        ret nd
    else raise (AssertionError "Unexpected token: %s").

(** The four mutually recursive parsing methods.  Every call of a method
    takes one unit of fuel. *)
Fixpoint parse (fuel : nat) (nt : NonTerminal) : M node :=
  match fuel with
  | O => out_of_fuel
  | S fuel' =>
      match nt with
      | PExpr =>
          left <- parse fuel' PTerm ;;
          i <- get op_id ;;
          if i =? Id.Op_DPipe then
            ok <- _Next fuel' DBRACKET ;;
            if negb ok then ret NNone else
            right <- parse fuel' PExpr ;;
            ret (BinaryExprNode Id.Op_DPipe left right)
          else ret left
      | PTerm =>
          left <- parse fuel' PNegatedFactor ;;
          i <- get op_id ;;
          if i =? Id.Op_DAmp then
            ok <- _Next fuel' DBRACKET ;;
            if negb ok then ret NNone else
            right <- parse fuel' PTerm ;;
            ret (BinaryExprNode Id.Op_DAmp left right)
          else ret left
      | PNegatedFactor =>
          i <- get op_id ;;
          if i =? Id.KW_Bang then
            ok <- _Next fuel' DBRACKET ;;
            if negb ok then ret NNone else
            child <- parse fuel' PFactor ;;
            ret (LogicalNot child)
          else parse fuel' PFactor
      | PFactor => ParseFactor_body fuel' (parse fuel' PExpr)
      end
  end.

Definition ParseExpr (fuel : nat) : M node := parse fuel PExpr.
Definition ParseTerm (fuel : nat) : M node := parse fuel PTerm.
Definition ParseNegatedFactor (fuel : nat) : M node := parse fuel PNegatedFactor.
Definition ParseFactor (fuel : nat) : M node := parse fuel PFactor.

Definition Parse (fuel : nat) : M node :=
  ok <- _Next fuel DBRACKET ;;
  if negb ok then ret NNone else
  nd <- ParseExpr fuel ;;
  at_end <- AtEnd ;;
  if negb at_end then
    cw <- get cur_word ;;
    AddErrorContext "Unexpected extra word %r" [ArgWord cw] None cw ;;
    ret NNone
  else ret nd.

End BoolParser.

(** ** Checks over the finished registry *)

(** The closed set of Kinds, by name. *)
Definition Kind_names : list string :=
  ["Undefined"; "Unknown"; "Eof"; "Ignored"; "WS"; "Lit"; "Op"; "Redir";
   "Left"; "Right"; "VSub"; "VTest"; "VOp1"; "VOp2"; "Arith"; "Node";
   "Word"; "KW"; "Assign"; "BoolUnary"; "BoolBinary"].

(** No integer occurs twice in a list. *)
Fixpoint nodupb (l : list N) : bool :=
  match l with
  | [] => true
  | x :: rest => negb (existsb (N.eqb x) rest) && nodupb rest
  end.

(** [kname] is an attribute with value [k] of the class [kinds]. *)
Definition kind_is_named (kinds : gmap string N) (k : N) (kname : string) : bool :=
  match kinds !! kname with
  | Some k' => k =? k'
  | None => false
  end.

(** The Kind table [lookup] is defined at [i] and gives one of the named
    Kinds of the class [kinds]. *)
Definition id_kindedb (kinds : gmap string N) (lookup : gmap N N) (i : N) : bool :=
  match lookup !! i with
  | Some k => existsb (kind_is_named kinds k) Kind_names
  | None => false
  end.

(** The operator spellings of the two boolean Kinds with the operand type
    each is to have. *)
Definition unary_operand_types : list (string * OperandType) :=
  map (fun c => ("-" +:+ c, OT_Str)) ["z"; "n"] ++
  map (fun c => ("-" +:+ c, OT_Other)) ["o"; "v"; "R"] ++
  map (fun c => ("-" +:+ c, OT_Path))
    ["a"; "b"; "c"; "d"; "e"; "f"; "g"; "h"; "L"; "p"; "r"; "s"; "S"; "t";
     "u"; "w"; "x"; "O"; "G"; "N"].

Definition binary_operand_types : list (string * OperandType) :=
  [("=", OT_Str); ("==", OT_Str); ("!=", OT_Str); ("=~", OT_Str);
   ("-ef", OT_Path); ("-nt", OT_Path); ("-ot", OT_Path);
   ("-eq", OT_Int); ("-ne", OT_Int); ("-gt", OT_Int); ("-ge", OT_Int);
   ("-lt", OT_Int); ("-le", OT_Int)].

Definition OperandType_eqb (a b : OperandType) : bool :=
  match a, b with
  | OT_Undefined, OT_Undefined | OT_Path, OT_Path | OT_Int, OT_Int
  | OT_Str, OT_Str | OT_Other, OT_Other => true
  | _, _ => false
  end.

(** The spelling the lexer table [pairs] of Kind [k] gives for Id [i]. *)
Definition spelling_of (pairs : gmap N (list LexerPair)) (k i : N) : option string :=
  match pairs !! k with
  | None => None
  | Some ps =>
      match List.find (fun p : LexerPair => snd p =? i) ps with
      | Some p => Some (snd (fst p))
      | None => None
      end
  end.

(** Id [i] of Kind [k] is spelled and typed as one row of [table]. *)
Definition operand_row_ok (pairs : gmap N (list LexerPair))
    (table : list (string * OperandType)) (k i : N) : bool :=
  match spelling_of pairs k i, BOOL_OPS !! i with
  | Some pat, Some t =>
      existsb (fun row : string * OperandType =>
                 String.eqb (fst row) pat && OperandType_eqb (snd row) t) table
  | _, _ => false
  end.

(** An Id of one of the two boolean Kinds has its row. *)
Definition bool_id_okb (pairs : gmap N (list LexerPair)) (ik : N * N) : bool :=
  if snd ik =? Kind.BoolUnary
  then operand_row_ok pairs unary_operand_types (snd ik) (fst ik)
  else if snd ik =? Kind.BoolBinary
  then operand_row_ok pairs binary_operand_types (snd ik) (fst ik)
  else true.

(** A row of the table is an Id of Kind [k] with that spelling and type. *)
Definition row_registeredb (pairs : gmap N (list LexerPair)) (k : N)
    (row : string * OperandType) : bool :=
  match pairs !! k with
  | None => false
  | Some ps =>
      existsb (fun p : LexerPair =>
                 String.eqb (snd (fst p)) (fst row) &&
                 match LookupKind (snd p), BOOL_OPS !! (snd p) with
                 | Some k', Some t => (k' =? k) && OperandType_eqb t (snd row)
                 | _, _ => false
                 end) ps
  end.

(** ** Predicates on word parts *)

(** The part is a command, variable or arithmetic substitution, or a
    double-quoted part that contains one. *)
Fixpoint contains_subst (p : WordPart) : bool :=
  match p with
  | CommandSubPart _ _ | VarSubPart _ _ _ _ _ | ArithSubPart _ => true
  | DoubleQuotedPart parts => existsb contains_subst parts
  | _ => false
  end.

(** The part is an array literal, or a double-quoted part that contains one. *)
Fixpoint contains_array (p : WordPart) : bool :=
  match p with
  | ArrayLiteralPart _ => true
  | DoubleQuotedPart parts => existsb contains_array parts
  | _ => false
  end.

(** The part is built from literal, escaped, single-quoted and double-quoted
    parts only. *)
Fixpoint is_static (p : WordPart) : bool :=
  match p with
  | LiteralPart _ | EscapedLiteralPart _ | SingleQuotedPart _ => true
  | DoubleQuotedPart parts => forallb is_static parts
  | _ => false
  end.

(** The text a static part stands for. *)
Fixpoint static_text (p : WordPart) : string :=
  match p with
  | LiteralPart token => token_val token
  | EscapedLiteralPart token => slice_from_1 (token_val token)
  | SingleQuotedPart tokens => join_strings (map token_val tokens)
  | DoubleQuotedPart parts => join_strings (map static_text parts)
  | _ => ""
  end.

(** A static part counts as quoted unless it is a plain literal. *)
Definition is_quoted (p : WordPart) : bool :=
  match p with
  | LiteralPart _ => false
  | _ => true
  end.

(** The right-hand side [LooksLikeAssignment] builds from the parts after
    the first. *)
Definition assignment_rhs (rest : list WordPart) : Word :=
  match rest with
  | [] => CompoundWord [SingleQuotedPart []]
  | _ => CompoundWord rest
  end.

(** The condition under which [BoolId] hands back the Id [i] of the token of
    a compound word's part. *)
Definition is_bool_token (parts : list WordPart) (i : N) : Prop :=
  exists token,
    parts = [LiteralPart token] /\ token_id token = i /\
    i <> Id.Undefined_Tok /\
    (LookupKind i = Some Kind.BoolUnary \/ LookupKind i = Some Kind.BoolBinary \/
     i = Id.KW_Bang \/ i = Id.Lit_DRightBracket).

(** What [EvalStatic] of a part can give: a result whose [ok] is false as
    soon as the part contains a substitution, or [NotImplementedError], and
    the latter only for a part that contains an array literal. *)
Definition EvalStatic_outcome_ok (has_subst has_array : bool)
    (r : result (bool * string * bool)) : Prop :=
  match r with
  | Ok (ok, _, _) => has_subst = true -> ok = false
  | Raise e => e = NotImplementedError /\ has_array = true
  end.


(** ** Reasoning about parser code *)

(** [wp m st Q]: the run of [m] from [st] ends in an outcome and a parser
    object that satisfy [Q]. *)
Definition wp {A} (m : M A) (st : BoolParser) (Q : outcome A -> BoolParser -> Prop) : Prop :=
  Q (fst (m st)) (snd (m st)).

(** The postcondition [wp] hands to the first half of a [bind]. *)
Definition bind_post {A B} (k : A -> M B) (Q : outcome B -> BoolParser -> Prop)
    (o : outcome A) (st : BoolParser) : Prop :=
  match o with
  | Done a => wp (k a) st Q
  | Raised e => Q (Raised e) st
  | OutOfFuel => Q OutOfFuel st
  end.

(** What holds of a call of a buffer operation when the buffer is used as
    meant: at most two words are buffered; a two-word buffer is drained
    under [DBRACKET] only, so a [BASH_REGEX] request meets at most one
    buffered word; the look-ahead meets exactly one. *)
Definition call_ok (c : Call) : Prop :=
  match c with
  | CallNextOne lex_mode n =>
      (n <= 2)%nat /\ (n = 2%nat -> lex_mode = DBRACKET) /\
      (lex_mode = BASH_REGEX -> (n <= 1)%nat)
  | CallLookAhead n => n = 1%nat
  end.

(** The two assertions that guard the buffer: the [assert] of [_NextOne] and
    the [raise AssertionError(self.words)] of [_LookAhead]. *)
Definition buffer_assertion (e : exn) : Prop :=
  e = AssertionError "lex_mode == LexMode.DBRACKET" \/ e = AssertionError "self.words".

(** The outcome is not a failed buffer assertion. *)
Definition no_buffer_assertion {A} (o : outcome A) : Prop :=
  match o with
  | Raised e => ~ buffer_assertion e
  | _ => True
  end.

(** A reader that answers request number [i] with the [i]-th word of a list,
    whatever the mode, and with an end-of-file token word once the list is
    used up. *)
Definition list_reader (l : list Word) (h : list LexMode) : option Word :=
  Some (nth (length h - 1) l (TokenWord (mkToken Id.Eof_Real ""))).

(** A reader without pending errors. *)
Definition no_errors (h : list LexMode) : list ErrorContext := [].

(** Words for examples. *)
Definition literal_word (i : N) (s : string) : Word :=
  CompoundWord [LiteralPart (mkToken i s)].

Definition token_word (i : N) (s : string) : Word :=
  TokenWord (mkToken i s).

(** What a piece of parser code leaves behind when the buffer is used as
    meant: every call so far was in order, no buffer assertion has failed,
    at most two words are buffered, and exactly [n] when it returns. *)
Definition buffer_post (n : nat) {A} (o : outcome A) (st' : BoolParser) : Prop :=
  Forall call_ok (calls st') /\ no_buffer_assertion o /\
  (length (words st') <= 2)%nat /\
  (forall a, o = Done a -> length (words st') = n).

(** The words of [x =~ a+ ]]], as the reader hands them over. *)
Definition regex_example : list Word :=
  [literal_word Id.Lit_Chars "x"; literal_word Id.BoolBinary_EqualTilde "=~";
   literal_word Id.Lit_Chars "a+"; literal_word Id.Lit_DRightBracket "]]"].

(** The run of [Parse] on that example by a fresh parser, with a regex
    checker that accepts everything, and the parser as the run leaves it. *)
Definition regex_example_run : outcome node * BoolParser :=
  Parse (list_reader regex_example) no_errors (fun _ => true) (fun s => s)
    6 BoolParser_init.

Definition regex_example_result : outcome node * BoolParser :=
  Eval vm_compute in regex_example_run.

(** The error stack [l'] is [l] with records appended, at least one for
    [grows_strictly]. *)
Definition grows (l l' : list ErrorContext) : Prop :=
  exists new : list ErrorContext, l' = (l ++ new)%list.

Definition grows_strictly (l l' : list ErrorContext) : Prop :=
  exists new : list ErrorContext, new <> [] /\ l' = (l ++ new)%list.

(** A postcondition that only speaks of runs that return. *)
Definition on_done {A} (Q : A -> BoolParser -> Prop) (o : outcome A)
    (st : BoolParser) : Prop :=
  match o with
  | Done a => Q a st
  | _ => True
  end.

(** The contract of the word reader the error stack relies on: a read that
    fails leaves at least one error for [Error()] to return. *)
Definition reader_reports_errors (respond : list LexMode -> option Word)
    (reader_errors : list LexMode -> list ErrorContext) : Prop :=
  forall h, respond h = None -> reader_errors h <> [].

(** What a parsing method leaves behind when it returns [nd], from a parser
    whose error stack was [l]: the stack has only grown, the current word is
    set, and if [nd] is [None] the stack has grown by at least one record. *)
Definition parse_errors_post (l : list ErrorContext) (nd : node) (st' : BoolParser) : Prop :=
  grows l (error_stack st') /\ is_Some (cur_word st') /\
  (nd = NNone -> grows_strictly l (error_stack st')).

(** ** Well-formed expressions and the reading script *)

(** The parser object after [_NextOne] has read [w] (of [BoolId] [i] and Kind
    [k]) under [lex_mode] into a buffer of at most one word. *)
Definition after_read (lex_mode : LexMode) (w : Word) (i k : N) (st : BoolParser)
    : BoolParser :=
  {| w_parser := w_parser st ++ [lex_mode];
     words := [Some w];
     cur_word := Some w;
     op_id := i;
     b_kind := k;
     error_stack := error_stack st;
     calls := calls st ++ [CallNextOne lex_mode (length (words st))] |}.

(** The parser object after [_NextOne] has drained a two-word buffer whose
    second word is [w]. *)
Definition after_drain (w : Word) (i k : N) (st : BoolParser) : BoolParser :=
  {| w_parser := w_parser st;
     words := [Some w];
     cur_word := Some w;
     op_id := i;
     b_kind := k;
     error_stack := error_stack st;
     calls := calls st ++ [CallNextOne DBRACKET 2] |}.

(** The parser object after [_LookAhead] has read [w] behind the word [x]. *)
Definition after_lookahead (x : option Word) (w : Word) (st : BoolParser) : BoolParser :=
  {| w_parser := w_parser st ++ [DBRACKET];
     words := [x; Some w];
     cur_word := cur_word st;
     op_id := op_id st;
     b_kind := b_kind st;
     error_stack := error_stack st;
     calls := calls st ++ [CallLookAhead 1] |}.

(** [w] is a word [_Next] stops at: its [BoolId] is [i], of Kind [k], and is
    not a newline. *)
Definition word_class (w : Word) (i k : N) : Prop :=
  BoolId w = Ok i /\ LookupKind i = Some k /\ i <> Id.Op_Newline.

(** The parser stands at the word [w]: [w] is the current and only buffered
    word, and [op_id] and [b_kind] are those of [w]. *)
Definition positioned (st : BoolParser) (w : Word) : Prop :=
  words st = [Some w] /\ cur_word st = Some w /\
  word_class w (op_id st) (b_kind st).

(** The [BoolId] of a word, [Undefined_Tok] where the call raises. *)
Definition word_id (w : Word) : N :=
  match BoolId w with
  | Ok i => i
  | Raise _ => Id.Undefined_Tok
  end.

(** Boolean expressions as sequences of words, after the grammar in the
    docstring of [bool_parse.py]:
    a lone word, [UNARY_OP WORD], [WORD BINARY_OP WORD], [( Expr )],
    [! Factor], [Negated && Term], [Term || Expr]. *)
Inductive bexp :=
| XWord (w : Word)
| XUnary (op w : Word)
| XBinary (l op r : Word)
| XParen (lp : Word) (e : bexp) (rp : Word)
| XNot (bang : Word) (f : bexp)
| XAnd (l : bexp) (amp : Word) (r : bexp)
| XOr (l : bexp) (pipe : Word) (r : bexp).

(** The grammar level of an expression: 0 factor, 1 negated factor, 2 term,
    3 expression. *)
Definition level (e : bexp) : nat :=
  match e with
  | XWord _ | XUnary _ _ | XBinary _ _ _ | XParen _ _ _ => 0
  | XNot _ _ => 1
  | XAnd _ _ _ => 2
  | XOr _ _ _ => 3
  end.

Definition level_of (nt : NonTerminal) : nat :=
  match nt with
  | PFactor => 0
  | PNegatedFactor => 1
  | PTerm => 2
  | PExpr => 3
  end.

(** The first word of an expression. *)
Fixpoint first_word (e : bexp) : Word :=
  match e with
  | XWord w => w
  | XUnary op _ => op
  | XBinary l _ _ => l
  | XParen lp _ _ => lp
  | XNot bang _ => bang
  | XAnd l _ _ => first_word l
  | XOr l _ _ => first_word l
  end.

(** The lexical mode the right operand of the operator word [op] is read
    under. *)
Definition right_operand_mode (op : Word) : LexMode :=
  if word_id op =? Id.BoolBinary_EqualTilde then BASH_REGEX else DBRACKET.

(** The words of an expression after its first, each with the lexical mode
    it is to be requested under. *)
Fixpoint reads (e : bexp) : list (LexMode * Word) :=
  match e with
  | XWord _ => []
  | XUnary _ w => [(DBRACKET, w)]
  | XBinary _ op r => [(DBRACKET, op); (right_operand_mode op, r)]
  | XParen _ e rp => (DBRACKET, first_word e) :: reads e ++ [(DBRACKET, rp)]
  | XNot _ f => (DBRACKET, first_word f) :: reads f
  | XAnd l amp r => reads l ++ (DBRACKET, amp) :: (DBRACKET, first_word r) :: reads r
  | XOr l pipe r => reads l ++ (DBRACKET, pipe) :: (DBRACKET, first_word r) :: reads r
  end.

(** The right operand of [=~] passes the regex check: its static
    evaluation does not raise, and gives a valid regex if it succeeds. *)
Definition regex_accepted (regex_parse : string -> bool) (r : Word) : Prop :=
  exists ok s q, EvalStatic r = Ok (ok, s, q) /\ (ok = true -> regex_parse s = true).

(** Well-formed expressions: the words are of the classes the grammar asks
    for, and the parts are of the levels it asks for. *)
Fixpoint well_formed (regex_parse : string -> bool) (e : bexp) : Prop :=
  match e with
  | XWord w => word_class w Id.Word_Compound Kind.Word
  | XUnary op w =>
      (exists i, word_class op i Kind.BoolUnary) /\
      (exists i k, word_class w i k)
  | XBinary l op r =>
      word_class l Id.Word_Compound Kind.Word /\
      (exists i k, word_class op i k /\ (k = Kind.BoolBinary \/ k = Kind.Redir)) /\
      (exists i k, word_class r i k) /\
      (word_id op = Id.BoolBinary_EqualTilde -> regex_accepted regex_parse r)
  | XParen lp e rp =>
      word_class lp Id.Op_LParen Kind.Op /\ well_formed regex_parse e /\
      word_class rp Id.Op_RParen Kind.Op
  | XNot bang f =>
      word_class bang Id.KW_Bang Kind.KW /\ level f = 0%nat /\ well_formed regex_parse f
  | XAnd l amp r =>
      (level l <= 1)%nat /\ well_formed regex_parse l /\
      word_class amp Id.Op_DAmp Kind.Op /\
      (level r <= 2)%nat /\ well_formed regex_parse r
  | XOr l pipe r =>
      (level l <= 2)%nat /\ well_formed regex_parse l /\
      word_class pipe Id.Op_DPipe Kind.Op /\ well_formed regex_parse r
  end.

(** The node an expression stands for; chains lean to the right as the
    expression does. *)
Fixpoint denote (e : bexp) : node :=
  match e with
  | XWord w => NWord w
  | XUnary op w => UnaryExprNode (word_id op) (NWord w)
  | XBinary l op r => BinaryExprNode (word_id op) (NWord l) (NWord r)
  | XParen _ e _ => denote e
  | XNot _ f => LogicalNot (denote f)
  | XAnd l _ r => BinaryExprNode Id.Op_DAmp (denote l) (denote r)
  | XOr l _ r => BinaryExprNode Id.Op_DPipe (denote l) (denote r)
  end.

(** Nesting depth, which bounds the fuel a parse needs. *)
Fixpoint depth (e : bexp) : nat :=
  match e with
  | XWord _ | XUnary _ _ | XBinary _ _ _ => 1
  | XParen _ e _ => S (depth e)
  | XNot _ f => S (depth f)
  | XAnd l _ r => S (Nat.max (depth l) (depth r))
  | XOr l _ r => S (Nat.max (depth l) (depth r))
  end.

(** A word that may follow an expression parsed at nonterminal [nt]: a word
    [_Next] stops at, that is no binary operator, and no [&&] after a term
    nor [||] after an expression. *)
Definition follows (nt : NonTerminal) (k : Word) (i kind : N) : Prop :=
  word_class k i kind /\ kind <> Kind.BoolBinary /\ kind <> Kind.Redir /\
  ((2 <= level_of nt)%nat -> i <> Id.Op_DAmp) /\
  ((3 <= level_of nt)%nat -> i <> Id.Op_DPipe).

(** The reader answers the requests of a script: asked under the modes of
    the script in turn, after the history [h], it hands over the words of
    the script. *)
Fixpoint served (respond : list LexMode -> option Word) (h : list LexMode)
    (script : list (LexMode * Word)) : Prop :=
  match script with
  | [] => True
  | (m, w) :: rest =>
      respond (h ++ [m])%list = Some w /\ served respond (h ++ [m])%list rest
  end.

(** The parser [st'] has gone from [st] through the words of [e] and stands
    at the word [k] that follows: it has requested the words of [e] and [k]
    under the modes of the script, and the error stack is as it was. *)
Definition parsed (st : BoolParser) (e : bexp) (k : Word) (st' : BoolParser) : Prop :=
  positioned st' k /\
  w_parser st' = w_parser st ++ map fst (reads e ++ [(DBRACKET, k)]) /\
  error_stack st' = error_stack st.

(** The parser is right on the expression [e]: asked for any nonterminal of
    the level of [e] or above, with fuel enough for the depth of [e], at the
    first word of [e], with a reader that serves the words of [e] and a
    word [k] that may follow, it returns the node of [e] and stands at
    [k]. *)
Definition parses (respond : list LexMode -> option Word)
    (reader_errors : list LexMode -> list ErrorContext)
    (regex_parse : string -> bool) (repr_str : string -> string)
    (e : bexp) : Prop :=
  forall nt fuel k ki kk st,
    (level e <= level_of nt)%nat ->
    (5 * depth e <= fuel)%nat ->
    positioned st (first_word e) ->
    served respond (w_parser st) (reads e ++ [(DBRACKET, k)]) ->
    follows nt k ki kk ->
    exists st',
      parse respond reader_errors regex_parse repr_str fuel nt st = (Done (denote e), st') /\
      parsed st e k st'.

(** The script of an expression from its first word on: the plain sequence
    of its words, each with the mode it is requested under. *)
Definition script_of (e : bexp) : list (LexMode * Word) :=
  (DBRACKET, first_word e) :: reads e.

(** The record [Parse] pushes for a word left over after the expression. *)
Definition extra_word_error (k : Word) : ErrorContext :=
  MakeError "Unexpected extra word %r" [ArgWord (Some k)] None (Some k).

(** The record [ParseFactor] pushes for a right operand of [=~] that
    evaluates statically to the invalid regex [s]. *)
Definition invalid_regex_error (repr_str : string -> string) (s : string) (r : Word)
    : ErrorContext :=
  MakeError ("Invalid regex: " +:+ repr_str s) [] None (Some r).
(** ** Whole expressions and example inputs *)

(** An operand of a chain of [&&] or [||]: a well-formed factor, negated or
    not, so that it holds no [&&] or [||] outside parentheses. *)
Definition operand (regex_parse : string -> bool) (e : bexp) : Prop :=
  well_formed regex_parse e /\ (level e <= 1)%nat.

(** The right operands of [=~] in an expression. *)
Fixpoint regex_operands (e : bexp) : list Word :=
  match e with
  | XWord _ | XUnary _ _ => []
  | XBinary _ op r => if word_id op =? Id.BoolBinary_EqualTilde then [r] else []
  | XParen _ e _ => regex_operands e
  | XNot _ f => regex_operands f
  | XAnd l _ r => regex_operands l ++ regex_operands r
  | XOr l _ r => regex_operands l ++ regex_operands r
  end.

(** The outcome of a fresh parser's [Parse] on the words of a list. *)
Definition Parse_words (ws : list Word) (regex_parse : string -> bool) (fuel : nat)
    : outcome node * BoolParser :=
  Parse (list_reader ws) no_errors regex_parse (fun s => s) fuel BoolParser_init.

Definition amp_word : Word := token_word Id.Op_DAmp "&&".
Definition pipe_word : Word := token_word Id.Op_DPipe "||".
Definition lparen_word : Word := token_word Id.Op_LParen "(".
Definition end_word : Word := literal_word Id.Lit_DRightBracket "]]".
Definition regex_op_word : Word := literal_word Id.BoolBinary_EqualTilde "=~".
Definition a_word : Word := literal_word Id.Lit_Chars "a".
Definition b_word : Word := literal_word Id.Lit_Chars "b".
Definition c_word : Word := literal_word Id.Lit_Chars "c".

(** [a && b && c ]]] *)
Definition and_chain_example : list Word :=
  [a_word; amp_word; b_word; amp_word; c_word; end_word].

(** [( a ]]]: the closing parenthesis is missing. *)
Definition unbalanced_example : list Word := [lparen_word; a_word; end_word].

(** [a b ]]]: a word is left over after the expression [a]. *)
Definition extra_word_example : list Word := [a_word; b_word; end_word].

(** [&& a ]]]: an operator where an operand is due. *)
Definition stray_operator_example : list Word := [amp_word; a_word; end_word].

(** [a && ]]]: the operand after [&&] is missing. *)
Definition missing_operand_example : list Word := [a_word; amp_word; end_word].

(** [a && && b ]]]: two operators in a row. *)
Definition double_operator_example : list Word :=
  [a_word; amp_word; amp_word; b_word; end_word].

(** [a =~ b c]: the right operand is followed by the word [c]. *)
Definition regex_operand_example : list Word :=
  [a_word; regex_op_word; b_word; c_word].

(** A run of [ParseFactor] from [st] has built the binary node of
    [l op r], with the right operand requested under [m] and the error
    stack left as it was. *)
Definition binary_built (run : outcome node * BoolParser) (st : BoolParser)
    (l : Word) (oi : N) (m : LexMode) (r : Word) : Prop :=
  fst run = Done (BinaryExprNode oi (NWord l) (NWord r)) /\
  w_parser (snd run) = w_parser st ++ [DBRACKET; m; DBRACKET] /\
  error_stack (snd run) = error_stack st.

(** The parser that has read [a] as its first word. *)
Definition at_a_word : BoolParser :=
  after_read DBRACKET a_word Id.Word_Compound Kind.Word BoolParser_init.

(** ** core/word_node.py: the other methods of words and parts *)

(** [CompoundWord.AssignmentBuiltinId] *)
Definition AssignmentBuiltinId (parts : list WordPart) : result N :=
  match parts with
  | [p] =>
      let token_type := LiteralId p in
      if token_type =? Id.Undefined_Tok then Ok Id.Undefined_Tok
      else
        match LookupKind token_type with
        | None => Raise (KeyError token_type)
        | Some token_kind =>
            if token_kind =? Kind.Assign then Ok token_type
            else Ok Id.Undefined_Tok
        end
  | _ => Ok Id.Undefined_Tok
  end.

(** [CompoundWord.ArithId] and [TokenWord.ArithId] *)
Definition ArithId (w : Word) : N :=
  match w with
  | CompoundWord _ => Id.Word_Compound
  | TokenWord token => token_id token
  end.

(** [CompoundWord.CommandId] and [TokenWord.CommandId] *)
Definition CommandId (w : Word) : result N :=
  match w with
  | TokenWord token => Ok (token_id token)
  | CompoundWord parts =>
      match parts with
      | [p] =>
          let token_type := LiteralId p in
          if token_type =? Id.Undefined_Tok then Ok Id.Word_Compound
          else if (token_type =? Id.Lit_LBrace) || (token_type =? Id.Lit_RBrace)
          then Ok token_type
          else
            match LookupKind token_type with
            | None => Raise (KeyError token_type)
            | Some token_kind =>
                if token_kind =? Kind.KW then Ok token_type
                else Ok Id.Word_Compound
            end
      | _ => Ok Id.Word_Compound
      end
  end.

(** [CompoundWord.AsFuncName]: [(ok, name)], or the [RuntimeError] for a
    quoted name of several parts. *)
Definition AsFuncName (parts : list WordPart) : result (bool * string) :=
  match EvalStatic (CompoundWord parts) with
  | Raise e => Raise e
  | Ok (ok, s, quoted) =>
      if negb ok then Ok (false, "")
      else if quoted && negb (length parts =? 1)%nat
      then Raise (RuntimeError "Function names should not have quotes, got: %s")
      else Ok (true, s)
  end.

(** [l[-1]] of a non-empty list, [None] for the empty one. *)
Fixpoint last_item {A} (l : list A) : option A :=
  match l with
  | [] => None
  | [x] => Some x
  | _ :: rest => last_item rest
  end.

(** [TokenPair] of a part: the leftmost and the rightmost token, each
    possibly [None].  Only the literal, quoted and var-sub parts override
    the method; for the others the base class raises. *)
Fixpoint part_TokenPair (p : WordPart) : result (option Token * option Token) :=
  match p with
  | LiteralPart token => Ok (Some token, Some token)
  | EscapedLiteralPart token => Ok (Some token, Some token)
  | SingleQuotedPart tokens =>
      match tokens with
      | [] => Ok (None, None)
      | t0 :: _ => Ok (Some t0, last_item tokens)
      end
  | DoubleQuotedPart parts =>
      match parts with
      | [] => Ok (None, None)
      | p0 :: _ =>
          match part_TokenPair p0 with
          | Raise e => Raise e
          | Ok (begin_, _) =>
              match
                (fix last_pair (qs : list WordPart)
                   : result (option Token * option Token) :=
                   match qs with
                   | [] => Ok (None, None)
                   | q :: qs' =>
                       match qs' with
                       | [] => part_TokenPair q
                       | _ :: _ => last_pair qs'
                       end
                   end) parts
              with
              | Raise e => Raise e
              | Ok (_, end_) => Ok (begin_, end_)
              end
          end
      end
  | VarSubPart _ token _ _ _ =>
      match token with
      | Some t => Ok (Some t, Some t)
      | None => Ok (None, None)
      end
  | ArrayLiteralPart _ | CommandSubPart _ _ | TildeSubPart _ | ArithSubPart _ =>
      Raise NotImplementedError
  end.

(** [parts[-1].TokenPair()] for a non-empty list of parts. *)
Fixpoint last_TokenPair (qs : list WordPart)
    : result (option Token * option Token) :=
  match qs with
  | [] => Ok (None, None)
  | q :: qs' =>
      match qs' with
      | [] => part_TokenPair q
      | _ :: _ => last_TokenPair qs'
      end
  end.

(** [CompoundWord.TokenPair] and [TokenWord.TokenPair] *)
Definition TokenPair (w : Word) : result (option Token * option Token) :=
  match w with
  | TokenWord token => Ok (Some token, Some token)
  | CompoundWord parts =>
      match parts with
      | [] => Ok (None, None)
      | p0 :: _ =>
          match part_TokenPair p0 with
          | Raise e => Raise e
          | Ok (begin_token, _) =>
              match last_TokenPair parts with
              | Raise e => Raise e
              | Ok (_, end_token) => Ok (begin_token, end_token)
              end
          end
      end
  end.

(** A part whose [TokenPair] is defined all the way down. *)
Fixpoint has_TokenPair (p : WordPart) : bool :=
  match p with
  | LiteralPart _ | EscapedLiteralPart _ | SingleQuotedPart _
  | VarSubPart _ _ _ _ _ => true
  | DoubleQuotedPart parts => forallb has_TokenPair parts
  | _ => false
  end.

(** The first [n] characters of a string, and the rest. *)
Fixpoint string_take (n : nat) (s : string) : string :=
  match n, s with
  | S n', String c rest => String c (string_take n' rest)
  | _, _ => EmptyString
  end.

Fixpoint string_drop (n : nat) (s : string) : string :=
  match n, s with
  | S n', String _ rest => string_drop n' rest
  | _, _ => s
  end.

(** The position a Python slice bound [i] stands for in a sequence of
    length [len]: a negative bound counts from the end, and a bound outside
    the sequence is clipped. *)
Definition slice_bound (len : nat) (i : Z) : nat :=
  if (i <? 0)%Z then Z.to_nat (Z.of_nat len + i) else Nat.min (Z.to_nat i) len.

(** [s[:i]] and [s[i:]] *)
Definition slice_to (s : string) (i : Z) : string :=
  string_take (slice_bound (String.length s) i) s.

Definition slice_from (s : string) (i : Z) : string :=
  string_drop (slice_bound (String.length s) i) s.

(** [s.find(c)] for a one-character [c]: the index of its first occurrence,
    [-1] if there is none. *)
Fixpoint find_char (c : ascii) (s : string) : Z :=
  match s with
  | EmptyString => (-1)%Z
  | String a rest =>
      if Ascii.eqb a c then 0%Z
      else
        let r := find_char c rest in
        if (r <? 0)%Z then (-1)%Z else (r + 1)%Z
  end.

(** The character [c] occurs in [s]. *)
Fixpoint occurs (c : ascii) (s : string) : bool :=
  match s with
  | EmptyString => false
  | String a rest => Ascii.eqb a c || occurs c rest
  end.

(** [WordPart.UnquotedLiteralValue], overridden by [LiteralPart] only. *)
Definition UnquotedLiteralValue (p : WordPart) : string :=
  match p with
  | LiteralPart token => token_val token
  | _ => ""
  end.

(** [WordPart.TestLiteralForSlash], overridden by [LiteralPart] only. *)
Definition TestLiteralForSlash (p : WordPart) : Z :=
  match p with
  | LiteralPart token => find_char "/"%char (token_val token)
  | _ => (-2)%Z
  end.

(** [LiteralPart.SplitAtIndex]; the other parts have no such method. *)
Definition SplitAtIndex (p : WordPart) (i : Z) : result (string * string) :=
  match p with
  | LiteralPart token => Ok (slice_to (token_val token) i, slice_from (token_val token) i)
  | _ => Raise (AttributeError "SplitAtIndex")
  end.

(** What [EvalStatic] of the parts [ps1 ++ ps2] is, from the results for
    [ps1] and for [ps2]: the loop stops at the first part that is not static
    or that raises. *)
Definition EvalStatic_then (r1 r2 : result (bool * string * bool))
    : result (bool * string * bool) :=
  match r1 with
  | Raise e => Raise e
  | Ok (false, _, q1) => Ok (false, "", q1)
  | Ok (true, s1, q1) =>
      match r2 with
      | Raise e => Raise e
      | Ok (false, _, q2) => Ok (false, "", q1 || q2)
      | Ok (true, s2, q2) => Ok (true, s1 +:+ s2, q1 || q2)
      end
  end.

(** The names of the assignment builtins' Ids. *)
Definition Assign_names : list string :=
  ["Assign_Declare"; "Assign_Export"; "Assign_Local"; "Assign_Readonly"].

(** ** core/id_kind.py: what a registration does, and the other tables *)

(** [IdSpec.LexerPairs]: [self.lexer_pairs[kind]]; [None] is Python's
    [KeyError]. *)
Definition LexerPairs (spec : IdSpec) (kind : N) : option (list LexerPair) :=
  lexer_pairs spec !! kind.

(** Two instances that differ in [bool_ops] at most. *)
Definition same_ids (a b : IdSpec) : Prop :=
  id_enum a = id_enum b /\ kind_enum a = kind_enum b /\
  token_names a = token_names b /\ kind_lookup a = kind_lookup b /\
  kind_sizes a = kind_sizes b /\ lexer_pairs a = lexer_pairs b /\
  token_index a = token_index b /\ kind_index a = kind_index b.

(** [spec'] comes from [spec] by one [_AddId] per name of the list, in
    order, with the name prefixed by [kind_name]; [bool_ops] may have been
    written in between. *)
Inductive registered (kind_name : string) : list string -> IdSpec -> IdSpec -> Prop :=
| registered_nil spec spec' :
    same_ids spec spec' -> registered kind_name [] spec spec'
| registered_cons name names spec spec1 spec' :
    same_ids (_AddId (token_name_of kind_name name) spec) spec1 ->
    registered kind_name names spec1 spec' ->
    registered kind_name (name :: names) spec spec'.

(** What the Ids of [names] added to [spec] look like in [spec']: they are
    the next integers after [token_index spec], in order; each is named
    after the Kind and mapped to the Kind under registration; the Ids there
    were keep their names and Kinds; an attribute of [Id] is new, or as it
    was. *)
Definition ids_added (kind_name : string) (names : list string) (spec spec' : IdSpec)
    : Prop :=
  token_index spec' = token_index spec + N.of_nat (length names) /\
  (forall (k : nat) name,
      names !! k = Some name ->
      let i := token_index spec + 1 + N.of_nat k in
      token_names spec' !! i = Some (token_name_of kind_name name) /\
      kind_lookup spec' !! i = Some (kind_index spec) /\
      (NoDup names -> id_enum spec' !! token_name_of kind_name name = Some i)) /\
  (forall i,
      i <= token_index spec \/ token_index spec' < i ->
      token_names spec' !! i = token_names spec !! i /\
      kind_lookup spec' !! i = kind_lookup spec !! i) /\
  (forall nm,
      (forall name, name ∈ names -> nm <> token_name_of kind_name name) ->
      id_enum spec' !! nm = id_enum spec !! nm) /\
  (forall nm i,
      id_enum spec' !! nm = Some i ->
      id_enum spec !! nm = Some i \/ token_index spec < i <= token_index spec').

(** [spec'] is [spec] with the Kind [kind_name] registered, holding the Ids
    of [names]: the Kind takes the next Kind number, and its size is
    appended to the statistics. *)
Definition registers_kind (kind_name : string) (names : list string)
    (spec spec' : IdSpec) : Prop :=
  ids_added kind_name names spec spec' /\
  kind_index spec' = kind_index spec + 1 /\
  kind_enum spec' = <[kind_name := kind_index spec]> (kind_enum spec) /\
  kind_sizes spec' = kind_sizes spec ++ [length names].

(** The lexer table a registration with patterns builds: the patterns in
    order, each with the Id it was given, the first one after [base]. *)
Fixpoint lexer_rows (base : N) (pairs : list (string * string)) : list LexerPair :=
  match pairs with
  | [] => []
  | (_, char_pat) :: rest => (false, char_pat, base + 1) :: lexer_rows (base + 1) rest
  end.

(** The pairs of an [arg_type_pairs] dictionary in registration order, and
    the operand type each pair stands under. *)
Definition all_pairs (items : list (OperandType * list (string * string)))
    : list (string * string) :=
  concat (map snd items).

Definition all_types (items : list (OperandType * list (string * string)))
    : list OperandType :=
  concat (map (fun it : OperandType * list (string * string) =>
                 map (fun _ => fst it) (snd it)) items).

(** The operand types [types] written to [bool_ops] for the Ids after
    [token_index spec], in order, and no other entry touched. *)
Definition ops_added (types : list OperandType) (spec spec' : IdSpec) : Prop :=
  (forall (k : nat) t,
      types !! k = Some t ->
      bool_ops spec' !! (token_index spec + 1 + N.of_nat k) = Some t) /\
  (forall i,
      i <= token_index spec \/ token_index spec + N.of_nat (length types) < i ->
      bool_ops spec' !! i = bool_ops spec !! i).

(** The invariant of the registry: the Ids are the integers from 1 to
    [token_index] (0 is left out), each with a name and a Kind; the Kinds
    are the integers below [kind_index]; Kinds grow with the Ids, so that
    the Ids of one Kind are consecutive; every attribute of [Id] and of
    [Kind] is in range; and [kind_sizes] has one entry per Kind, the
    entries adding up to the number of Ids. *)
Definition registry_ok (spec : IdSpec) : Prop :=
  (forall i, is_Some (token_names spec !! i) <-> 1 <= i <= token_index spec) /\
  (forall i, is_Some (kind_lookup spec !! i) <-> 1 <= i <= token_index spec) /\
  (forall i k, kind_lookup spec !! i = Some k -> k < kind_index spec) /\
  (forall i j ki kj,
      i <= j -> kind_lookup spec !! i = Some ki -> kind_lookup spec !! j = Some kj ->
      ki <= kj) /\
  (forall nm i, id_enum spec !! nm = Some i -> 1 <= i <= token_index spec) /\
  (forall nm k, kind_enum spec !! nm = Some k -> k < kind_index spec) /\
  N.of_nat (length (kind_sizes spec)) = kind_index spec /\
  N.of_nat (list_sum (kind_sizes spec)) = token_index spec.

(** The instance after the two [AddBoolKind] calls of [_AddBoolKinds]; the
    [AddBoolOp] calls that follow write to [bool_ops] only. *)
Definition bool_kinds_added : IdSpec :=
  AddBoolKind "BoolBinary" [
      (OT_Str, [("Equal", "="); ("DEqual", "=="); ("NEqual", "!=");
                ("EqualTilde", "=~")]);
      (OT_Path, _Dash ["ef"; "nt"; "ot"]);
      (OT_Int, _Dash ["eq"; "ne"; "gt"; "ge"; "lt"; "le"])]
    (AddBoolKind "BoolUnary" [
      (OT_Str, _Dash (chars "zn"));
      (OT_Other, _Dash (chars "ovR"));
      (OT_Path, _Dash UNARY_FILE_CHARS)] (_AddKinds IdSpec_init)).

(** [s] without the prefix [p], if it begins with it. *)
Fixpoint strip_prefix (p s : string) : option string :=
  match p with
  | EmptyString => Some s
  | String a p' =>
      match s with
      | EmptyString => None
      | String b s' => if Ascii.eqb a b then strip_prefix p' s' else None
      end
  end.

(** [s.split(c)[0]]: the text before the first [c], all of [s] if there is
    none. *)
Fixpoint first_field (c : ascii) (s : string) : string :=
  match s with
  | EmptyString => EmptyString
  | String a rest => if Ascii.eqb a c then EmptyString else String a (first_field c rest)
  end.

(** The name of Id [i] is the name [kname] of its Kind [k], an underscore,
    and more; and the Kind's name has no underscore of its own. *)
Definition name_prefixedb (kinds : gmap string N) (k : N) (name kname : string) : bool :=
  kind_is_named kinds k kname &&
  is_some_b (strip_prefix (kname +:+ "_") name) &&
  negb (occurs "_"%char kname).

Definition id_prefixedb (kinds : gmap string N) (iname : N * string) : bool :=
  match _ID_TO_KIND !! fst iname with
  | Some k => existsb (name_prefixedb kinds k (snd iname)) Kind_names
  | None => false
  end.

(** The Kinds registered with patterns, by name. *)
Definition lexer_kind_names : list string :=
  ["VTest"; "VOp1"; "VOp2"; "Arith"; "BoolUnary"; "BoolBinary"].

(** No string occurs twice in a list. *)
Fixpoint nodup_strings (l : list string) : bool :=
  match l with
  | [] => true
  | x :: rest => negb (existsb (String.eqb x) rest) && nodup_strings rest
  end.

(** One lexer table is in order: it stands under a Kind registered with
    patterns; every row is a constant pattern, not empty, with an Id of
    that Kind; no Id and no pattern occurs twice. *)
Definition lexer_table_okb (kinds : gmap string N) (kps : N * list LexerPair) : bool :=
  existsb (kind_is_named kinds (fst kps)) lexer_kind_names &&
  forallb (fun p : LexerPair =>
             negb (fst (fst p)) &&
             negb (String.eqb (snd (fst p)) "") &&
             match _ID_TO_KIND !! snd p with
             | Some k => k =? fst kps
             | None => false
             end) (snd kps) &&
  nodupb (map snd (snd kps)) &&
  nodup_strings (map (fun p : LexerPair => snd (fst p)) (snd kps)).

(** An Id of a Kind that has a lexer table has a row in it, and every Kind
    registered with patterns has a table. *)
Definition id_in_tableb (pairs : gmap N (list LexerPair)) (ik : N * N) : bool :=
  match pairs !! snd ik with
  | Some ps => existsb (fun p : LexerPair => snd p =? fst ik) ps
  | None => true
  end.

Definition kind_has_tableb (kinds : gmap string N) (pairs : gmap N (list LexerPair))
    (kname : string) : bool :=
  match kinds !! kname with
  | Some k => is_some_b (pairs !! k)
  | None => false
  end.

(** [RedirType = util.Enum('RedirType', 'Path Desc Str')] *)
Inductive RedirType := RT_Path | RT_Desc | RT_Str.

(** A dictionary display whose keys are attributes of [Id]: the items are
    evaluated in order, a later item writes over an earlier one with the
    same key, and a missing attribute is Python's [AttributeError]
    ([None]). *)
Fixpoint dict_display {V} (items : list (string * V)) (d : gmap N V) : option (gmap N V) :=
  match items with
  | [] => Some d
  | (name, v) :: rest =>
      match getattr (id_enum ID_SPEC) name with
      | Some i => dict_display rest (<[i := v]> d)
      | None => None
      end
  end.

Definition REDIR_DEFAULT_FD_build : option (gmap N N) :=
  dict_display [
    ("Redir_Less", 0); ("Redir_Great", 1); ("Redir_DGreat", 1);
    ("Redir_Clobber", 1); ("Redir_LessGreat", 1);
    ("Redir_GreatAnd", 1); ("Redir_LessAnd", 0);
    ("Redir_DLess", 0); ("Redir_DLessDash", 0); ("Redir_TLess", 0)] ∅.

Definition REDIR_TYPE_build : option (gmap N RedirType) :=
  dict_display [
    ("Redir_Less", RT_Path); ("Redir_Great", RT_Path); ("Redir_DGreat", RT_Path);
    ("Redir_Clobber", RT_Path); ("Redir_LessGreat", RT_Path);
    ("Redir_GreatAnd", RT_Desc); ("Redir_LessAnd", RT_Desc);
    ("Redir_DLess", RT_Str); ("Redir_DLessDash", RT_Str); ("Redir_TLess", RT_Str)] ∅.

(** The two tables once the module is loaded. *)
Definition REDIR_DEFAULT_FD : gmap N N :=
  Eval vm_compute in default ∅ REDIR_DEFAULT_FD_build.

Definition REDIR_TYPE : gmap N RedirType :=
  Eval vm_compute in default ∅ REDIR_TYPE_build.

(** A row of the redirect tables is in order: the Id is of Kind [Redir],
    the default descriptor is 0 or 1, and a here document or here string
    ([Str]) reads from descriptor 0. *)
Definition redir_row_okb (it : N * N) : bool :=
  match _ID_TO_KIND !! fst it, REDIR_TYPE !! fst it with
  | Some k, Some t =>
      (k =? Kind.Redir) && ((snd it =? 0) || (snd it =? 1)) &&
      match t with RT_Str => snd it =? 0 | _ => true end
  | _, _ => false
  end.

(** An Id of Kind [Redir] has an entry in both tables. *)
Definition redir_id_okb (ik : N * N) : bool :=
  negb (snd ik =? Kind.Redir) ||
  (is_some_b (REDIR_DEFAULT_FD !! fst ik) && is_some_b (REDIR_TYPE !! fst ik)).

(** ** Runs of the parser, read backwards *)

(** A node without [None] in it. *)
Fixpoint complete (nd : node) : bool :=
  match nd with
  | NNone => false
  | NWord _ => true
  | UnaryExprNode _ child => complete child
  | BinaryExprNode _ l r => complete l && complete r
  | LogicalNot child => complete child
  end.

(** A reader that hands over no newline word. *)
Definition newline_free (respond : list LexMode -> option Word) : Prop :=
  forall h w, respond h = Some w -> BoolId w <> Ok Id.Op_Newline.

(** The parser object after a read under [lex_mode] has failed in
    [_NextOne]: the errors of the reader are on the stack. *)
Definition after_failed_read (reader_errors : list LexMode -> list ErrorContext)
    (lex_mode : LexMode) (st : BoolParser) : BoolParser :=
  {| w_parser := w_parser st ++ [lex_mode];
     words := words st;
     cur_word := cur_word st;
     op_id := op_id st;
     b_kind := b_kind st;
     error_stack := error_stack st ++ reader_errors (w_parser st ++ [lex_mode]);
     calls := calls st ++ [CallNextOne lex_mode (length (words st))] |}.

(** The parser object after a read has failed in [_LookAhead]: [None] is
    buffered behind the word [x]. *)
Definition after_failed_lookahead (x : option Word) (st : BoolParser) : BoolParser :=
  {| w_parser := w_parser st ++ [DBRACKET];
     words := [x; None];
     cur_word := cur_word st;
     op_id := op_id st;
     b_kind := b_kind st;
     error_stack := error_stack st;
     calls := calls st ++ [CallLookAhead 1] |}.

(** The node [nd] a parsing method has returned from [st], standing at the
    word [w0], is the node of a well-formed expression of the method's level
    that begins with [w0]; the reader has handed over the words of that
    expression and one more, at which the parser [st'] stands. *)
Definition recognised (respond : list LexMode -> option Word)
    (regex_parse : string -> bool) (nt : NonTerminal) (w0 : Word)
    (st : BoolParser) (nd : node) (st' : BoolParser) : Prop :=
  exists e k,
    first_word e = w0 /\ well_formed regex_parse e /\
    (level e <= level_of nt)%nat /\ denote e = nd /\
    served respond (w_parser st) (reads e ++ [(DBRACKET, k)]) /\
    parsed st e k st'.

(** What [_Next] leaves when it returns true with at most one word
    buffered: it has read a word it stops at. *)
Definition has_read (respond : list LexMode -> option Word) (lex_mode : LexMode)
    (st st' : BoolParser) : Prop :=
  exists w i k,
    respond (w_parser st ++ [lex_mode]) = Some w /\ word_class w i k /\
    st' = after_read lex_mode w i k st.

(** The one Id of Kind [Word]. *)
Definition word_kind_okb (ik : N * N) : bool :=
  negb (snd ik =? Kind.Word) || (fst ik =? Id.Word_Compound).

(** A reader that hands over the words of a list and fails afterwards. *)
Definition short_reader (l : list Word) (h : list LexMode) : option Word :=
  nth_error l (length h - 1).

(** More words for examples. *)
Definition newline_word : Word := token_word Id.Op_Newline (String "010"%char EmptyString).
Definition deq_word : Word := literal_word Id.BoolBinary_DEqual "==".
Definition z_word : Word := literal_word Id.BoolUnary_z "-z".

(** The parser after [ParseFactor] has read a unary operator, taken the word
    [k] as its operand, and failed to read on. *)
Definition after_failed_unary (reader_errors : list LexMode -> list ErrorContext)
    (op : Word) (oi ok : N) (k : Word) (ki kk : N) (st : BoolParser) : BoolParser :=
  after_failed_read reader_errors DBRACKET
    (after_read DBRACKET k ki kk (after_read DBRACKET op oi ok st)).

(** A word whose [BoolId] is not the newline operator. *)
Definition no_newline_word (w : Word) : bool :=
  match BoolId w with
  | Ok i => negb (i =? Id.Op_Newline)
  | Raise _ => true
  end.

(** [a && b && c], as an expression and as the node [Parse] builds. *)
Definition and_chain_expr : bexp :=
  XAnd (XWord a_word) amp_word (XAnd (XWord b_word) amp_word (XWord c_word)).

Definition and_chain_node : node :=
  BinaryExprNode Id.Op_DAmp (NWord a_word)
    (BinaryExprNode Id.Op_DAmp (NWord b_word) (NWord c_word)).

(** Two newlines and then [a]. *)
Definition newlines_example : list Word := [newline_word; newline_word; a_word].

(** [a], a newline, and [== b ]]] on the next line. *)
Definition broken_line_example : list Word :=
  [a_word; newline_word; deq_word; b_word; end_word].

(** [a || -z ]]], after which the reader fails. *)
Definition cut_short_example : list Word := [a_word; pipe_word; z_word; end_word].

(** The errors of a reader that leaves one record for a failed read. *)
Definition eof_errors (h : list LexMode) : list ErrorContext :=
  [MakeError "Unexpected EOF" [] None None].

(** ** The registry *)

Lemma ID_SPEC_built : ID_SPEC_build = Some ID_SPEC.
Proof.
  assert (H : is_some_b ID_SPEC_build = true) by (vm_compute; reflexivity).
  unfold ID_SPEC. destruct ID_SPEC_build; [reflexivity | discriminate H].
Qed.

(** Every attribute named in [Id] and [Kind] exists on the finished classes,
    with the value recorded for it. *)
Lemma Id_attrs_defined :
  Forall (fun '(name, v) => id_enum ID_SPEC !! name = Some v)
    [("Undefined_Tok", Id.Undefined_Tok); ("Eof_Real", Id.Eof_Real);
     ("Lit_Chars", Id.Lit_Chars); ("Lit_VarLike", Id.Lit_VarLike);
     ("Lit_EscapedChar", Id.Lit_EscapedChar); ("Lit_LBrace", Id.Lit_LBrace);
     ("Lit_RBrace", Id.Lit_RBrace); ("Lit_DRightBracket", Id.Lit_DRightBracket);
     ("Lit_Tilde", Id.Lit_Tilde); ("Lit_ArithVarLike", Id.Lit_ArithVarLike);
     ("Op_Newline", Id.Op_Newline); ("Op_DAmp", Id.Op_DAmp);
     ("Op_DPipe", Id.Op_DPipe); ("Op_LParen", Id.Op_LParen);
     ("Op_RParen", Id.Op_RParen); ("Redir_Less", Id.Redir_Less);
     ("Redir_Great", Id.Redir_Great);
     ("Left_DoubleQuote", Id.Left_DoubleQuote);
     ("Left_SingleQuote", Id.Left_SingleQuote);
     ("Left_CommandSub", Id.Left_CommandSub); ("Left_VarSub", Id.Left_VarSub);
     ("Left_ArithSub", Id.Left_ArithSub);
     ("Right_ArrayLiteral", Id.Right_ArrayLiteral);
     ("Word_Compound", Id.Word_Compound); ("KW_Bang", Id.KW_Bang);
     ("BoolUnary_z", Id.BoolUnary_z);
     ("BoolBinary_DEqual", Id.BoolBinary_DEqual);
     ("BoolBinary_EqualTilde", Id.BoolBinary_EqualTilde)].
Proof. repeat constructor; vm_compute; reflexivity. Qed.

Lemma Kind_attrs_defined :
  Forall (fun '(name, v) => kind_enum ID_SPEC !! name = Some v)
    [("Undefined", Kind.Undefined); ("Eof", Kind.Eof); ("Op", Kind.Op);
     ("Redir", Kind.Redir); ("Word", Kind.Word); ("KW", Kind.KW);
     ("Assign", Kind.Assign); ("BoolUnary", Kind.BoolUnary);
     ("BoolBinary", Kind.BoolBinary)].
Proof. repeat constructor; vm_compute; reflexivity. Qed.

Lemma existsb_eqb_elem (x : N) (l : list N) :
  existsb (N.eqb x) l = true <-> x ∈ l.
Proof.
  rewrite existsb_exists. split.
  - intros (y & Hin & Heq). apply N.eqb_eq in Heq. subst y.
    by apply list_elem_of_In.
  - intros Hin. exists x. split; [by apply list_elem_of_In | apply N.eqb_refl].
Qed.

Lemma nodupb_NoDup (l : list N) : nodupb l = true -> NoDup l.
Proof.
  induction l as [|x l IH]; simpl; [constructor|].
  intros H. apply andb_true_iff in H as [Hx Hl].
  constructor; [|by apply IH].
  intros Hin. apply existsb_eqb_elem in Hin. by rewrite Hin in Hx.
Qed.

(** In a list of pairs whose second components are pairwise distinct, the
    second component determines the first. *)
Lemma NoDup_snd_inj {A} (l : list (A * N)) a b i :
  NoDup (l.*2) -> (a, i) ∈ l -> (b, i) ∈ l -> a = b.
Proof.
  induction l as [|[x j] l IH]; simpl; intros Hnd Ha Hb.
  - by apply elem_of_nil in Ha.
  - apply NoDup_cons in Hnd as [Hj Hnd].
    apply elem_of_cons in Ha as [Ha|Ha]; apply elem_of_cons in Hb as [Hb|Hb].
    + congruence.
    + inversion Ha; subst. exfalso. apply Hj.
      apply list_elem_of_fmap. by exists (b, j).
    + inversion Hb; subst. exfalso. apply Hj.
      apply list_elem_of_fmap. by exists (a, j).
    + by apply IH.
Qed.

Lemma forallb_elem_of {A} (f : A -> bool) (l : list A) (x : A) :
  forallb f l = true -> x ∈ l -> f x = true.
Proof.
  intros H Hin. rewrite forallb_forall in H. apply H. by apply list_elem_of_In.
Qed.

#[local] Opaque ID_SPEC.

Lemma ids_nodup : nodupb ((map_to_list (id_enum ID_SPEC)).*2) = true.
Proof. vm_compute. reflexivity. Qed.

Lemma ids_kinded :
  forallb (fun ni : string * N => id_kindedb (kind_enum ID_SPEC) _ID_TO_KIND ni.2)
    (map_to_list (id_enum ID_SPEC)) = true.
Proof. vm_compute. reflexivity. Qed.

Lemma ids_counted :
  (N.of_nat (length (map_to_list (id_enum ID_SPEC))) =? token_index ID_SPEC) = true.
Proof. vm_compute. reflexivity. Qed.

Lemma _ID_TO_KIND_eq : _ID_TO_KIND = kind_lookup ID_SPEC.
Proof. vm_compute. reflexivity. Qed.

Lemma BOOL_OPS_eq : BOOL_OPS = bool_ops ID_SPEC.
Proof. vm_compute. reflexivity. Qed.

Lemma id_kindedb_sound (kinds : gmap string N) (lookup : gmap N N) i :
  id_kindedb kinds lookup i = true ->
  exists k kname, lookup !! i = Some k /\ kname ∈ Kind_names /\
                  kinds !! kname = Some k.
Proof.
  unfold id_kindedb. destruct (lookup !! i) as [k|]; [|discriminate].
  intros H. apply existsb_exists in H as (kname & Hin & Hk).
  exists k, kname. split; [done|]. split; [by apply list_elem_of_In|].
  unfold kind_is_named in Hk.
  destruct (kinds !! kname) as [k'|]; [|discriminate].
  apply N.eqb_eq in Hk. by subst.
Qed.

Lemma size_is_length (m : gmap string N) : size m = length (map_to_list m).
Proof. by rewrite length_map_to_list. Qed.

(** C5: once the registry is built, every registered Id has its own integer
    (each [_AddId] advances the one shared counter by one and gives the new
    value to the Id, and the counter ends at the number of Ids), and every
    registered Id is mapped by [LookupKind] to a Kind, which is one of the
    closed set of named Kinds. *)
Theorem C5_registry_ids_unique_and_kinded :
  (forall name spec,
      token_index (_AddId name spec) = token_index spec + 1 /\
      id_enum (_AddId name spec) !! name = Some (token_index spec + 1) /\
      kind_lookup (_AddId name spec) !! (token_index spec + 1) = Some (kind_index spec)) /\
  N.of_nat (size (id_enum ID_SPEC)) = token_index ID_SPEC /\
  (forall n1 n2 i,
      id_enum ID_SPEC !! n1 = Some i -> id_enum ID_SPEC !! n2 = Some i -> n1 = n2) /\
  (forall n i,
      id_enum ID_SPEC !! n = Some i ->
      exists k kname, LookupKind i = Some k /\ kname ∈ Kind_names /\
                      kind_enum ID_SPEC !! kname = Some k).
Proof.
  split; [|split; [|split]].
  - intros name spec. unfold _AddId; cbn [token_index id_enum kind_lookup].
    by rewrite !lookup_insert_eq.
  - rewrite size_is_length. apply N.eqb_eq. exact ids_counted.
  - intros n1 n2 i H1 H2.
    apply (NoDup_snd_inj (map_to_list (id_enum ID_SPEC)) n1 n2 i).
    + apply nodupb_NoDup. exact ids_nodup.
    + by apply elem_of_map_to_list.
    + by apply elem_of_map_to_list.
  - intros n i Hn. unfold LookupKind. apply id_kindedb_sound.
    apply (forallb_elem_of _ _ (n, i) ids_kinded).
    by apply elem_of_map_to_list.
Qed.

Lemma OperandType_eqb_eq a b : OperandType_eqb a b = true -> a = b.
Proof. by destruct a, b. Qed.

Lemma operand_row_ok_sound pairs table k i :
  operand_row_ok pairs table k i = true ->
  exists pat t, spelling_of pairs k i = Some pat /\ BOOL_OPS !! i = Some t /\
                (pat, t) ∈ table.
Proof.
  unfold operand_row_ok.
  destruct (spelling_of pairs k i) as [pat|]; [|discriminate].
  destruct (BOOL_OPS !! i) as [t|]; [|discriminate].
  intros H. apply existsb_exists in H as ([pat' t'] & Hin & Hrow).
  apply andb_true_iff in Hrow as [Hp Ht]. simpl in Hp, Ht.
  apply String.eqb_eq in Hp. apply OperandType_eqb_eq in Ht. subst.
  exists pat, t. split; [done|]. split; [done|]. by apply list_elem_of_In.
Qed.

Lemma row_registeredb_sound pairs k row :
  row_registeredb pairs k row = true ->
  exists ps b i, pairs !! k = Some ps /\ (b, fst row, i) ∈ ps /\
                 LookupKind i = Some k /\ BOOL_OPS !! i = Some (snd row).
Proof.
  unfold row_registeredb. destruct (pairs !! k) as [ps|]; [|discriminate].
  intros H. apply existsb_exists in H as ([[b pat] i] & Hin & H).
  apply andb_true_iff in H as [Hp H]. simpl in Hp, H.
  apply String.eqb_eq in Hp. subst pat.
  destruct (LookupKind i) as [k'|] eqn:Ek; [|discriminate].
  destruct (BOOL_OPS !! i) as [t|] eqn:Et; [|discriminate].
  apply andb_true_iff in H as [Hk Ht].
  apply N.eqb_eq in Hk. apply OperandType_eqb_eq in Ht. subst.
  exists ps, b, i. split; [done|]. split; [by apply list_elem_of_In|done].
Qed.

Lemma bool_ids_ok :
  forallb (bool_id_okb (lexer_pairs ID_SPEC)) (map_to_list _ID_TO_KIND) = true.
Proof. vm_compute. reflexivity. Qed.

Lemma unary_rows_registered :
  forallb (row_registeredb (lexer_pairs ID_SPEC) Kind.BoolUnary) unary_operand_types = true.
Proof. vm_compute. reflexivity. Qed.

Lemma binary_rows_registered :
  forallb (row_registeredb (lexer_pairs ID_SPEC) Kind.BoolBinary) binary_operand_types = true.
Proof. vm_compute. reflexivity. Qed.

(** C6: every Id of Kind [BoolUnary] or [BoolBinary] has an operand type in
    [BOOL_OPS]: the one the table gives for its spelling ([-z], [-n] are
    [Str]; [-o], [-v], [-R] are [Other]; the path letters are [Path]; [=],
    [==], [!=], [=~] are [Str]; [-ef], [-nt], [-ot] are [Path]; [-eq] to
    [-le] are [Int]); every spelling of the table is such an Id; and the
    connectives [Op_DAmp], [Op_DPipe] and [KW_Bang] are [Undefined]. *)
Theorem C6_operand_type_of_bool_ids :
  (forall i,
      LookupKind i = Some Kind.BoolUnary ->
      exists pat t, spelling_of (lexer_pairs ID_SPEC) Kind.BoolUnary i = Some pat /\
                    BOOL_OPS !! i = Some t /\ (pat, t) ∈ unary_operand_types) /\
  (forall i,
      LookupKind i = Some Kind.BoolBinary ->
      exists pat t, spelling_of (lexer_pairs ID_SPEC) Kind.BoolBinary i = Some pat /\
                    BOOL_OPS !! i = Some t /\ (pat, t) ∈ binary_operand_types) /\
  (forall pat t,
      (pat, t) ∈ unary_operand_types ->
      exists ps b i, lexer_pairs ID_SPEC !! Kind.BoolUnary = Some ps /\
                     (b, pat, i) ∈ ps /\ LookupKind i = Some Kind.BoolUnary /\
                     BOOL_OPS !! i = Some t) /\
  (forall pat t,
      (pat, t) ∈ binary_operand_types ->
      exists ps b i, lexer_pairs ID_SPEC !! Kind.BoolBinary = Some ps /\
                     (b, pat, i) ∈ ps /\ LookupKind i = Some Kind.BoolBinary /\
                     BOOL_OPS !! i = Some t) /\
  BOOL_OPS !! Id.Op_DAmp = Some OT_Undefined /\
  BOOL_OPS !! Id.Op_DPipe = Some OT_Undefined /\
  BOOL_OPS !! Id.KW_Bang = Some OT_Undefined.
Proof.
  repeat split.
  - intros i Hi.
    assert (Hin : (i, Kind.BoolUnary) ∈ map_to_list _ID_TO_KIND)
      by (by apply elem_of_map_to_list).
    pose proof (forallb_elem_of _ _ _ bool_ids_ok Hin) as H.
    unfold bool_id_okb in H. cbn [fst snd] in H.
    rewrite N.eqb_refl in H. by apply operand_row_ok_sound.
  - intros i Hi.
    assert (Hin : (i, Kind.BoolBinary) ∈ map_to_list _ID_TO_KIND)
      by (by apply elem_of_map_to_list).
    pose proof (forallb_elem_of _ _ _ bool_ids_ok Hin) as H.
    unfold bool_id_okb in H. cbn [fst snd] in H.
    change (Kind.BoolBinary =? Kind.BoolUnary) with false in H.
    rewrite N.eqb_refl in H. by apply operand_row_ok_sound.
  - intros pat t Hin.
    apply (row_registeredb_sound _ _ (pat, t)).
    by apply (forallb_elem_of _ _ _ unary_rows_registered).
  - intros pat t Hin.
    apply (row_registeredb_sound _ _ (pat, t)).
    by apply (forallb_elem_of _ _ _ binary_rows_registered).
Qed.

(** ** The word model *)

(** Induction over parts that reaches the parts inside double quotes. *)
Lemma WordPart_nested_ind (P : WordPart -> Prop) :
  (forall words, P (ArrayLiteralPart words)) ->
  (forall token, P (LiteralPart token)) ->
  (forall token, P (EscapedLiteralPart token)) ->
  (forall tokens, P (SingleQuotedPart tokens)) ->
  (forall parts, Forall P parts -> P (DoubleQuotedPart parts)) ->
  (forall token command_list, P (CommandSubPart token command_list)) ->
  (forall name token prefix_op bracket_op suffix_op,
      P (VarSubPart name token prefix_op bracket_op suffix_op)) ->
  (forall prefix, P (TildeSubPart prefix)) ->
  (forall anode, P (ArithSubPart anode)) ->
  forall p, P p.
Proof.
  intros Harr Hlit Hesc Hsq Hdq Hcs Hvs Hts Has.
  fix IH 1. intros [words|token|token|tokens|parts|token cl|name token a b c|prefix|anode].
  - apply Harr.
  - apply Hlit.
  - apply Hesc.
  - apply Hsq.
  - apply Hdq. induction parts as [|p parts IHparts]; constructor.
    + apply IH.
    + apply IHparts.
  - apply Hcs.
  - apply Hvs.
  - apply Hts.
  - apply Has.
Qed.

Lemma part_EvalStatic_dq parts :
  part_EvalStatic (DoubleQuotedPart parts) = dq_loop parts "".
Proof.
  simpl.
  match goal with
  | |- ?loop parts "" = _ =>
      assert (H : forall ret, loop parts ret = dq_loop parts ret); [|apply H]
  end.
  induction parts as [|p parts IH]; intros ret; simpl; [done|].
  destruct (part_EvalStatic p) as [[[ok s] q]|e]; [|done].
  destruct ok; [apply IH | done].
Qed.

Lemma append_cons (c : ascii) (a b : string) :
  String c a +:+ b = String c (a +:+ b).
Proof. reflexivity. Qed.

Lemma append_nil (b : string) : "" +:+ b = b.
Proof. reflexivity. Qed.

Lemma append_assoc (a b c : string) : (a +:+ b) +:+ c = a +:+ (b +:+ c).
Proof.
  induction a as [|x a IH]; [done|]. rewrite !append_cons. by f_equal.
Qed.

Lemma append_empty_r (a : string) : a +:+ "" = a.
Proof.
  induction a as [|x a IH]; [done|]. rewrite append_cons. by f_equal.
Qed.

Lemma slice_to_last_app (name : string) : slice_to_last (name +:+ "=") = name.
Proof.
  induction name as [|c name IH]; [done|].
  rewrite append_cons. cbn [slice_to_last]. rewrite IH.
  destruct name; [done|]. by rewrite append_cons.
Qed.

Lemma endswith_char_app (name : string) (c : ascii) :
  endswith_char (name +:+ String c "") c = true.
Proof.
  induction name as [|a name IH].
  - rewrite append_nil. simpl. by apply bool_decide_eq_true.
  - rewrite append_cons. cbn [endswith_char]. rewrite IH.
    destruct name; [done|]. by rewrite append_cons.
Qed.

(** C3 (as stated it fails): a first part with Id [Lit_VarLike] does not
    make [LooksLikeAssignment] return a pair when the token text is just
    [=], since the empty name is falsy; and for the text [a==] the name
    returned is [a=], which ends in [=]. *)
Lemma C3_counterexample_empty_name :
  LiteralId (LiteralPart (mkToken Id.Lit_VarLike "=")) = Id.Lit_VarLike /\
  LooksLikeAssignment [LiteralPart (mkToken Id.Lit_VarLike "=")] = Ok None /\
  LooksLikeAssignment [LiteralPart (mkToken Id.Lit_VarLike "a==")] =
    Ok (Some ("a=", CompoundWord [SingleQuotedPart []])).
Proof. repeat split. Qed.

(** C3 (amended): when the first part is a literal with Id [Lit_VarLike]
    whose text is a non-empty name followed by [=], the name itself not
    ending in [=], [LooksLikeAssignment] returns the pair of that name and a
    new compound word: the remaining parts, or one empty single-quoted part
    when none remain. *)
Theorem C3_LooksLikeAssignment_VarLike (token : Token) (rest : list WordPart)
    (name : string) :
  token_id token = Id.Lit_VarLike ->
  token_val token = name +:+ "=" ->
  name <> "" ->
  endswith_char name "=" = false ->
  exists n rhs,
    LooksLikeAssignment (LiteralPart token :: rest) = Ok (Some (n, rhs)) /\
    n = name /\ endswith_char n "=" = false /\
    rhs = match rest with
          | [] => CompoundWord [SingleQuotedPart []]
          | _ => CompoundWord rest
          end.
Proof.
  intros Hid Hval Hne Hend. exists name, (assignment_rhs rest).
  split; [|by destruct rest].
  unfold LooksLikeAssignment, VarLikeName. rewrite Hid, N.eqb_refl, Hval.
  rewrite endswith_char_app, slice_to_last_app.
  destruct name as [|c name]; [done|]. by destruct rest.
Qed.

Lemma C3_LooksLikeAssignment_VarLike_witness :
  exists n rhs,
    LooksLikeAssignment [LiteralPart (mkToken Id.Lit_VarLike "foo=")] =
      Ok (Some (n, rhs)) /\
    n = "foo" /\ endswith_char n "=" = false /\
    rhs = CompoundWord [SingleQuotedPart []].
Proof.
  apply (C3_LooksLikeAssignment_VarLike (mkToken Id.Lit_VarLike "foo=") [] "foo");
    [reflexivity | reflexivity | discriminate | reflexivity].
Defined.

(** C4: for a compound word whose literal tokens carry registered Ids,
    [BoolId] returns the Id of the token of the single part when the word
    has one part, that part is a literal, its Id is not [Undefined_Tok] and
    is of Kind [BoolUnary] or [BoolBinary] or is [KW_Bang] or
    [Lit_DRightBracket]; in every other case it returns [Word_Compound]. *)
Theorem C4_BoolId_compound (parts : list WordPart) :
  (forall token, parts = [LiteralPart token] -> is_Some (LookupKind (token_id token))) ->
  (forall i, is_bool_token parts i -> BoolId (CompoundWord parts) = Ok i) /\
  ((~ exists i, is_bool_token parts i) -> BoolId (CompoundWord parts) = Ok Id.Word_Compound).
Proof.
  intros Hreg. split.
  - intros i (token & -> & Hi & Hdef & Hkind). simpl. rewrite Hi.
    destruct (N.eqb_spec i Id.Undefined_Tok) as [|_]; [done|].
    destruct (N.eqb_spec i Id.KW_Bang) as [|Hb]; [done|].
    destruct (N.eqb_spec i Id.Lit_DRightBracket) as [|Hr]; [done|]. simpl.
    destruct Hkind as [Hk|[Hk|[?|?]]]; try done; rewrite Hk; done.
  - intros Hnot. destruct parts as [|p [|p' rest]]; [done| |done].
    destruct p as [ws|token|token|ts|ps|token cl|nm token a b c|pre|an]; try done.
    simpl.
    destruct (N.eqb_spec (token_id token) Id.Undefined_Tok) as [|Hu]; [done|].
    destruct (N.eqb_spec (token_id token) Id.KW_Bang) as [Hb|Hb].
    { exfalso. apply Hnot. exists (token_id token), token. rewrite Hb. repeat split; auto. }
    destruct (N.eqb_spec (token_id token) Id.Lit_DRightBracket) as [Hr|Hr].
    { exfalso. apply Hnot. exists (token_id token), token. rewrite Hr. repeat split; auto. }
    simpl. destruct (Hreg token eq_refl) as [k Hk]. rewrite Hk.
    destruct (N.eqb_spec k Kind.BoolUnary) as [->|Hku].
    { exfalso. apply Hnot. exists (token_id token), token. repeat split; auto. }
    destruct (N.eqb_spec k Kind.BoolBinary) as [->|Hkb]; [|done].
    exfalso. apply Hnot. exists (token_id token), token. repeat split; auto.
Qed.

Lemma C4_BoolId_compound_witness :
  (forall i, is_bool_token [LiteralPart (mkToken Id.BoolUnary_z "-z")] i ->
             BoolId (CompoundWord [LiteralPart (mkToken Id.BoolUnary_z "-z")]) = Ok i) /\
  ((~ exists i, is_bool_token [LiteralPart (mkToken Id.BoolUnary_z "-z")] i) ->
   BoolId (CompoundWord [LiteralPart (mkToken Id.BoolUnary_z "-z")]) = Ok Id.Word_Compound).
Proof.
  apply (C4_BoolId_compound [LiteralPart (mkToken Id.BoolUnary_z "-z")]).
  intros token H. injection H as <-. simpl. eexists. reflexivity.
Defined.

(** C8: a compound word without an array part for which [AsArithVarName]
    returns a non-empty name does not look like an assignment:
    [LooksLikeAssignment] returns [False]. *)
Theorem C8_arith_var_name_is_no_assignment (parts : list WordPart) (name : string) :
  HasArrayPart parts = false ->
  AsArithVarName parts = PyStr name ->
  name <> "" ->
  LooksLikeAssignment parts = Ok None.
Proof.
  intros _ Hname Hne.
  destruct parts as [|p [|p' rest]]; simpl in Hname; [congruence| |congruence].
  destruct p as [ws|token|token|ts|ps|token cl|nm token a b c|pre|an];
    simpl in Hname; try discriminate.
  destruct (N.eqb_spec (token_id token) Id.Lit_ArithVarLike) as [Hid|]; [|discriminate].
  unfold LooksLikeAssignment, VarLikeName. by rewrite Hid.
Qed.

Lemma C8_arith_var_name_is_no_assignment_witness :
  LooksLikeAssignment [LiteralPart (mkToken Id.Lit_ArithVarLike "x")] = Ok None.
Proof.
  apply (C8_arith_var_name_is_no_assignment
           [LiteralPart (mkToken Id.Lit_ArithVarLike "x")] "x");
    [reflexivity | reflexivity | discriminate].
Defined.

Lemma dq_loop_outcome (parts : list WordPart) :
  Forall (fun p => EvalStatic_outcome_ok (contains_subst p) (contains_array p)
                     (part_EvalStatic p)) parts ->
  forall ret,
    EvalStatic_outcome_ok (existsb contains_subst parts) (existsb contains_array parts)
      (dq_loop parts ret).
Proof.
  induction 1 as [|p parts Hp _ IH]; intros ret; simpl; [done|].
  unfold EvalStatic_outcome_ok in Hp.
  destruct (part_EvalStatic p) as [[[ok s] q]|e].
  - destruct ok; simpl; [|done].
    specialize (IH (ret +:+ s)). unfold EvalStatic_outcome_ok in *.
    destruct (dq_loop parts (ret +:+ s)) as [[[ok' s'] q']|e'].
    + intros H. apply orb_true_iff in H as [H|H]; [by apply Hp in H | by apply IH].
    + destruct IH as [-> ->]. split; [done | apply orb_true_r].
  - simpl. destruct Hp as [-> ->]. done.
Qed.

Lemma part_EvalStatic_outcome (p : WordPart) :
  EvalStatic_outcome_ok (contains_subst p) (contains_array p) (part_EvalStatic p).
Proof.
  induction p as [ws|token|token|ts|ps IH|token cl|nm token a b c|pre|an]
    using WordPart_nested_ind; try done.
  rewrite part_EvalStatic_dq. cbn [contains_subst contains_array].
  by apply dq_loop_outcome.
Qed.

Lemma word_loop_outcome (parts : list WordPart) ret quoted :
  EvalStatic_outcome_ok (existsb contains_subst parts) (existsb contains_array parts)
    (word_loop parts ret quoted).
Proof.
  revert ret quoted. induction parts as [|p parts IH]; intros ret quoted; simpl; [done|].
  pose proof (part_EvalStatic_outcome p) as Hp. unfold EvalStatic_outcome_ok in Hp.
  destruct (part_EvalStatic p) as [[[ok s] q]|e].
  - destruct ok; simpl; [|done].
    specialize (IH (ret +:+ s) (if q then true else quoted)).
    unfold EvalStatic_outcome_ok in *.
    destruct (word_loop parts (ret +:+ s) (if q then true else quoted)) as [[[ok' s'] q']|e'].
    + intros H. apply orb_true_iff in H as [H|H]; [by apply Hp in H | by apply IH].
    + destruct IH as [-> ->]. split; [done | apply orb_true_r].
  - simpl. destruct Hp as [-> ->]. done.
Qed.

Lemma dq_loop_static (parts : list WordPart) :
  Forall (fun p => is_static p = true ->
                   part_EvalStatic p = Ok (true, static_text p, is_quoted p)) parts ->
  forallb is_static parts = true ->
  forall ret,
    dq_loop parts ret = Ok (true, ret +:+ join_strings (map static_text parts), true).
Proof.
  induction 1 as [|p parts Hp _ IH]; intros Hall ret; simpl.
  - by rewrite append_empty_r.
  - simpl in Hall. apply andb_true_iff in Hall as [Hs Hall].
    rewrite (Hp Hs), (IH Hall). by rewrite append_assoc.
Qed.

Lemma part_EvalStatic_static (p : WordPart) :
  is_static p = true ->
  part_EvalStatic p = Ok (true, static_text p, is_quoted p).
Proof.
  induction p as [ws|token|token|ts|ps IH|token cl|nm token a b c|pre|an]
    using WordPart_nested_ind; try done.
  intros Hs. rewrite part_EvalStatic_dq. cbn [is_static] in Hs.
  by rewrite (dq_loop_static ps IH Hs).
Qed.

Lemma word_loop_static (parts : list WordPart) ret quoted :
  forallb is_static parts = true ->
  word_loop parts ret quoted =
    Ok (true, ret +:+ join_strings (map static_text parts),
        quoted || existsb is_quoted parts).
Proof.
  revert ret quoted. induction parts as [|p parts IH]; intros ret quoted Hall; simpl.
  - by rewrite append_empty_r, orb_false_r.
  - simpl in Hall. apply andb_true_iff in Hall as [Hs Hall].
    rewrite (part_EvalStatic_static p Hs), (IH _ _ Hall), append_assoc.
    by destruct (is_quoted p), quoted.
Qed.



(** ** Rules for [wp] *)

Lemma wp_ret {A} (a : A) st Q : Q (Done a) st -> wp (ret a) st Q.
Proof. done. Qed.

Lemma wp_bind {A B} (m : M A) (k : A -> M B) st Q :
  wp m st (bind_post k Q) -> wp (bind m k) st Q.
Proof.
  unfold wp, bind, bind_post. destruct (m st) as [[a|e|] st']; simpl; auto.
Qed.

Lemma wp_get {A} (f : BoolParser -> A) st Q : Q (Done (f st)) st -> wp (get f) st Q.
Proof. done. Qed.

Lemma wp_modify f st Q : Q (Done tt) (f st) -> wp (modify f) st Q.
Proof. done. Qed.

Lemma wp_raise {A} e st (Q : outcome A -> BoolParser -> Prop) :
  Q (Raised e) st -> wp (raise e) st Q.
Proof. done. Qed.

Lemma wp_out_of_fuel {A} st (Q : outcome A -> BoolParser -> Prop) :
  Q OutOfFuel st -> wp out_of_fuel st Q.
Proof. done. Qed.

Lemma wp_lift {A} (r : result A) st Q :
  match r with Ok a => Q (Done a) st | Raise e => Q (Raised e) st end ->
  wp (lift r) st Q.
Proof. by destruct r. Qed.

Lemma wp_conseq {A} (m : M A) st (Q Q' : outcome A -> BoolParser -> Prop) :
  wp m st Q -> (forall o st', Q o st' -> Q' o st') -> wp m st Q'.
Proof. unfold wp. auto. Qed.

Lemma wp_run {A} (m : M A) st Q o st' : wp m st Q -> m st = (o, st') -> Q o st'.
Proof. unfold wp. intros H E. by rewrite E in H. Qed.

(** One step through the code at the head of a [wp] goal. *)
Ltac wp_step :=
  lazymatch goal with
  | |- wp (bind (ret _) _) _ _ => apply wp_bind
  | |- wp (bind (get _) _) _ _ => apply wp_bind
  | |- wp (bind (modify _) _) _ _ => apply wp_bind
  | |- wp (bind (raise _) _) _ _ => apply wp_bind
  | |- wp (bind (lift _) _) _ _ => apply wp_bind
  | |- wp (bind (ReadWord _ _) _) _ _ => apply wp_bind
  | |- wp (bind (reader_Error _) _) _ _ => apply wp_bind
  | |- wp (bind (AddErrorContext _ _ _ _) _) _ _ => apply wp_bind
  | |- wp (bind AtEnd _) _ _ => apply wp_bind
  | |- wp (bind (bind _ _) _) _ _ => apply wp_bind
  | |- wp (ret _) _ _ => apply wp_ret
  | |- wp (get _) _ _ => apply wp_get
  | |- wp (modify _) _ _ => apply wp_modify
  | |- wp (raise _) _ _ => apply wp_raise
  | |- wp out_of_fuel _ _ => apply wp_out_of_fuel
  | |- wp (lift _) _ _ => apply wp_lift
  | |- wp (ReadWord _ _) _ _ => unfold ReadWord
  | |- wp (reader_Error _) _ _ => unfold reader_Error
  | |- wp (AddErrorContext _ _ _ _) _ _ => unfold AddErrorContext
  | |- wp AtEnd _ _ => unfold AtEnd
  | |- bind_post _ _ (Done _) _ => unfold bind_post at 1
  | |- bind_post _ _ (Raised _) _ => unfold bind_post at 1
  | |- bind_post _ _ OutOfFuel _ => unfold bind_post at 1
  end.

Ltac wp_steps := repeat wp_step.

(** Reading the fields of an updated parser object. *)
Ltac fields :=
  cbn [w_parser words cur_word op_id b_kind error_stack calls
       set_w_parser set_words set_cur_word set_op_id set_b_kind
       extend_error_stack record_call] in *.

(** Closing a goal that is a conjunction of facts about the fields. *)
Ltac finish :=
  fields; repeat split; intros; simpl; try done; try lia; try congruence; auto.

(** ** The look-ahead buffer *)

Section Buffer.

Variable respond : list LexMode -> option Word.
Variable reader_errors : list LexMode -> list ErrorContext.
Variable regex_parse : string -> bool.
Variable repr_str : string -> string.

Lemma Forall_call_ok_snoc cs c :
  Forall call_ok cs -> call_ok c -> Forall call_ok (cs ++ [c]).
Proof. intros Hcs Hc. apply Forall_app. split; [done | by constructor]. Qed.

Lemma call_BoolId_no_assertion w st (Q : outcome N -> BoolParser -> Prop) :
  (forall i, Q (Done i) st) ->
  (forall e, ~ buffer_assertion e -> Q (Raised e) st) ->
  wp (call_BoolId w) st Q.
Proof.
  intros Hd Hr. destruct w as [w|]; simpl.
  - apply wp_lift. destruct (BoolId w) as [i|e] eqn:E; [apply Hd|].
    apply Hr. intros [->| ->].
    + destruct w as [[|p [|p' ps]]|t]; simpl in E; try discriminate.
      repeat (match type of E with
              | context [if ?c then _ else _] => destruct c
              | context [match ?c with _ => _ end] => destruct c
              end; try discriminate).
    + destruct w as [[|p [|p' ps]]|t]; simpl in E; try discriminate.
      repeat (match type of E with
              | context [if ?c then _ else _] => destruct c
              | context [match ?c with _ => _ end] => destruct c
              end; try discriminate).
  - apply wp_raise, Hr. intros [H|H]; discriminate.
Qed.

Lemma call_LookupKind_no_assertion i st (Q : outcome N -> BoolParser -> Prop) :
  (forall k, Q (Done k) st) ->
  (forall e, ~ buffer_assertion e -> Q (Raised e) st) ->
  wp (call_LookupKind i) st Q.
Proof.
  intros Hd Hr. unfold call_LookupKind. destruct (LookupKind i).
  - apply wp_ret, Hd.
  - apply wp_raise, Hr. intros [H|H]; discriminate.
Qed.

Lemma NextOne_buffer lex_mode st :
  Forall call_ok (calls st) ->
  (length (words st) <= 2)%nat ->
  (lex_mode = BASH_REGEX -> (length (words st) <= 1)%nat) ->
  wp (_NextOne respond reader_errors lex_mode) st (fun o st' =>
    Forall call_ok (calls st') /\ no_buffer_assertion o /\
    (length (words st') <= 2)%nat /\
    (o = Done true -> length (words st') = 1%nat) /\
    (o = Done false ->
     length (words st') = length (words st) /\ (length (words st) <= 1)%nat)).
Proof.
  intros Hcalls Hlen Hmode. unfold _NextOne. wp_steps. apply wp_bind.
  assert (Hrec : Forall call_ok (calls st ++ [CallNextOne lex_mode (length (words st))])).
  { apply Forall_call_ok_snoc; [done|]. simpl. split; [done|]. split; [|done].
    intros Hn. destruct lex_mode; [done|]. specialize (Hmode eq_refl). lia. }
  assert (Htail : forall st1 : BoolParser,
             Forall call_ok (calls st1) -> length (words st1) = 1%nat ->
             wp (cw <- get cur_word ;;
                 i <- call_BoolId cw ;;
                 modify (set_op_id i) ;;
                 k <- call_LookupKind i ;;
                 modify (set_b_kind k) ;;
                 ret true) st1
               (fun o st' =>
                  Forall call_ok (calls st') /\ no_buffer_assertion o /\
                  (length (words st') <= 2)%nat /\
                  (o = Done true -> length (words st') = 1%nat) /\
                  (o = Done false ->
     length (words st') = length (words st) /\ (length (words st) <= 1)%nat))).
  { intros st1 Hc1 Hl1. wp_steps. apply wp_bind. apply call_BoolId_no_assertion.
    - intros i. wp_steps. apply wp_bind. apply call_LookupKind_no_assertion.
      + intros k. wp_steps. fields. finish.
      + intros e He. fields. finish.
    - intros e He. finish. }
  destruct (words st) as [|w0 [|w1 [|w2 rest]]] eqn:Hws; simpl in Hlen.
  - wp_steps. fields.
    destruct (respond (w_parser st ++ [lex_mode])) as [w|]; wp_steps.
    + simpl. apply Htail; fields; [done | by rewrite ?Hws].
    + simpl. wp_steps. fields. rewrite Hws. finish.
  - wp_steps. fields.
    destruct (respond (w_parser st ++ [lex_mode])) as [w|]; wp_steps.
    + simpl. apply Htail; fields; [done | by rewrite ?Hws].
    + simpl. wp_steps. fields. rewrite Hws. finish.
  - wp_steps. destruct lex_mode.
    + simpl. wp_steps. simpl. apply Htail; fields; done.
    + specialize (Hmode eq_refl). simpl in Hmode. lia.
  - simpl in Hlen. lia.
Qed.

Lemma Next_buffer fuel lex_mode st :
  Forall call_ok (calls st) ->
  (length (words st) <= 2)%nat ->
  (lex_mode = BASH_REGEX -> (length (words st) <= 1)%nat) ->
  wp (_Next respond reader_errors fuel lex_mode) st (fun o st' =>
    Forall call_ok (calls st') /\ no_buffer_assertion o /\
    (length (words st') <= 2)%nat /\
    (o = Done true -> length (words st') = 1%nat) /\
    (o = Done false -> (1 <= length (words st))%nat -> length (words st') = 1%nat)).
Proof.
  revert st. induction fuel as [|fuel IH]; intros st Hcalls Hlen Hmode; simpl.
  - wp_steps. finish.
  - apply wp_bind. eapply wp_conseq; [by apply NextOne_buffer|].
    intros o st' (Hc & Ha & Hl & Ht & Hf). destruct o as [[|]|e|]; wp_steps.
    + simpl. wp_steps. specialize (Ht eq_refl).
      destruct (negb (op_id st' =? Id.Op_Newline)).
      * wp_steps. finish.
      * eapply wp_conseq; [apply IH; [done | lia | lia]|].
        intros o st'' (Hc' & Ha' & Hl' & Ht' & Hf'). finish. apply Hf'; [done | lia].
    + simpl. wp_steps. destruct (Hf eq_refl) as [Hf1 Hf2]. finish.
    + finish.
    + finish.
Qed.

(** [_Next] as the parsing methods call it, with one or two words buffered. *)
Lemma Next_buffer_post fuel lex_mode st :
  Forall call_ok (calls st) ->
  (1 <= length (words st) <= 2)%nat ->
  (lex_mode = BASH_REGEX -> length (words st) = 1%nat) ->
  wp (_Next respond reader_errors fuel lex_mode) st (buffer_post 1).
Proof.
  intros Hcalls Hlen Hmode.
  eapply wp_conseq; [apply Next_buffer; [done | lia | intros H; rewrite (Hmode H); lia]|].
  intros o st' (Hc & Ha & Hl & Ht & Hf). unfold buffer_post.
  repeat split; try done. intros [|] ->; [by apply Ht | apply Hf; [done | lia]].
Qed.

Lemma LookAhead_buffer st :
  Forall call_ok (calls st) ->
  length (words st) = 1%nat ->
  wp (_LookAhead respond) st (buffer_post 2).
Proof.
  intros Hcalls Hlen. unfold _LookAhead. wp_steps. rewrite Hlen. simpl. wp_steps.
  unfold buffer_post. fields. rewrite length_app, Hlen. simpl.
  repeat split; try done; try lia. by apply Forall_call_ok_snoc.
Qed.

(** Sequencing code that keeps the buffer in order. *)
Lemma wp_bind_buffer {A B} n n' (m : M A) (k : A -> M B) st :
  wp m st (buffer_post n) ->
  (forall a st', Forall call_ok (calls st') -> length (words st') = n ->
                 wp (k a) st' (buffer_post n')) ->
  wp (bind m k) st (buffer_post n').
Proof.
  intros Hm Hk. apply wp_bind. eapply wp_conseq; [exact Hm|].
  intros o st' (Hc & Ha & Hl & Hd). destruct o as [a|e|]; simpl.
  - apply Hk; [done | by apply (Hd a)].
  - unfold buffer_post. repeat split; try done.
  - unfold buffer_post. repeat split; try done.
Qed.

Lemma buffer_post_ret {A} (a : A) st :
  Forall call_ok (calls st) -> length (words st) = 1%nat ->
  wp (ret a) st (buffer_post 1).
Proof. intros. apply wp_ret. unfold buffer_post. repeat split; try done; lia. Qed.

Lemma call_EvalStatic_no_assertion w st (Q : outcome (bool * string * bool) -> BoolParser -> Prop) :
  (forall r, Q (Done r) st) ->
  (forall e, ~ buffer_assertion e -> Q (Raised e) st) ->
  wp (call_EvalStatic w) st Q.
Proof.
  intros Hd Hr. destruct w as [[parts|token]|]; simpl.
  - apply wp_lift.
    pose proof (word_loop_outcome parts "" false) as H.
    destruct (word_loop parts "" false) as [r|e]; [apply Hd|].
    destruct H as [-> _]. apply Hr. intros [H|H]; discriminate.
  - apply wp_raise, Hr. intros [H|H]; discriminate.
  - apply wp_raise, Hr. intros [H|H]; discriminate.
Qed.

(** Calling [_Next] from a parsing method and going on if it succeeded. *)
Ltac call_Next :=
  eapply (wp_bind_buffer 1);
  [ apply Next_buffer_post; [assumption | lia | intros; first [lia | discriminate]]
  | let ok := fresh "ok" in
    let st' := fresh "st" in
    let Hc := fresh "Hc" in
    let Hl := fresh "Hl" in
    intros ok st' Hc Hl; destruct ok; simpl;
    [ | by apply buffer_post_ret ] ].

Lemma ParseFactor_buffer fuel (PE : M node) :
  (forall st, Forall call_ok (calls st) -> length (words st) = 1%nat ->
              wp PE st (buffer_post 1)) ->
  forall st, Forall call_ok (calls st) -> length (words st) = 1%nat ->
             wp (ParseFactor_body respond reader_errors regex_parse repr_str fuel PE) st
               (buffer_post 1).
Proof.
  intros HPE st Hc Hl. unfold ParseFactor_body. wp_steps.
  destruct (b_kind st =? Kind.BoolUnary).
  { wp_steps. call_Next. wp_steps. call_Next. by apply buffer_post_ret. }
  destruct (b_kind st =? Kind.Word).
  { eapply (wp_bind_buffer 2); [by apply LookAhead_buffer|].
    intros t2 st1 Hc1 Hl1. apply wp_bind. apply call_BoolId_no_assertion;
      [|intros e He; unfold bind_post, buffer_post; repeat split; try done; lia].
    intros t2_op_id. wp_steps. apply wp_bind. apply call_LookupKind_no_assertion;
      [|intros e He; unfold bind_post, buffer_post; repeat split; try done; lia].
    intros t2_b_kind. wp_steps.
    destruct ((t2_b_kind =? Kind.BoolBinary) || (t2_b_kind =? Kind.Redir)).
    - wp_steps. call_Next. wp_steps.
      eapply (wp_bind_buffer 1).
      { destruct (t2_op_id =? Id.BoolBinary_EqualTilde);
          apply Next_buffer_post; try assumption; try lia; done. }
      intros ok st3 Hc3 Hl3. destruct ok; simpl; [|by apply buffer_post_ret].
      wp_steps. eapply (wp_bind_buffer 1).
      { destruct (t2_op_id =? Id.BoolBinary_EqualTilde); [|by apply buffer_post_ret].
        apply wp_bind. apply call_EvalStatic_no_assertion;
          [|intros e He; unfold bind_post, buffer_post; repeat split; try done; lia].
        intros [[ok regex_str] q]. wp_steps.
        destruct (ok && negb (regex_parse regex_str)); wp_steps;
          unfold buffer_post; fields; repeat split; try done; lia. }
      intros invalid st4 Hc4 Hl4. destruct invalid; [by apply buffer_post_ret|].
      call_Next. by apply buffer_post_ret.
    - wp_steps. call_Next. by apply buffer_post_ret. }
  wp_steps. destruct (op_id st =? Id.Op_LParen).
  - call_Next. eapply (wp_bind_buffer 1); [by apply HPE|].
    intros nd st2 Hc2 Hl2. wp_steps.
    destruct (negb (op_id st2 =? Id.Op_RParen)).
    + wp_steps. unfold buffer_post. repeat split; try done; try lia.
      intros [H|H]; discriminate.
    + call_Next. by apply buffer_post_ret.
  - wp_steps. unfold buffer_post. repeat split; try done; try lia.
    intros [H|H]; discriminate.
Qed.

Lemma parse_buffer fuel nt st :
  Forall call_ok (calls st) -> length (words st) = 1%nat ->
  wp (parse respond reader_errors regex_parse repr_str fuel nt) st (buffer_post 1).
Proof.
  revert nt st. induction fuel as [|fuel IH]; intros nt st Hc Hl; simpl.
  { wp_steps. unfold buffer_post. repeat split; try done; lia. }
  destruct nt.
  - eapply (wp_bind_buffer 1); [by apply IH|].
    intros left st1 Hc1 Hl1. wp_steps. destruct (op_id st1 =? Id.Op_DPipe).
    + call_Next. eapply (wp_bind_buffer 1); [by apply IH|].
      intros right st3 Hc3 Hl3. by apply buffer_post_ret.
    + by apply buffer_post_ret.
  - eapply (wp_bind_buffer 1); [by apply IH|].
    intros left st1 Hc1 Hl1. wp_steps. destruct (op_id st1 =? Id.Op_DAmp).
    + call_Next. eapply (wp_bind_buffer 1); [by apply IH|].
      intros right st3 Hc3 Hl3. by apply buffer_post_ret.
    + by apply buffer_post_ret.
  - wp_steps. destruct (op_id st =? Id.KW_Bang).
    + call_Next. eapply (wp_bind_buffer 1); [by apply IH|].
      intros child st3 Hc3 Hl3. by apply buffer_post_ret.
    + by apply IH.
  - apply ParseFactor_buffer; [|done|done]. intros st0 Hc0 Hl0. by apply IH.
Qed.

Lemma Parse_buffer fuel st :
  Forall call_ok (calls st) -> (length (words st) <= 2)%nat ->
  wp (Parse respond reader_errors regex_parse repr_str fuel) st (fun o st' =>
    Forall call_ok (calls st') /\ (length (words st') <= 2)%nat /\
    no_buffer_assertion o).
Proof.
  intros Hc Hl. unfold Parse. apply wp_bind.
  eapply wp_conseq; [apply Next_buffer; [done | done | discriminate]|].
  intros o st1 (Hc1 & Ha1 & Hl1 & Ht & Hf). destruct o as [[|]|e|]; simpl; [| |done|done].
  - apply wp_bind. eapply wp_conseq; [apply parse_buffer; [done | by apply Ht]|].
    intros o st2 (Hc2 & Ha2 & Hl2 & Hd). destruct o as [nd|e|]; simpl; [|done|done].
    wp_steps. destruct (negb (op_id st2 =? Id.Lit_DRightBracket)); wp_steps; finish.
  - wp_steps. finish.
Qed.

End Buffer.

(** C10: in a run of [Parse] from a parser whose buffer holds at most two
    words, every call of [_NextOne] and [_LookAhead] meets the buffer as
    meant: at most two words at any call and at the end, exactly one at
    every call of [_LookAhead], and a two-word buffer is only ever drained
    under [DBRACKET], so that the [BASH_REGEX] read finds at most one word
    buffered; neither buffer assertion fails. *)
Theorem C10_buffer_discipline (respond : list LexMode -> option Word)
    (reader_errors : list LexMode -> list ErrorContext)
    (regex_parse : string -> bool) (repr_str : string -> string)
    (fuel : nat) (st st' : BoolParser) (o : outcome node) :
  Forall call_ok (calls st) ->
  (length (words st) <= 2)%nat ->
  Parse respond reader_errors regex_parse repr_str fuel st = (o, st') ->
  Forall call_ok (calls st') /\ (length (words st') <= 2)%nat /\
  no_buffer_assertion o.
Proof.
  intros Hc Hl Hrun.
  exact (wp_run _ _ _ _ _
           (Parse_buffer respond reader_errors regex_parse repr_str fuel st Hc Hl) Hrun).
Qed.

Lemma regex_example_runs :
  Parse (list_reader regex_example) no_errors (fun _ => true) (fun s => s)
    6 BoolParser_init = (fst regex_example_result, snd regex_example_result).
Proof. vm_compute. reflexivity. Qed.

Lemma C10_buffer_discipline_witness :
  Forall call_ok (calls (snd regex_example_result)) /\
  (length (words (snd regex_example_result)) <= 2)%nat /\
  no_buffer_assertion (fst regex_example_result).
Proof.
  apply (C10_buffer_discipline (list_reader regex_example) no_errors
           (fun _ => true) (fun s => s) 6 BoolParser_init).
  - constructor.
  - simpl. lia.
  - exact regex_example_runs.
Defined.

(** ** The error stack *)

Lemma grows_refl l : grows l l.
Proof. exists []. by rewrite app_nil_r. Qed.

Lemma grows_trans l1 l2 l3 : grows l1 l2 -> grows l2 l3 -> grows l1 l3.
Proof. intros [n1 ->] [n2 ->]. exists (n1 ++ n2)%list. by rewrite app_assoc. Qed.

Lemma grows_app (l new : list ErrorContext) : grows l (l ++ new)%list.
Proof. by exists new. Qed.

Lemma grows_strictly_grows l l' : grows_strictly l l' -> grows l l'.
Proof. intros (new & _ & ->). by exists new. Qed.

Lemma grows_strictly_app (l new : list ErrorContext) :
  new <> [] -> grows_strictly l (l ++ new)%list.
Proof. intros H. by exists new. Qed.

Lemma grows_strictly_l l1 l2 l3 :
  grows_strictly l1 l2 -> grows l2 l3 -> grows_strictly l1 l3.
Proof.
  intros (n1 & Hn1 & ->) [n2 ->]. exists (n1 ++ n2)%list. split; [|by rewrite app_assoc].
  intros H. apply app_eq_nil in H as [H _]. done.
Qed.

Lemma grows_strictly_r l1 l2 l3 :
  grows l1 l2 -> grows_strictly l2 l3 -> grows_strictly l1 l3.
Proof.
  intros [n1 ->] (n2 & Hn2 & ->). exists (n1 ++ n2)%list. split; [|by rewrite app_assoc].
  intros H. apply app_eq_nil in H as [_ H]. done.
Qed.

(** Solving a goal [grows l l'] or [grows_strictly l l'] from hypotheses of
    the same two forms: every hypothesis is opened into an equation between
    stacks, the newer stack is rewritten away, and the goal is read off. *)
Ltac grow_open :=
  repeat match goal with
         | H : grows_strictly _ (error_stack ?s) |- _ =>
             let n := fresh "new" in
             let Hn := fresh "Hnew" in
             destruct H as (n & Hn & H); try rewrite H in *
         | H : grows _ (error_stack ?s) |- _ =>
             let n := fresh "new" in
             destruct H as [n H]; try rewrite H in *
         end.

Ltac grow_solve :=
  grow_open; rewrite <- ?app_assoc;
  lazymatch goal with
  | |- grows _ _ => first [apply grows_refl | apply grows_app]
  | |- grows_strictly _ _ =>
      refine (ex_intro _ _ (conj _ eq_refl));
      let Hnil := fresh "Hnil" in
      intros Hnil; repeat (apply app_eq_nil in Hnil as [? Hnil]);
      subst; congruence
  end.

Lemma wp_bind_done {A B} (m : M A) (k : A -> M B) st
    (Qm : A -> BoolParser -> Prop) (Q : B -> BoolParser -> Prop) :
  wp m st (on_done Qm) ->
  (forall a st1, Qm a st1 -> wp (k a) st1 (on_done Q)) ->
  wp (bind m k) st (on_done Q).
Proof.
  intros Hm Hk. apply wp_bind. eapply wp_conseq; [exact Hm|].
  intros [a|e|] st1 H; simpl; [by apply Hk | done | done].
Qed.

Section Errors.

Variable respond : list LexMode -> option Word.
Variable reader_errors : list LexMode -> list ErrorContext.
Variable regex_parse : string -> bool.
Variable repr_str : string -> string.
Hypothesis Hreader : reader_reports_errors respond reader_errors.

Lemma call_BoolId_done w st (Q : N -> BoolParser -> Prop) :
  (forall i, is_Some w -> Q i st) -> wp (call_BoolId w) st (on_done Q).
Proof.
  intros H. destruct w as [w|]; simpl.
  - apply wp_lift. destruct (BoolId w); [|done]. apply H. by eexists.
  - by apply wp_raise.
Qed.

Lemma call_LookupKind_done i st (Q : N -> BoolParser -> Prop) :
  (forall k, Q k st) -> wp (call_LookupKind i) st (on_done Q).
Proof.
  intros H. unfold call_LookupKind. destruct (LookupKind i).
  - apply wp_ret, H.
  - by apply wp_raise.
Qed.

Lemma NextOne_errors lex_mode st :
  wp (_NextOne respond reader_errors lex_mode) st (on_done (fun (ok : bool) st' =>
    grows (error_stack st) (error_stack st') /\
    if ok then is_Some (cur_word st')
    else grows_strictly (error_stack st) (error_stack st') /\
         cur_word st' = cur_word st)).
Proof.
  unfold _NextOne. wp_steps.
  assert (Htail : forall st1 : BoolParser,
             error_stack st1 = error_stack st ->
             wp (cw <- get cur_word ;;
                 i <- call_BoolId cw ;;
                 modify (set_op_id i) ;;
                 k <- call_LookupKind i ;;
                 modify (set_b_kind k) ;;
                 ret true) st1
               (on_done (fun (ok : bool) st' =>
                  grows (error_stack st) (error_stack st') /\
                  if ok then is_Some (cur_word st')
                  else grows_strictly (error_stack st) (error_stack st') /\
                       cur_word st' = cur_word st))).
  { intros st1 He. wp_steps. apply wp_bind. apply call_BoolId_done.
    intros i Hcw. simpl. wp_steps. apply wp_bind. apply call_LookupKind_done.
    intros k. simpl. wp_steps. simpl. fields. rewrite He. split; [apply grows_refl | done]. }
  apply wp_bind.
  destruct (words st) as [|w0 [|w1 [|w2 rest]]] eqn:Hws.
  - wp_steps. fields.
    destruct (respond (w_parser st ++ [lex_mode])) as [w|] eqn:Hr; wp_steps.
    + simpl. by apply Htail.
    + simpl. wp_steps. simpl. fields. split; [apply grows_app|].
      split; [|done]. apply grows_strictly_app. by apply Hreader.
  - wp_steps. fields.
    destruct (respond (w_parser st ++ [lex_mode])) as [w|] eqn:Hr; wp_steps.
    + simpl. by apply Htail.
    + simpl. wp_steps. simpl. fields. split; [apply grows_app|].
      split; [|done]. apply grows_strictly_app. by apply Hreader.
  - destruct (bool_decide (lex_mode = DBRACKET)); wp_steps; [|done].
    simpl. by apply Htail.
  - wp_steps. simpl. by apply Htail.
Qed.

Lemma Next_errors fuel lex_mode st :
  wp (_Next respond reader_errors fuel lex_mode) st (on_done (fun (ok : bool) st' =>
    grows (error_stack st) (error_stack st') /\
    if ok then is_Some (cur_word st')
    else grows_strictly (error_stack st) (error_stack st') /\
         (is_Some (cur_word st) -> is_Some (cur_word st')))).
Proof.
  revert st. induction fuel as [|fuel IH]; intros st; simpl.
  - by wp_steps.
  - eapply wp_bind_done; [apply NextOne_errors|].
    intros [|] st1 [Hg H1]; simpl.
    + wp_steps. destruct (negb (op_id st1 =? Id.Op_Newline)).
      * wp_steps. simpl. done.
      * eapply wp_conseq; [apply IH|]. intros [[|]|e|] st2; simpl; try done.
        -- intros [Hg2 H2]. split; [grow_solve | done].
        -- intros (Hg2 & Hs2 & H2). split; [grow_solve|].
           split; [grow_solve | auto].
    + wp_steps. simpl. destruct H1 as [Hs Hcw]. rewrite Hcw. done.
Qed.

Lemma LookAhead_errors st :
  wp (_LookAhead respond) st (on_done (fun _ st' =>
    error_stack st' = error_stack st /\ cur_word st' = cur_word st)).
Proof.
  unfold _LookAhead. wp_steps.
  destruct (negb (length (words st) =? 1)%nat); wp_steps; [done|]. simpl.
  wp_steps. simpl. done.
Qed.

(** Closing the goal at a [return]: the postcondition of a parsing method. *)
Ltac errors_close :=
  simpl; unfold parse_errors_post;
  repeat match goal with
         | H : _ /\ _ |- _ => destruct H
         end;
  split; [grow_solve | split; [auto | intros; first [discriminate | grow_solve]]].

(** Calling [_Next] from a parsing method: the failure branch is closed, the
    proof goes on where the call has succeeded. *)
Ltac call_Next_errors :=
  eapply wp_bind_done; [apply Next_errors|];
  let st' := fresh "st" in
  let Hg := fresh "Hg" in
  let Hn := fresh "Hn" in
  intros [|] st' [Hg Hn]; simpl; [ | wp_steps; errors_close ].

Lemma ParseFactor_errors fuel (PE : M node) :
  (forall st, is_Some (cur_word st) ->
              wp PE st (on_done (parse_errors_post (error_stack st)))) ->
  forall st, is_Some (cur_word st) ->
             wp (ParseFactor_body respond reader_errors regex_parse repr_str fuel PE) st
               (on_done (parse_errors_post (error_stack st))).
Proof.
  intros HPE st Hcw. unfold ParseFactor_body. wp_steps.
  destruct (b_kind st =? Kind.BoolUnary).
  { wp_steps. call_Next_errors. wp_steps. call_Next_errors.
    wp_steps. errors_close. }
  destruct (b_kind st =? Kind.Word).
  { eapply wp_bind_done; [apply LookAhead_errors|].
    intros t2 st1 [He1 Hc1]. simpl. apply wp_bind. apply call_BoolId_done.
    intros t2_op_id _. simpl. apply wp_bind. apply call_LookupKind_done.
    intros t2_b_kind. simpl.
    assert (Hcw1 : is_Some (cur_word st1)) by (by rewrite Hc1).
    rewrite <- He1. clear He1.
    destruct ((t2_b_kind =? Kind.BoolBinary) || (t2_b_kind =? Kind.Redir)).
    - wp_steps. call_Next_errors. wp_steps.
      eapply wp_bind_done.
      { destruct (t2_op_id =? Id.BoolBinary_EqualTilde); apply Next_errors. }
      intros [|] st3 [Hg3 Hn3]; simpl; [ | wp_steps; errors_close ].
      wp_steps. apply wp_bind.
      apply (wp_conseq _ _ (on_done (fun (invalid : bool) st4 =>
               cur_word st4 = cur_word st3 /\
               if invalid
               then grows_strictly (error_stack st3) (error_stack st4)
               else grows (error_stack st3) (error_stack st4)))).
      { destruct (t2_op_id =? Id.BoolBinary_EqualTilde);
          [|wp_steps; simpl; split; [done | apply grows_refl]].
        apply wp_bind. destruct (cur_word st3) as [right|] eqn:Hr3; simpl; [|done].
        apply wp_lift. destruct (EvalStatic right) as [[[ok regex_str] q]|e]; [|done].
        simpl. destruct (ok && negb (regex_parse regex_str)); wp_steps; simpl; fields.
        - split; [done|]. by apply grows_strictly_app.
        - split; [done | apply grows_refl]. }
      intros [[|]|e|] st4; simpl; try done.
      + intros [Hc4 Hg4]. wp_steps. rewrite <- Hc4 in Hn3. errors_close.
      + intros [Hc4 Hg4]. rewrite <- Hc4 in Hn3.
        call_Next_errors. wp_steps. errors_close.
    - wp_steps. call_Next_errors. wp_steps. rewrite Hc1.
      destruct Hcw as [w ->]. errors_close. }
  wp_steps. destruct (op_id st =? Id.Op_LParen); [|by wp_steps].
  call_Next_errors. eapply wp_bind_done; [by apply HPE|].
  intros nd st2 (Hg2 & Hc2 & Hn2). wp_steps.
  destruct (negb (op_id st2 =? Id.Op_RParen)); [by wp_steps|].
  call_Next_errors.
  wp_steps. simpl. unfold parse_errors_post.
  split; [grow_solve | split; [done|]].
  intros Hnd. specialize (Hn2 Hnd). grow_solve.
Qed.

Lemma parse_errors fuel nt st :
  is_Some (cur_word st) ->
  wp (parse respond reader_errors regex_parse repr_str fuel nt) st
    (on_done (parse_errors_post (error_stack st))).
Proof.
  revert nt st. induction fuel as [|fuel IH]; intros nt st Hcw; simpl; [by wp_steps|].
  destruct nt.
  - eapply wp_bind_done; [by apply IH|].
    intros left st1 (Hg1 & Hc1 & Hn1). wp_steps.
    destruct (op_id st1 =? Id.Op_DPipe).
    + call_Next_errors. eapply wp_bind_done; [by apply IH|].
      intros right st3 (Hg3 & Hc3 & Hn3). wp_steps. errors_close.
    + wp_steps. simpl. unfold parse_errors_post. done.
  - eapply wp_bind_done; [by apply IH|].
    intros left st1 (Hg1 & Hc1 & Hn1). wp_steps.
    destruct (op_id st1 =? Id.Op_DAmp).
    + call_Next_errors. eapply wp_bind_done; [by apply IH|].
      intros right st3 (Hg3 & Hc3 & Hn3). wp_steps. errors_close.
    + wp_steps. simpl. unfold parse_errors_post. done.
  - wp_steps. destruct (op_id st =? Id.KW_Bang).
    + call_Next_errors. eapply wp_bind_done; [by apply IH|].
      intros child st3 (Hg3 & Hc3 & Hn3). wp_steps. errors_close.
    + by apply IH.
  - apply ParseFactor_errors; [|done]. intros st0 Hc0. by apply IH.
Qed.

Lemma Parse_errors fuel st :
  wp (Parse respond reader_errors regex_parse repr_str fuel) st (on_done (fun nd st' =>
    nd = NNone -> grows_strictly (error_stack st) (error_stack st'))).
Proof.
  unfold Parse. eapply wp_bind_done; [apply Next_errors|].
  intros [|] st1 [Hg1 Hn1]; simpl.
  - eapply wp_bind_done; [by apply parse_errors|].
    intros nd st2 (Hg2 & Hc2 & Hn2). wp_steps.
    destruct (negb (op_id st2 =? Id.Lit_DRightBracket)); wp_steps; simpl; fields.
    + intros _. eapply grows_strictly_r; [|by apply grows_strictly_app].
      grow_solve.
    + intros Hnd. specialize (Hn2 Hnd). grow_solve.
  - wp_steps. simpl. intros _. by destruct Hn1.
Qed.

End Errors.

(** ** Exact runs of the buffer operations *)

Lemma run_bind {A B} (m : M A) (k : A -> M B) st a st1 r :
  m st = (Done a, st1) -> k a st1 = r -> bind m k st = r.
Proof. unfold bind. by intros -> <-. Qed.

Lemma run_bind_raised {A B} (m : M A) (k : A -> M B) st e st1 :
  m st = (Raised e, st1) -> bind m k st = (Raised e, st1).
Proof. unfold bind. by intros ->. Qed.

Lemma served_app (respond : list LexMode -> option Word) h s1 s2 :
  served respond h (s1 ++ s2) <->
  served respond h s1 /\ served respond (h ++ map fst s1) s2.
Proof.
  revert h. induction s1 as [|[m w] s1 IH]; intros h; simpl.
  - rewrite app_nil_r. tauto.
  - rewrite IH, <- app_assoc. simpl. tauto.
Qed.

(** Stepping through straight-line code. *)
Ltac run_basic :=
  lazymatch goal with
  | |- bind (get _) _ _ = _ => eapply run_bind; [reflexivity|]; cbv beta
  | |- bind (modify _) _ _ = _ => eapply run_bind; [reflexivity|]; cbv beta
  | |- bind (ret _) _ _ = _ => eapply run_bind; [reflexivity|]; cbv beta
  | |- ret _ _ = _ => reflexivity
  end.

Section Runs.

Variable respond : list LexMode -> option Word.
Variable reader_errors : list LexMode -> list ErrorContext.
Variable regex_parse : string -> bool.
Variable repr_str : string -> string.


Lemma NextOne_read lex_mode w i k st :
  (length (words st) <= 1)%nat ->
  respond (w_parser st ++ [lex_mode]) = Some w ->
  BoolId w = Ok i -> LookupKind i = Some k ->
  _NextOne respond reader_errors lex_mode st = (Done true, after_read lex_mode w i k st).
Proof.
  intros Hlen Hr Hi Hk. unfold _NextOne, after_read.
  destruct st as [h ws cw oi bk es cs]. simpl in *.
  destruct ws as [|w0 [|w1 ws]]; simpl in Hlen; [| |lia].
  - unfold bind, get, modify, ReadWord, ret. simpl. rewrite Hr. simpl.
    unfold call_LookupKind, lift. rewrite Hi. simpl. rewrite Hk. reflexivity.
  - unfold bind, get, modify, ReadWord, ret. simpl. rewrite Hr. simpl.
    unfold call_LookupKind, lift. rewrite Hi. simpl. rewrite Hk. reflexivity.
Qed.

Lemma NextOne_drain x w i k st :
  words st = [x; Some w] ->
  BoolId w = Ok i -> LookupKind i = Some k ->
  _NextOne respond reader_errors DBRACKET st = (Done true, after_drain w i k st).
Proof.
  intros Hws Hi Hk. unfold _NextOne, after_drain.
  destruct st as [h ws cw oi bk es cs]. simpl in *. subst ws.
  unfold bind, get, modify, ret. simpl.
  unfold call_LookupKind, lift. rewrite Hi. simpl. rewrite Hk. reflexivity.
Qed.

Lemma Next_of_NextOne fuel lex_mode st st1 :
  _NextOne respond reader_errors lex_mode st = (Done true, st1) ->
  op_id st1 <> Id.Op_Newline ->
  _Next respond reader_errors (S fuel) lex_mode st = (Done true, st1).
Proof.
  intros H1 Hn. simpl. unfold bind. rewrite H1. simpl. unfold get.
  destruct (N.eqb_spec (op_id st1) Id.Op_Newline); [done|]. reflexivity.
Qed.

Lemma Next_read fuel lex_mode w i k st :
  (1 <= fuel)%nat ->
  (length (words st) <= 1)%nat ->
  respond (w_parser st ++ [lex_mode]) = Some w ->
  word_class w i k ->
  _Next respond reader_errors fuel lex_mode st = (Done true, after_read lex_mode w i k st).
Proof.
  intros Hf Hlen Hr (Hi & Hk & Hn). destruct fuel as [|fuel]; [lia|].
  apply Next_of_NextOne; [by apply NextOne_read | done].
Qed.

Lemma Next_drain fuel x w i k st :
  (1 <= fuel)%nat ->
  words st = [x; Some w] ->
  word_class w i k ->
  _Next respond reader_errors fuel DBRACKET st = (Done true, after_drain w i k st).
Proof.
  intros Hf Hws (Hi & Hk & Hn). destruct fuel as [|fuel]; [lia|].
  apply Next_of_NextOne; [by apply (NextOne_drain x) | done].
Qed.

Lemma LookAhead_read x w st :
  words st = [x] ->
  respond (w_parser st ++ [DBRACKET]) = Some w ->
  _LookAhead respond st = (Done (Some w), after_lookahead x w st).
Proof.
  intros Hws Hr. unfold _LookAhead, after_lookahead.
  destruct st as [h ws cw oi bk es cs]. simpl in *. subst ws.
  unfold bind, get, modify, ReadWord, ret. simpl. rewrite Hr. reflexivity.
Qed.

Lemma run_call_BoolId {B} w i (k : N -> M B) st r :
  BoolId w = Ok i -> k i st = r -> bind (call_BoolId (Some w)) k st = r.
Proof. intros Hi Hk. eapply run_bind; [|exact Hk]. simpl. by rewrite Hi. Qed.

Lemma run_call_LookupKind {B} i kind (k : N -> M B) st r :
  LookupKind i = Some kind -> k kind st = r -> bind (call_LookupKind i) k st = r.
Proof.
  intros Hi Hk. eapply run_bind; [|exact Hk]. unfold call_LookupKind. by rewrite Hi.
Qed.

Lemma Kind_Word_of_Word_Compound : LookupKind Id.Word_Compound = Some Kind.Word.
Proof. vm_compute. reflexivity. Qed.

Lemma positioned_after_read lex_mode w i k st :
  word_class w i k -> positioned (after_read lex_mode w i k st) w.
Proof. done. Qed.

Lemma positioned_after_drain w i k st :
  word_class w i k -> positioned (after_drain w i k st) w.
Proof. done. Qed.

(** A lone word as a factor: the look-ahead shows a word that is no binary
    operator, and the parser moves on to it. *)
Lemma factor_word fuel w k ki kk st :
  (1 <= fuel)%nat ->
  positioned st w -> word_class w Id.Word_Compound Kind.Word ->
  served respond (w_parser st) [(DBRACKET, k)] ->
  word_class k ki kk -> kk <> Kind.BoolBinary -> kk <> Kind.Redir ->
  ParseFactor_body respond reader_errors regex_parse repr_str fuel
    (parse respond reader_errors regex_parse repr_str fuel PExpr) st =
  (Done (NWord w), after_drain k ki kk (after_lookahead (Some w) k st)).
Proof.
  intros Hf (Hws & Hcw & Hi & Hk & Hn) (Hi' & Hk' & _) [Hr _] Hkc Hnb Hnr.
  assert (Hop : op_id st = Id.Word_Compound) by congruence.
  assert (Hbk : b_kind st = Kind.Word) by (rewrite Hop in Hk; congruence).
  unfold ParseFactor_body. run_basic. rewrite Hbk.
  change (Kind.Word =? Kind.BoolUnary) with false.
  change (Kind.Word =? Kind.Word) with true. cbv iota.
  eapply run_bind; [by apply (LookAhead_read (Some w))|]. cbv beta.
  destruct Hkc as (Hki & Hkk & Hkn).
  eapply run_call_BoolId; [exact Hki|]. eapply run_call_LookupKind; [exact Hkk|].
  apply N.eqb_neq in Hnb, Hnr. rewrite Hnb, Hnr. simpl.
  run_basic. eapply run_bind; [by apply (Next_drain fuel (Some w))|]. cbv beta.
  simpl. by rewrite Hcw.
Qed.


Lemma Kind_of_ids :
  LookupKind Id.KW_Bang = Some Kind.KW /\
  LookupKind Id.Op_LParen = Some Kind.Op /\
  LookupKind Id.Op_RParen = Some Kind.Op /\
  LookupKind Id.Op_DAmp = Some Kind.Op /\
  LookupKind Id.Op_DPipe = Some Kind.Op /\
  LookupKind Id.Op_Newline = Some Kind.Op /\
  LookupKind Id.Lit_DRightBracket = LookupKind Id.Lit_Chars /\
  LookupKind Id.BoolBinary_EqualTilde = Some Kind.BoolBinary.
Proof. vm_compute. repeat split. Qed.

(** [UNARY_OP WORD] as a factor. *)
Lemma factor_unary fuel PE op w wi wk k ki kk st :
  (1 <= fuel)%nat ->
  positioned st op -> b_kind st = Kind.BoolUnary ->
  served respond (w_parser st) [(DBRACKET, w); (DBRACKET, k)] ->
  word_class w wi wk -> word_class k ki kk ->
  ParseFactor_body respond reader_errors regex_parse repr_str fuel PE st =
  (Done (UnaryExprNode (op_id st) (NWord w)),
   after_read DBRACKET k ki kk (after_read DBRACKET w wi wk st)).
Proof.
  intros Hf (Hws & Hcw & Hi & Hk & Hn) Hbk (Hrw & Hrk & _) Hwc Hkc.
  unfold ParseFactor_body. run_basic. rewrite Hbk.
  change (Kind.BoolUnary =? Kind.BoolUnary) with true. cbv iota. run_basic.
  eapply run_bind; [apply (Next_read fuel DBRACKET w wi wk); try done; rewrite Hws; simpl; lia|].
  cbv beta. simpl. run_basic.
  eapply run_bind; [by apply (Next_read fuel DBRACKET k ki kk)|].
  reflexivity.
Qed.

Lemma if_Next fuel (b : bool) :
  (if b then _Next respond reader_errors fuel BASH_REGEX
   else _Next respond reader_errors fuel DBRACKET) =
  _Next respond reader_errors fuel (if b then BASH_REGEX else DBRACKET).
Proof. by destruct b. Qed.

(** The regex check of [ParseFactor] on an accepted right operand. *)
Lemma regex_check_passes oi r st :
  (oi = Id.BoolBinary_EqualTilde -> regex_accepted regex_parse r) ->
  (if oi =? Id.BoolBinary_EqualTilde
   then
     res <- call_EvalStatic (Some r) ;;
     let '(ok, regex_str, _) := res in
     if ok && negb (regex_parse regex_str)
     then
       AddErrorContext ("Invalid regex: " +:+ repr_str regex_str) [] None (Some r) ;;
       ret true
     else ret false
   else ret false) st = (Done false, st).
Proof.
  intros Hregex.
  destruct (N.eqb_spec oi Id.BoolBinary_EqualTilde) as [Heq|Hne]; [|reflexivity].
  destruct (Hregex Heq) as (okr & s & q & Hes & Hacc).
  eapply run_bind; [simpl; rewrite Hes; reflexivity|]. cbv beta iota.
  destruct okr; simpl; [|reflexivity]. rewrite (Hacc eq_refl). reflexivity.
Qed.

(** [WORD BINARY_OP WORD] as a factor, the regex check passed. *)
Lemma factor_binary fuel PE l op oi ok r ri rk k ki kk st :
  (1 <= fuel)%nat ->
  positioned st l -> word_class l Id.Word_Compound Kind.Word ->
  served respond (w_parser st)
    [(DBRACKET, op); (right_operand_mode op, r); (DBRACKET, k)] ->
  word_class op oi ok -> ok = Kind.BoolBinary \/ ok = Kind.Redir ->
  word_class r ri rk ->
  (oi = Id.BoolBinary_EqualTilde -> regex_accepted regex_parse r) ->
  word_class k ki kk ->
  ParseFactor_body respond reader_errors regex_parse repr_str fuel PE st =
  (Done (BinaryExprNode oi (NWord l) (NWord r)),
   after_read DBRACKET k ki kk
     (after_read (right_operand_mode op) r ri rk
        (after_drain op oi ok (after_lookahead (Some l) op st)))).
Proof.
  intros Hf (Hws & Hcw & Hi & Hk & Hn) (Hi' & Hk' & _) (Hro & Hrr & Hrk & _)
    Hoc Hok Hrc Hregex Hkc.
  assert (Hop : op_id st = Id.Word_Compound) by congruence.
  assert (Hbk : b_kind st = Kind.Word) by (rewrite Hop in Hk; congruence).
  unfold ParseFactor_body. run_basic. rewrite Hbk.
  change (Kind.Word =? Kind.BoolUnary) with false.
  change (Kind.Word =? Kind.Word) with true. cbv iota.
  eapply run_bind; [by apply (LookAhead_read (Some l))|]. cbv beta.
  pose proof Hoc as (Hoi & Hokk & Hon).
  eapply run_call_BoolId; [exact Hoi|]. eapply run_call_LookupKind; [exact Hokk|].
  assert (Hbin : (ok =? Kind.BoolBinary) || (ok =? Kind.Redir) = true).
  { destruct Hok as [-> | ->]; reflexivity. }
  rewrite Hbin. cbv iota. run_basic.
  eapply run_bind; [by apply (Next_drain fuel (Some l))|]. cbv beta. simpl.
  run_basic. simpl.
  assert (Hmode : (if oi =? Id.BoolBinary_EqualTilde then BASH_REGEX else DBRACKET) =
                  right_operand_mode op).
  { unfold right_operand_mode, word_id. by rewrite Hoi. }
  eapply run_bind.
  { rewrite (if_Next fuel (oi =? Id.BoolBinary_EqualTilde)), Hmode.
    by apply (Next_read fuel (right_operand_mode op) r ri rk). }
  cbv beta. simpl. run_basic. simpl.
  eapply run_bind; [by apply regex_check_passes|]. cbv beta iota.
  eapply run_bind; [by apply (Next_read fuel DBRACKET k ki kk)|].
  simpl. by rewrite Hcw.
Qed.

(** [WORD =~ WORD] with a right operand that evaluates statically to an
    invalid regex: the error is pushed and the method returns [None]. *)
Lemma factor_binary_invalid_regex fuel PE l op r ri rk s q st :
  (1 <= fuel)%nat ->
  positioned st l -> word_class l Id.Word_Compound Kind.Word ->
  served respond (w_parser st) [(DBRACKET, op); (BASH_REGEX, r)] ->
  BoolId op = Ok Id.BoolBinary_EqualTilde ->
  word_class r ri rk ->
  EvalStatic r = Ok (true, s, q) -> regex_parse s = false ->
  ParseFactor_body respond reader_errors regex_parse repr_str fuel PE st =
  (Done NNone,
   extend_error_stack
     [MakeError ("Invalid regex: " +:+ repr_str s) [] None (Some r)]
     (after_read BASH_REGEX r ri rk
        (after_drain op Id.BoolBinary_EqualTilde Kind.BoolBinary
           (after_lookahead (Some l) op st)))).
Proof.
  intros Hf (Hws & Hcw & Hi & Hk & Hn) (Hi' & Hk' & _) (Hro & Hrr & _)
    Hoi Hrc Hes Hbad.
  assert (Hop : op_id st = Id.Word_Compound) by congruence.
  assert (Hbk : b_kind st = Kind.Word) by (rewrite Hop in Hk; congruence).
  assert (Hoc : word_class op Id.BoolBinary_EqualTilde Kind.BoolBinary).
  { split; [done|]. split; [apply Kind_of_ids | done]. }
  unfold ParseFactor_body. run_basic. rewrite Hbk.
  change (Kind.Word =? Kind.BoolUnary) with false.
  change (Kind.Word =? Kind.Word) with true. cbv iota.
  eapply run_bind; [by apply (LookAhead_read (Some l))|]. cbv beta.
  eapply run_call_BoolId; [exact Hoi|].
  eapply run_call_LookupKind; [apply Kind_of_ids|].
  change ((Kind.BoolBinary =? Kind.BoolBinary) || (Kind.BoolBinary =? Kind.Redir))
    with true.
  cbv iota. run_basic.
  eapply run_bind; [by apply (Next_drain fuel (Some l))|]. cbv beta. simpl.
  run_basic. simpl.
  eapply run_bind; [by apply (Next_read fuel BASH_REGEX r ri rk)|].
  cbv beta. simpl. run_basic. simpl.
  eapply run_bind.
  { eapply run_bind; [simpl; rewrite Hes; reflexivity|]. cbv beta iota.
    rewrite Hbad. simpl. reflexivity. }
  reflexivity.
Qed.

(** [( Expr )] as a factor, given what [ParseExpr] does inside. *)
Lemma factor_paren fuel PE lp fw fi fk nd st2 k ki kk st :
  (1 <= fuel)%nat ->
  positioned st lp -> word_class lp Id.Op_LParen Kind.Op ->
  respond (w_parser st ++ [DBRACKET]) = Some fw -> word_class fw fi fk ->
  PE (after_read DBRACKET fw fi fk st) = (Done nd, st2) ->
  op_id st2 = Id.Op_RParen -> (length (words st2) <= 1)%nat ->
  respond (w_parser st2 ++ [DBRACKET]) = Some k -> word_class k ki kk ->
  ParseFactor_body respond reader_errors regex_parse repr_str fuel PE st =
  (Done nd, after_read DBRACKET k ki kk st2).
Proof.
  intros Hf (Hws & Hcw & Hi & Hk & Hn) (Hi' & Hk' & _) Hrf Hfc HPE Hrp Hl2 Hrk Hkc.
  assert (Hop : op_id st = Id.Op_LParen) by congruence.
  assert (Hbk : b_kind st = Kind.Op) by (rewrite Hop in Hk; congruence).
  unfold ParseFactor_body. run_basic. rewrite Hbk.
  change (Kind.Op =? Kind.BoolUnary) with false.
  change (Kind.Op =? Kind.Word) with false. cbv iota.
  run_basic. rewrite Hop. change (Id.Op_LParen =? Id.Op_LParen) with true. cbv iota.
  eapply run_bind; [apply (Next_read fuel DBRACKET fw fi fk); try done; rewrite Hws; simpl; lia|].
  cbv beta. simpl.
  eapply run_bind; [exact HPE|]. cbv beta. run_basic. rewrite Hrp.
  change (negb (Id.Op_RParen =? Id.Op_RParen)) with false. cbv iota.
  eapply run_bind; [by apply (Next_read fuel DBRACKET k ki kk)|].
  reflexivity.
Qed.

(** [( Expr] without the closing parenthesis: [ParseFactor] raises. *)
Lemma factor_paren_unbalanced fuel PE lp fw fi fk nd st2 st :
  (1 <= fuel)%nat ->
  positioned st lp -> word_class lp Id.Op_LParen Kind.Op ->
  respond (w_parser st ++ [DBRACKET]) = Some fw -> word_class fw fi fk ->
  PE (after_read DBRACKET fw fi fk st) = (Done nd, st2) ->
  op_id st2 <> Id.Op_RParen ->
  ParseFactor_body respond reader_errors regex_parse repr_str fuel PE st =
  (Raised (RuntimeError "Expected ), got %s"), st2).
Proof.
  intros Hf (Hws & Hcw & Hi & Hk & Hn) (Hi' & Hk' & _) Hrf Hfc HPE Hrp.
  assert (Hop : op_id st = Id.Op_LParen) by congruence.
  assert (Hbk : b_kind st = Kind.Op) by (rewrite Hop in Hk; congruence).
  unfold ParseFactor_body. run_basic. rewrite Hbk.
  change (Kind.Op =? Kind.BoolUnary) with false.
  change (Kind.Op =? Kind.Word) with false. cbv iota.
  run_basic. rewrite Hop. change (Id.Op_LParen =? Id.Op_LParen) with true. cbv iota.
  eapply run_bind; [apply (Next_read fuel DBRACKET fw fi fk); try done; rewrite Hws; simpl; lia|].
  cbv beta. simpl.
  eapply run_bind; [exact HPE|]. cbv beta. run_basic.
  apply N.eqb_neq in Hrp. rewrite Hrp. reflexivity.
Qed.

(** A word that is no operand, operator or opening parenthesis where a
    factor must start: [ParseFactor] raises. *)
Lemma factor_unexpected fuel PE st :
  b_kind st <> Kind.BoolUnary -> b_kind st <> Kind.Word ->
  op_id st <> Id.Op_LParen ->
  ParseFactor_body respond reader_errors regex_parse repr_str fuel PE st =
  (Raised (AssertionError "Unexpected token: %s"), st).
Proof.
  intros H1 H2 H3. apply N.eqb_neq in H1, H2, H3.
  unfold ParseFactor_body. run_basic. rewrite H1, H2. run_basic. rewrite H3.
  reflexivity.
Qed.

(** Passing a result up the chain of methods. *)
Lemma negated_of_factor fuel st :
  op_id st <> Id.KW_Bang ->
  parse respond reader_errors regex_parse repr_str (S fuel) PNegatedFactor st =
  parse respond reader_errors regex_parse repr_str fuel PFactor st.
Proof.
  intros H. apply N.eqb_neq in H. simpl. unfold bind at 1, get at 1. simpl.
  by rewrite H.
Qed.

Lemma term_of_negated fuel st nd st' :
  parse respond reader_errors regex_parse repr_str fuel PNegatedFactor st = (Done nd, st') ->
  op_id st' <> Id.Op_DAmp ->
  parse respond reader_errors regex_parse repr_str (S fuel) PTerm st = (Done nd, st').
Proof.
  intros H Hn. apply N.eqb_neq in Hn. simpl.
  eapply run_bind; [exact H|]. run_basic. by rewrite Hn.
Qed.

Lemma expr_of_term fuel st nd st' :
  parse respond reader_errors regex_parse repr_str fuel PTerm st = (Done nd, st') ->
  op_id st' <> Id.Op_DPipe ->
  parse respond reader_errors regex_parse repr_str (S fuel) PExpr st = (Done nd, st').
Proof.
  intros H Hn. apply N.eqb_neq in Hn. simpl.
  eapply run_bind; [exact H|]. run_basic. by rewrite Hn.
Qed.

End Runs.

(** ** The parser on well-formed expressions *)

Ltac list_norm :=
  simpl; rewrite ?map_app; simpl; rewrite <- ?app_assoc; simpl.

Section Grammar.

Variable respond : list LexMode -> option Word.
Variable reader_errors : list LexMode -> list ErrorContext.
Variable regex_parse : string -> bool.
Variable repr_str : string -> string.

Local Abbreviation parse_ := (parse respond reader_errors regex_parse repr_str).

Lemma word_class_fun w i k i' k' :
  word_class w i k -> word_class w i' k' -> i = i' /\ k = k'.
Proof. intros (Hi & Hk & _) (Hi' & Hk' & _). split; congruence. Qed.

Lemma positioned_class st w i k :
  positioned st w -> word_class w i k -> op_id st = i /\ b_kind st = k.
Proof. intros (_ & _ & Hc) Hc'. apply (word_class_fun w); done. Qed.

Lemma word_id_class w i k : word_class w i k -> word_id w = i.
Proof. intros (Hi & _). unfold word_id. by rewrite Hi. Qed.

(** The first word of a well-formed expression is a word [_Next] stops at,
    and it is [!] only for a negation. *)
Lemma first_word_class e :
  well_formed regex_parse e ->
  exists i k, word_class (first_word e) i k /\
              ((level e = 0)%nat -> i <> Id.KW_Bang).
Proof.
  induction e as [w|op w|l op r|lp e IH rp|bang f IH|l IHl amp r IHr|l IHl pipe r IHr];
    simpl; intros Hwf.
  - exists Id.Word_Compound, Kind.Word. done.
  - destruct Hwf as [[i Hi] _]. exists i, Kind.BoolUnary. split; [done|].
    intros _ ->. destruct Hi as (_ & Hk & _).
    pose proof Kind_of_ids as (Hb & _). rewrite Hb in Hk. discriminate.
  - destruct Hwf as [Hl _]. exists Id.Word_Compound, Kind.Word. done.
  - destruct Hwf as [Hlp _]. exists Id.Op_LParen, Kind.Op. done.
  - destruct Hwf as [Hb _]. exists Id.KW_Bang, Kind.KW. done.
  - destruct Hwf as (_ & Hl & _). destruct (IHl Hl) as (i & k & Hc & _).
    exists i, k. done.
  - destruct Hwf as (_ & Hl & _). destruct (IHl Hl) as (i & k & Hc & _).
    exists i, k. done.
Qed.

Lemma follows_weaken nt nt' k i kind :
  (level_of nt' <= level_of nt)%nat -> follows nt k i kind -> follows nt' k i kind.
Proof.
  intros Hle (Hc & Hb & Hr & Ha & Hp).
  split; [done|]. split; [done|]. split; [done|].
  split; intros H; [apply Ha | apply Hp]; lia.
Qed.

(** Passing a result of [ParseFactor] up to the method it was asked of. *)
Lemma lift_factor nt fuel st nd st' :
  parse_ fuel PFactor st = (Done nd, st') ->
  op_id st <> Id.KW_Bang ->
  ((2 <= level_of nt)%nat -> op_id st' <> Id.Op_DAmp) ->
  ((3 <= level_of nt)%nat -> op_id st' <> Id.Op_DPipe) ->
  parse_ (level_of nt + fuel) nt st = (Done nd, st').
Proof.
  intros H Hb Ha Hp. destruct nt; simpl level_of in *; simpl Nat.add.
  - apply expr_of_term; [|apply Hp; lia]. apply term_of_negated; [|apply Ha; lia].
    by rewrite negated_of_factor.
  - apply term_of_negated; [|apply Ha; lia]. by rewrite negated_of_factor.
  - by rewrite negated_of_factor.
  - done.
Qed.

Lemma lift_negated nt fuel st nd st' :
  (1 <= level_of nt)%nat ->
  parse_ fuel PNegatedFactor st = (Done nd, st') ->
  ((2 <= level_of nt)%nat -> op_id st' <> Id.Op_DAmp) ->
  ((3 <= level_of nt)%nat -> op_id st' <> Id.Op_DPipe) ->
  parse_ (level_of nt - 1 + fuel) nt st = (Done nd, st').
Proof.
  intros Hl H Ha Hp. destruct nt; simpl level_of in *; simpl Nat.add.
  - apply expr_of_term; [|apply Hp; lia]. apply term_of_negated; [|apply Ha; lia]. done.
  - apply term_of_negated; [|apply Ha; lia]. done.
  - done.
  - lia.
Qed.

Lemma lift_term nt fuel st nd st' :
  (2 <= level_of nt)%nat ->
  parse_ fuel PTerm st = (Done nd, st') ->
  ((3 <= level_of nt)%nat -> op_id st' <> Id.Op_DPipe) ->
  parse_ (level_of nt - 2 + fuel) nt st = (Done nd, st').
Proof.
  intros Hl H Hp. destruct nt; simpl level_of in *; simpl Nat.add.
  - apply expr_of_term; [|apply Hp; lia]. done.
  - done.
  - lia.
  - lia.
Qed.


Local Abbreviation parses_ := (parses respond reader_errors regex_parse repr_str).

Lemma parse_factor_step fuel st :
  parse_ (S fuel) PFactor st =
  ParseFactor_body respond reader_errors regex_parse repr_str fuel (parse_ fuel PExpr) st.
Proof. reflexivity. Qed.

(** Splitting the fuel of a call into the levels passed through and the
    fuel left for [ParseFactor]. *)
Lemma fuel_for_factor nt fuel :
  (5 <= fuel)%nat ->
  exists f1, (1 <= f1)%nat /\ fuel = (level_of nt + S f1)%nat.
Proof.
  intros H. exists (fuel - level_of nt - 1)%nat. destruct nt; simpl; lia.
Qed.

Lemma parses_word w : well_formed regex_parse (XWord w) -> parses_ (XWord w).
Proof.
  intros Hwf nt fuel k ki kk st _ Hfuel Hpos Hserved Hfol. simpl in *.
  destruct (fuel_for_factor nt fuel) as (f1 & Hf1 & ->); [lia|].
  destruct Hfol as (Hkc & Hnb & Hnr & Ha & Hp).
  destruct (positioned_class st w _ _ Hpos Hwf) as [Hop Hbk].
  exists (after_drain k ki kk (after_lookahead (Some w) k st)). split.
  - apply lift_factor; try done.
    + rewrite parse_factor_step. by apply factor_word.
    + by rewrite Hop.
  - split; [by apply positioned_after_drain | done].
Qed.

Lemma parses_unary op w : well_formed regex_parse (XUnary op w) -> parses_ (XUnary op w).
Proof.
  intros [[i Hop] (wi & wk & Hw)] nt fuel k ki kk st _ Hfuel Hpos Hserved Hfol.
  simpl in *.
  destruct (fuel_for_factor nt fuel) as (f1 & Hf1 & ->); [lia|].
  destruct Hfol as (Hkc & Hnb & Hnr & Ha & Hp).
  destruct (positioned_class st op _ _ Hpos Hop) as [Hi Hbk].
  exists (after_read DBRACKET k ki kk (after_read DBRACKET w wi wk st)). split.
  - apply lift_factor; try done.
    + rewrite parse_factor_step, (word_id_class op i Kind.BoolUnary Hop), <- Hi.
      by apply factor_unary with (op := op).
    + rewrite Hi. intros ->. destruct Hop as (_ & Hk & _).
      pose proof Kind_of_ids as (Hb & _). rewrite Hb in Hk. discriminate.
  - split; [by apply positioned_after_read|]. simpl. by rewrite <- app_assoc.
Qed.

Lemma parses_binary l op r :
  well_formed regex_parse (XBinary l op r) -> parses_ (XBinary l op r).
Proof.
  intros (Hl & (oi & ok & Hop & Hok) & (ri & rk & Hr) & Hregex)
    nt fuel k ki kk st _ Hfuel Hpos Hserved Hfol.
  simpl in *.
  destruct (fuel_for_factor nt fuel) as (f1 & Hf1 & ->); [lia|].
  destruct Hfol as (Hkc & Hnb & Hnr & Ha & Hp).
  destruct (positioned_class st l _ _ Hpos Hl) as [Hi Hbk].
  rewrite (word_id_class op oi ok Hop) in *.
  exists (after_read DBRACKET k ki kk
            (after_read (right_operand_mode op) r ri rk
               (after_drain op oi ok (after_lookahead (Some l) op st)))).
  split.
  - apply lift_factor; try done.
    + rewrite parse_factor_step. by apply factor_binary.
    + by rewrite Hi.
  - split; [by apply positioned_after_read|]. simpl. by rewrite <- !app_assoc.
Qed.


Lemma follows_RParen nt rp :
  word_class rp Id.Op_RParen Kind.Op -> follows nt rp Id.Op_RParen Kind.Op.
Proof. intros H. repeat split; try done; apply H. Qed.

Lemma follows_DAmp amp :
  word_class amp Id.Op_DAmp Kind.Op -> follows PNegatedFactor amp Id.Op_DAmp Kind.Op.
Proof. intros H. repeat split; try done; try apply H; simpl; lia. Qed.

Lemma follows_DPipe pipe :
  word_class pipe Id.Op_DPipe Kind.Op -> follows PTerm pipe Id.Op_DPipe Kind.Op.
Proof. intros H. repeat split; try done; try apply H; simpl; lia. Qed.

Lemma parses_paren lp e rp :
  well_formed regex_parse (XParen lp e rp) -> parses_ e -> parses_ (XParen lp e rp).
Proof.
  intros (Hlp & Hwf & Hrp) IH nt fuel k ki kk st _ Hfuel Hpos Hserved Hfol.
  simpl in Hfuel.
  destruct (fuel_for_factor nt fuel) as (f1 & Hf1 & ->); [lia|].
  destruct (first_word_class e Hwf) as (fi & fk & Hfc & _).
  destruct Hfol as (Hkc & Hnb & Hnr & Ha & Hp).
  destruct (positioned_class st lp _ _ Hpos Hlp) as [Hi Hbk].
  simpl in Hserved. destruct Hserved as [Hrf Hserved].
  apply served_app in Hserved as [Hse Hsk].
  destruct (IH PExpr f1 rp Id.Op_RParen Kind.Op (after_read DBRACKET (first_word e) fi fk st))
    as (st2 & Hrun & Hpos2 & Hw2 & He2).
  { simpl. destruct e; simpl; lia. }
  { assert (level_of nt <= 3)%nat by (destruct nt; simpl; lia). lia. }
  { by apply positioned_after_read. }
  { exact Hse. }
  { by apply follows_RParen. }
  destruct (positioned_class st2 rp _ _ Hpos2 Hrp) as [Hi2 Hbk2].
  exists (after_read DBRACKET k ki kk st2). split.
  - apply lift_factor; try done.
    + rewrite parse_factor_step.
      apply factor_paren with (lp := lp) (fw := first_word e) (fi := fi) (fk := fk)
                              (st2 := st2); try done.
      * destruct Hpos2 as [-> _]. simpl. lia.
      * rewrite Hw2. simpl in Hsk. simpl. apply Hsk.
    + by rewrite Hi.
  - split; [by apply positioned_after_read|]. simpl. rewrite Hw2, He2.
    split; [|done]. list_norm. done.
Qed.


(** The three methods on their operators [!], [&&] and [||]. *)
Lemma negated_bang fuel st fw fi fk nd st2 :
  (1 <= fuel)%nat ->
  op_id st = Id.KW_Bang -> (length (words st) <= 1)%nat ->
  respond (w_parser st ++ [DBRACKET]) = Some fw -> word_class fw fi fk ->
  parse_ fuel PFactor (after_read DBRACKET fw fi fk st) = (Done nd, st2) ->
  parse_ (S fuel) PNegatedFactor st = (Done (LogicalNot nd), st2).
Proof.
  intros Hf Hop Hl Hr Hc Hrun. simpl. run_basic. rewrite Hop.
  change (Id.KW_Bang =? Id.KW_Bang) with true. cbv iota.
  eapply run_bind; [by apply (Next_read respond reader_errors fuel DBRACKET fw fi fk)|].
  cbv beta. simpl. eapply run_bind; [exact Hrun|]. reflexivity.
Qed.

Lemma term_and fuel st nd_l st1 fw fi fk nd_r st3 :
  (1 <= fuel)%nat ->
  parse_ fuel PNegatedFactor st = (Done nd_l, st1) ->
  op_id st1 = Id.Op_DAmp -> (length (words st1) <= 1)%nat ->
  respond (w_parser st1 ++ [DBRACKET]) = Some fw -> word_class fw fi fk ->
  parse_ fuel PTerm (after_read DBRACKET fw fi fk st1) = (Done nd_r, st3) ->
  parse_ (S fuel) PTerm st = (Done (BinaryExprNode Id.Op_DAmp nd_l nd_r), st3).
Proof.
  intros Hf Hl Hop Hlen Hr Hc Hrun. simpl.
  eapply run_bind; [exact Hl|]. cbv beta. run_basic. rewrite Hop.
  change (Id.Op_DAmp =? Id.Op_DAmp) with true. cbv iota.
  eapply run_bind; [by apply (Next_read respond reader_errors fuel DBRACKET fw fi fk)|].
  cbv beta. simpl. eapply run_bind; [exact Hrun|]. reflexivity.
Qed.

Lemma expr_or fuel st nd_l st1 fw fi fk nd_r st3 :
  (1 <= fuel)%nat ->
  parse_ fuel PTerm st = (Done nd_l, st1) ->
  op_id st1 = Id.Op_DPipe -> (length (words st1) <= 1)%nat ->
  respond (w_parser st1 ++ [DBRACKET]) = Some fw -> word_class fw fi fk ->
  parse_ fuel PExpr (after_read DBRACKET fw fi fk st1) = (Done nd_r, st3) ->
  parse_ (S fuel) PExpr st = (Done (BinaryExprNode Id.Op_DPipe nd_l nd_r), st3).
Proof.
  intros Hf Hl Hop Hlen Hr Hc Hrun. simpl.
  eapply run_bind; [exact Hl|]. cbv beta. run_basic. rewrite Hop.
  change (Id.Op_DPipe =? Id.Op_DPipe) with true. cbv iota.
  eapply run_bind; [by apply (Next_read respond reader_errors fuel DBRACKET fw fi fk)|].
  cbv beta. simpl. eapply run_bind; [exact Hrun|]. reflexivity.
Qed.

Lemma parses_not bang f :
  well_formed regex_parse (XNot bang f) -> parses_ f -> parses_ (XNot bang f).
Proof.
  intros (Hb & Hlvl & Hwf) IH nt fuel k ki kk st Hnt Hfuel Hpos Hserved Hfol.
  simpl in Hfuel, Hnt.
  assert (Hsplit : exists f1, (5 * depth f <= f1)%nat /\ (1 <= f1)%nat /\
                              fuel = (level_of nt - 1 + S f1)%nat).
  { exists (fuel - level_of nt)%nat. destruct nt; simpl in *; lia. }
  destruct Hsplit as (f1 & Hf1 & Hf1' & ->).
  destruct (first_word_class f Hwf) as (fi & fk & Hfc & _).
  destruct (positioned_class st bang _ _ Hpos Hb) as [Hi Hbk].
  simpl in Hserved. destruct Hserved as [Hrf Hserved].
  destruct (IH PFactor f1 k ki kk (after_read DBRACKET (first_word f) fi fk st))
    as (st2 & Hrun & Hpos2 & Hw2 & He2).
  { simpl. lia. }
  { done. }
  { by apply positioned_after_read. }
  { exact Hserved. }
  { apply (follows_weaken nt); [simpl; lia | done]. }
  destruct Hfol as (Hkc & Hnb & Hnr & Ha & Hp).
  destruct (positioned_class st2 k _ _ Hpos2 Hkc) as [Hi2 Hbk2].
  exists st2. split.
  - apply lift_negated; [lia| |by rewrite Hi2|by rewrite Hi2].
    apply negated_bang with (fw := first_word f) (fi := fi) (fk := fk); try done.
    destruct Hpos as [-> _]. simpl. lia.
  - split; [done|]. rewrite Hw2, He2. split; [|done]. list_norm. done.
Qed.

Lemma parses_and l amp r :
  well_formed regex_parse (XAnd l amp r) -> parses_ l -> parses_ r ->
  parses_ (XAnd l amp r).
Proof.
  intros (Hll & Hwl & Hamp & Hlr & Hwr) IHl IHr nt fuel k ki kk st Hnt Hfuel Hpos
    Hserved Hfol.
  simpl in Hfuel, Hnt, Hpos.
  assert (Hsplit : exists f1, (5 * depth l <= f1)%nat /\ (5 * depth r <= f1)%nat /\
                              (1 <= f1)%nat /\ fuel = (level_of nt - 2 + S f1)%nat).
  { exists (fuel - level_of nt + 1)%nat. destruct nt; simpl in *; lia. }
  destruct Hsplit as (f1 & Hf1l & Hf1r & Hf1 & ->).
  destruct (first_word_class r Hwr) as (fi & fk & Hfc & _).
  simpl in Hserved.
  replace (reads l ++ (DBRACKET, amp) :: (DBRACKET, first_word r) :: reads r)
    with ((reads l ++ [(DBRACKET, amp)]) ++ (DBRACKET, first_word r) :: reads r)
    in Hserved by (by rewrite <- app_assoc).
  rewrite <- app_assoc in Hserved.
  apply served_app in Hserved as [Hsl Hsr].
  destruct (IHl PNegatedFactor f1 amp Id.Op_DAmp Kind.Op st)
    as (st1 & Hrun1 & Hpos1 & Hw1 & He1); try done.
  { by apply follows_DAmp. }
  destruct (positioned_class st1 amp _ _ Hpos1 Hamp) as [Hi1 Hbk1].
  rewrite <- Hw1 in Hsr. simpl in Hsr. destruct Hsr as [Hrf Hsr].
  destruct (IHr PTerm f1 k ki kk (after_read DBRACKET (first_word r) fi fk st1))
    as (st3 & Hrun3 & Hpos3 & Hw3 & He3); try done.
  { apply (follows_weaken nt); [simpl; lia | done]. }
  destruct Hfol as (Hkc & Hnb & Hnr & Ha & Hp).
  destruct (positioned_class st3 k _ _ Hpos3 Hkc) as [Hi3 Hbk3].
  exists st3. split.
  - apply lift_term; [lia| |by rewrite Hi3].
    apply term_and with (st1 := st1) (fw := first_word r) (fi := fi) (fk := fk);
      try done.
    destruct Hpos1 as [-> _]. simpl. lia.
  - split; [done|]. rewrite Hw3, He3. simpl. rewrite Hw1, He1.
    split; [|done]. list_norm. done.
Qed.

Lemma parses_or l pipe r :
  well_formed regex_parse (XOr l pipe r) -> parses_ l -> parses_ r ->
  parses_ (XOr l pipe r).
Proof.
  intros (Hll & Hwl & Hpipe & Hwr) IHl IHr nt fuel k ki kk st Hnt Hfuel Hpos
    Hserved Hfol.
  simpl in Hfuel, Hnt, Hpos.
  assert (nt = PExpr) as -> by (destruct nt; simpl in Hnt; try lia; done).
  assert (Hsplit : exists f1, (5 * depth l <= f1)%nat /\ (5 * depth r <= f1)%nat /\
                              (1 <= f1)%nat /\ fuel = S f1).
  { exists (fuel - 1)%nat. lia. }
  destruct Hsplit as (f1 & Hf1l & Hf1r & Hf1 & ->).
  destruct (first_word_class r Hwr) as (fi & fk & Hfc & _).
  simpl in Hserved.
  replace (reads l ++ (DBRACKET, pipe) :: (DBRACKET, first_word r) :: reads r)
    with ((reads l ++ [(DBRACKET, pipe)]) ++ (DBRACKET, first_word r) :: reads r)
    in Hserved by (by rewrite <- app_assoc).
  rewrite <- app_assoc in Hserved.
  apply served_app in Hserved as [Hsl Hsr].
  destruct (IHl PTerm f1 pipe Id.Op_DPipe Kind.Op st)
    as (st1 & Hrun1 & Hpos1 & Hw1 & He1); try done.
  { by apply follows_DPipe. }
  destruct (positioned_class st1 pipe _ _ Hpos1 Hpipe) as [Hi1 Hbk1].
  rewrite <- Hw1 in Hsr. simpl in Hsr. destruct Hsr as [Hrf Hsr].
  destruct (IHr PExpr f1 k ki kk (after_read DBRACKET (first_word r) fi fk st1))
    as (st3 & Hrun3 & Hpos3 & Hw3 & He3); try done.
  { simpl. destruct r; simpl; lia. }
  exists st3. split.
  - apply expr_or with (st1 := st1) (fw := first_word r) (fi := fi) (fk := fk);
      try done.
    destruct Hpos1 as [-> _]. simpl. lia.
  - split; [done|]. rewrite Hw3, He3. simpl. rewrite Hw1, He1.
    split; [|done]. list_norm. done.
Qed.

(** The parser is right on every well-formed expression. *)
Theorem parse_well_formed e : well_formed regex_parse e -> parses_ e.
Proof.
  induction e as [w|op w|l op r|lp e IH rp|bang f IH|l IHl amp r IHr|l IHl pipe r IHr];
    intros Hwf.
  - by apply parses_word.
  - by apply parses_unary.
  - by apply parses_binary.
  - apply parses_paren; [done|]. apply IH, Hwf.
  - apply parses_not; [done|]. apply IH, Hwf.
  - apply parses_and; [done| |]; [apply IHl | apply IHr]; apply Hwf.
  - apply parses_or; [done| |]; [apply IHl | apply IHr]; apply Hwf.
Qed.


Local Abbreviation Parse_ := (Parse respond reader_errors regex_parse repr_str).

Lemma script_of_and l amp r :
  script_of (XAnd l amp r) = script_of l ++ (DBRACKET, amp) :: script_of r.
Proof. reflexivity. Qed.

Lemma script_of_or l pipe r :
  script_of (XOr l pipe r) = script_of l ++ (DBRACKET, pipe) :: script_of r.
Proof. reflexivity. Qed.

(** [Parse] up to the end of [ParseExpr], on a well-formed expression. *)
Lemma Parse_expr fuel e k ki kk st :
  well_formed regex_parse e -> follows PExpr k ki kk ->
  (length (words st) <= 1)%nat ->
  served respond (w_parser st) (script_of e ++ [(DBRACKET, k)]) ->
  (5 * depth e <= fuel)%nat ->
  exists st1 st2,
    _Next respond reader_errors fuel DBRACKET st = (Done true, st1) /\
    parse_ fuel PExpr st1 = (Done (denote e), st2) /\
    positioned st2 k /\
    w_parser st2 = w_parser st ++ map fst (script_of e ++ [(DBRACKET, k)]) /\
    error_stack st2 = error_stack st.
Proof.
  intros Hwf Hfol Hlen [Hrf Hserved] Hfuel.
  destruct (first_word_class e Hwf) as (fi & fk & Hfc & _).
  destruct (parse_well_formed e Hwf PExpr fuel k ki kk
              (after_read DBRACKET (first_word e) fi fk st))
    as (st2 & Hrun & Hpos2 & Hw2 & He2); try done.
  { simpl. destruct e; simpl; lia. }
  exists (after_read DBRACKET (first_word e) fi fk st), st2.
  split; [|split; [done|split; [done|]]].
  - apply Next_read; try done. destruct e; simpl in Hfuel; lia.
  - rewrite Hw2, He2. split; [|done]. list_norm. done.
Qed.

(** A well-formed expression closed by []]]: [Parse] returns its node. *)
Lemma Parse_complete fuel e k kk st :
  well_formed regex_parse e -> follows PExpr k Id.Lit_DRightBracket kk ->
  (length (words st) <= 1)%nat ->
  served respond (w_parser st) (script_of e ++ [(DBRACKET, k)]) ->
  (5 * depth e <= fuel)%nat ->
  exists st',
    Parse_ fuel st = (Done (denote e), st') /\
    w_parser st' = w_parser st ++ map fst (script_of e ++ [(DBRACKET, k)]) /\
    error_stack st' = error_stack st.
Proof.
  intros Hwf Hfol Hlen Hserved Hfuel.
  destruct (Parse_expr fuel e k _ kk st Hwf Hfol Hlen Hserved Hfuel)
    as (st1 & st2 & Hn & Hrun & Hpos & Hw & He).
  destruct Hfol as (Hkc & _).
  destruct (positioned_class st2 k _ _ Hpos Hkc) as [Hi _].
  exists st2. split; [|done]. unfold Parse.
  eapply run_bind; [exact Hn|]. cbv beta. simpl.
  eapply run_bind; [exact Hrun|]. cbv beta.
  eapply run_bind; [reflexivity|]. cbv beta. by rewrite Hi.
Qed.

(** A well-formed expression followed by a word other than []]]: [Parse]
    pushes an error for the extra word and returns [None]. *)
Lemma Parse_extra_word fuel e k ki kk st :
  well_formed regex_parse e -> follows PExpr k ki kk ->
  ki <> Id.Lit_DRightBracket ->
  (length (words st) <= 1)%nat ->
  served respond (w_parser st) (script_of e ++ [(DBRACKET, k)]) ->
  (5 * depth e <= fuel)%nat ->
  exists st',
    Parse_ fuel st = (Done NNone, st') /\
    error_stack st' = error_stack st ++ [extra_word_error k].
Proof.
  intros Hwf Hfol Hne Hlen Hserved Hfuel.
  destruct (Parse_expr fuel e k _ kk st Hwf Hfol Hlen Hserved Hfuel)
    as (st1 & st2 & Hn & Hrun & Hpos & Hw & He).
  destruct Hfol as (Hkc & _).
  destruct (positioned_class st2 k _ _ Hpos Hkc) as [Hi _].
  exists (extend_error_stack [extra_word_error k] st2). split.
  - unfold Parse.
    eapply run_bind; [exact Hn|]. cbv beta. simpl.
    eapply run_bind; [exact Hrun|]. cbv beta.
    eapply run_bind; [reflexivity|]. cbv beta. rewrite Hi.
    apply N.eqb_neq in Hne. rewrite Hne. simpl.
    destruct Hpos as (_ & Hcw & _).
    eapply run_bind; [reflexivity|]. cbv beta. rewrite Hcw. reflexivity.
  - simpl. by rewrite He.
Qed.

(** An opening parenthesis, a well-formed expression, and then a word other
    than the closing parenthesis: [Parse] raises [RuntimeError] and leaves
    the error stack as it was. *)
Lemma Parse_unbalanced fuel lp e k ki kk st :
  word_class lp Id.Op_LParen Kind.Op ->
  well_formed regex_parse e -> follows PExpr k ki kk ->
  ki <> Id.Op_RParen ->
  (length (words st) <= 1)%nat ->
  served respond (w_parser st) ((DBRACKET, lp) :: script_of e ++ [(DBRACKET, k)]) ->
  (5 * depth e + 5 <= fuel)%nat ->
  exists st',
    Parse_ fuel st = (Raised (RuntimeError "Expected ), got %s"), st') /\
    error_stack st' = error_stack st.
Proof.
  intros Hlp Hwf Hfol Hne Hlen [Hrl [Hrf Hserved]] Hfuel.
  destruct (first_word_class e Hwf) as (fi & fk & Hfc & _).
  destruct fuel as [|[|[|[|f1]]]]; try lia.
  set (st0 := after_read DBRACKET lp Id.Op_LParen Kind.Op st).
  destruct (parse_well_formed e Hwf PExpr f1 k ki kk
              (after_read DBRACKET (first_word e) fi fk st0))
    as (st2 & Hrun & Hpos2 & Hw2 & He2); try done.
  { simpl. destruct e; simpl; lia. }
  { lia. }
  destruct Hfol as (Hkc & _).
  destruct (positioned_class st2 k _ _ Hpos2 Hkc) as [Hi _].
  exists st2. split; [|by rewrite He2].
  unfold Parse.
  eapply run_bind; [apply (Next_read _ _ _ DBRACKET lp Id.Op_LParen Kind.Op); try done; lia|].
  cbv beta. simpl. fold st0.
  apply run_bind_raised. unfold ParseExpr.
  assert (Hfactor : parse_ (S f1) PFactor st0 =
                    (Raised (RuntimeError "Expected ), got %s"), st2)).
  { rewrite parse_factor_step.
    apply factor_paren_unbalanced
      with (lp := lp) (fw := first_word e) (fi := fi) (fk := fk) (nd := denote e);
      try done; [lia | by rewrite Hi]. }
  change (parse_ (S (S (S (S f1)))) PExpr st0) with
    (bind (parse_ (S (S (S f1))) PTerm)
       (fun left => i <- get op_id ;;
          if i =? Id.Op_DPipe
          then ok <- _Next respond reader_errors (S (S (S f1))) DBRACKET ;;
               if negb ok then ret NNone
               else right <- parse_ (S (S (S f1))) PExpr ;;
                    ret (BinaryExprNode Id.Op_DPipe left right)
          else ret left) st0).
  apply run_bind_raised.
  change (parse_ (S (S (S f1))) PTerm st0) with
    (bind (parse_ (S (S f1)) PNegatedFactor)
       (fun left => i <- get op_id ;;
          if i =? Id.Op_DAmp
          then ok <- _Next respond reader_errors (S (S f1)) DBRACKET ;;
               if negb ok then ret NNone
               else right <- parse_ (S (S f1)) PTerm ;;
                    ret (BinaryExprNode Id.Op_DAmp left right)
          else ret left) st0).
  apply run_bind_raised.
  rewrite negated_of_factor; [exact Hfactor|]. done.
Qed.

End Grammar.

(** ** Whole runs of [Parse] *)

(** Facts about concrete words: equations and inequations between
    constants, settled by evaluation. *)
Ltac class_solve :=
  repeat split;
  try (vm_compute; reflexivity); try (vm_compute; discriminate);
  try (intros _; vm_compute; discriminate).

Section Whole.

Variable respond : list LexMode -> option Word.
Variable reader_errors : list LexMode -> list ErrorContext.
Variable regex_parse : string -> bool.
Variable repr_str : string -> string.

Local Abbreviation parse_ := (parse respond reader_errors regex_parse repr_str).
Local Abbreviation Parse_ := (Parse respond reader_errors regex_parse repr_str).

(** A word that evaluates statically is a compound word, and the [BoolId]
    of a compound word is never a logical operator. *)
Lemma BoolId_static_not_logical r x ri :
  EvalStatic r = Ok x -> BoolId r = Ok ri ->
  ri <> Id.Op_DAmp /\ ri <> Id.Op_DPipe.
Proof.
  destruct r as [ps|t]; [|discriminate]. intros _. simpl.
  pose proof Kind_of_ids as (_ & _ & _ & Hamp & Hpipe & _).
  destruct ps as [|p [|p' ps]]; try (intros [= <-]; split; discriminate).
  destruct (LiteralId p =? Id.Undefined_Tok); [intros [= <-]; split; discriminate|].
  destruct ((LiteralId p =? Id.KW_Bang) || (LiteralId p =? Id.Lit_DRightBracket)) eqn:Hb.
  { intros [= <-]. apply orb_true_iff in Hb as [Hb|Hb]; apply N.eqb_eq in Hb;
      rewrite Hb; split; discriminate. }
  destruct (LookupKind (LiteralId p)) as [tk|] eqn:Hk; [|discriminate].
  destruct ((tk =? Kind.BoolUnary) || (tk =? Kind.BoolBinary)) eqn:Hc;
    [|intros [= <-]; split; discriminate].
  intros [= <-].
  apply orb_true_iff in Hc as [Hc|Hc]; apply N.eqb_eq in Hc; subst tk;
    split; intros E; rewrite E in Hk; rewrite ?Hamp, ?Hpipe in Hk; discriminate Hk.
Qed.

(** [Parse] on [l =~ r] with [r] an invalid regex: [None], and the record
    for the regex is the first one pushed. *)
Lemma Parse_invalid_regex fuel l op r ri rk s q st :
  (5 <= fuel)%nat -> (length (words st) <= 1)%nat ->
  served respond (w_parser st) [(DBRACKET, l); (DBRACKET, op); (BASH_REGEX, r)] ->
  word_class l Id.Word_Compound Kind.Word ->
  BoolId op = Ok Id.BoolBinary_EqualTilde ->
  word_class r ri rk ->
  EvalStatic r = Ok (true, s, q) -> regex_parse s = false ->
  exists st' rest,
    Parse_ fuel st = (Done NNone, st') /\
    error_stack st' = error_stack st ++ invalid_regex_error repr_str s r :: rest.
Proof.
  intros Hfuel Hlen (Hl & Hserved) Hlc Hop Hrc Hev Hbad.
  destruct fuel as [|[|[|[|f1]]]]; try lia.
  set (st0 := after_read DBRACKET l Id.Word_Compound Kind.Word st).
  set (st1 := extend_error_stack [invalid_regex_error repr_str s r]
     (after_read BASH_REGEX r ri rk
        (after_drain op Id.BoolBinary_EqualTilde Kind.BoolBinary
           (after_lookahead (Some l) op st0)))).
  assert (Hfactor : parse_ (S f1) PFactor st0 = (Done NNone, st1)).
  { rewrite parse_factor_step.
    apply factor_binary_invalid_regex with (q := q);
      try done; try lia; by apply positioned_after_read. }
  destruct (BoolId_static_not_logical r _ ri Hev (proj1 Hrc)) as [Hnamp Hnpipe].
  assert (Hexpr : parse_ (S (S (S (S f1)))) PExpr st0 = (Done NNone, st1)).
  { apply expr_of_term; [|done]. apply term_of_negated; [|done].
    rewrite negated_of_factor; [done|]. simpl. discriminate. }
  destruct (ri =? Id.Lit_DRightBracket) eqn:Hend.
  - exists st1, []. split; [|done]. unfold Parse.
    eapply run_bind; [apply (Next_read _ _ _ DBRACKET l Id.Word_Compound Kind.Word); try done; lia|].
    cbv beta. simpl. fold st0.
    eapply run_bind; [exact Hexpr|]. cbv beta.
    eapply run_bind; [reflexivity|]. cbv beta. simpl. by rewrite Hend.
  - exists (extend_error_stack [extra_word_error r] st1), [extra_word_error r].
    split; [|simpl; by rewrite <- app_assoc]. unfold Parse.
    eapply run_bind; [apply (Next_read _ _ _ DBRACKET l Id.Word_Compound Kind.Word); try done; lia|].
    cbv beta. simpl. fold st0.
    eapply run_bind; [exact Hexpr|]. cbv beta.
    eapply run_bind; [reflexivity|]. cbv beta. simpl. rewrite Hend. simpl.
    eapply run_bind; [reflexivity|]. reflexivity.
Qed.

(** Only the right operands of [=~] are requested under [BASH_REGEX]. *)
Lemma reads_modes e w : In (BASH_REGEX, w) (reads e) -> In w (regex_operands e).
Proof.
  induction e as [x|o x|l o r|lp e IH rp|b f IH|l IHl a r IHr|l IHl p r IHr];
    simpl; unfold right_operand_mode;
    try destruct (word_id o =? Id.BoolBinary_EqualTilde);
    simpl; rewrite ?in_app_iff; simpl; rewrite ?in_app_iff; simpl;
    intuition (try discriminate; try congruence).
Qed.

Lemma script_modes e k w :
  In (BASH_REGEX, w) (script_of e ++ [(DBRACKET, k)]) -> In w (regex_operands e).
Proof.
  unfold script_of. simpl. rewrite in_app_iff. simpl.
  intros [H|[H|[H|[]]]]; try discriminate. by apply reads_modes.
Qed.

End Whole.

(** [Parse] on a word that cannot begin a factor and is not [!]: the last
    line of [ParseFactor] raises [AssertionError]. *)
Lemma Parse_unexpected_token (respond : list LexMode -> option Word)
    (reader_errors : list LexMode -> list ErrorContext)
    (regex_parse : string -> bool) (repr_str : string -> string)
    (fuel : nat) (w : Word) (i k : N) (st : BoolParser) :
  (4 <= fuel)%nat -> (length (words st) <= 1)%nat ->
  respond (w_parser st ++ [DBRACKET]) = Some w -> word_class w i k ->
  k <> Kind.BoolUnary -> k <> Kind.Word -> i <> Id.Op_LParen -> i <> Id.KW_Bang ->
  Parse respond reader_errors regex_parse repr_str fuel st =
  (Raised (AssertionError "Unexpected token: %s"), after_read DBRACKET w i k st).
Proof.
  intros Hfuel Hlen Hw Hc Hk1 Hk2 Hi1 Hi2.
  destruct fuel as [|[|[|[|f1]]]]; try lia.
  unfold Parse.
  eapply run_bind; [apply (Next_read _ _ _ DBRACKET w i k); try done; lia|].
  cbv beta. simpl negb. cbv iota.
  apply run_bind_raised. unfold ParseExpr.
  set (st0 := after_read DBRACKET w i k st).
  change (parse respond reader_errors regex_parse repr_str (S (S (S (S f1)))) PExpr st0)
    with (bind (parse respond reader_errors regex_parse repr_str (S (S (S f1))) PTerm)
       (fun left => i <- get op_id ;;
          if i =? Id.Op_DPipe
          then ok <- _Next respond reader_errors (S (S (S f1))) DBRACKET ;;
               if negb ok then ret NNone
               else right <- parse respond reader_errors regex_parse repr_str
                               (S (S (S f1))) PExpr ;;
                    ret (BinaryExprNode Id.Op_DPipe left right)
          else ret left) st0).
  apply run_bind_raised.
  change (parse respond reader_errors regex_parse repr_str (S (S (S f1))) PTerm st0)
    with (bind (parse respond reader_errors regex_parse repr_str (S (S f1)) PNegatedFactor)
       (fun left => i <- get op_id ;;
          if i =? Id.Op_DAmp
          then ok <- _Next respond reader_errors (S (S f1)) DBRACKET ;;
               if negb ok then ret NNone
               else right <- parse respond reader_errors regex_parse repr_str
                               (S (S f1)) PTerm ;;
                    ret (BinaryExprNode Id.Op_DAmp left right)
          else ret left) st0).
  apply run_bind_raised.
  rewrite negated_of_factor; [|done].
  change (parse respond reader_errors regex_parse repr_str (S f1) PFactor st0)
    with (ParseFactor_body respond reader_errors regex_parse repr_str f1
            (parse respond reader_errors regex_parse repr_str f1 PExpr) st0).
  by apply factor_unexpected.
Qed.

(** The outcome of [Parse] on a well-formed expression closed by []]]. *)
Lemma Parse_complete_run (respond : list LexMode -> option Word)
    (reader_errors : list LexMode -> list ErrorContext)
    (regex_parse : string -> bool) (repr_str : string -> string)
    (fuel : nat) (e : bexp) (k : Word) (kk : N) (st : BoolParser) :
  well_formed regex_parse e -> follows PExpr k Id.Lit_DRightBracket kk ->
  (length (words st) <= 1)%nat ->
  served respond (w_parser st) (script_of e ++ [(DBRACKET, k)]) ->
  (5 * depth e <= fuel)%nat ->
  let run := Parse respond reader_errors regex_parse repr_str fuel st in
  fst run = Done (denote e) /\
  w_parser (snd run) = w_parser st ++ map fst (script_of e ++ [(DBRACKET, k)]) /\
  error_stack (snd run) = error_stack st.
Proof.
  intros Hwf Hfol Hlen Hserved Hfuel.
  destruct (Parse_complete respond reader_errors regex_parse repr_str
              fuel e k kk st Hwf Hfol Hlen Hserved Hfuel) as (st' & Hrun & Hw & He).
  cbv zeta. by rewrite Hrun.
Qed.

(** C7: chained [&&] and chained [||] parse right-leaning, and [&&] binds
    tighter than [||].  For operands [a], [b], [c] (well-formed factors,
    negated or not), a reader that hands over the flat sequence of the words
    of [a], a word [op1], the words of [b], a word [op2], the words of [c]
    and then []]], and fuel enough for the operands: if [op1] and [op2] are
    both [&&], [Parse] returns [Binary(Op_DAmp, a, Binary(Op_DAmp, b, c))];
    if both are [||], it returns [Binary(Op_DPipe, a, Binary(Op_DPipe, b, c))];
    on [a || b && c] it returns [Binary(Op_DPipe, a, Binary(Op_DAmp, b, c))],
    and on [a && b || c] it returns [Binary(Op_DPipe, Binary(Op_DAmp, a, b), c)]. *)
Theorem C7_chains_lean_right
    (respond : list LexMode -> option Word)
    (reader_errors : list LexMode -> list ErrorContext)
    (regex_parse : string -> bool) (repr_str : string -> string)
    (a b c : bexp) (op1 op2 k : Word) (kk : N) (fuel : nat) (st : BoolParser) :
  operand regex_parse a -> operand regex_parse b -> operand regex_parse c ->
  follows PExpr k Id.Lit_DRightBracket kk ->
  (length (words st) <= 1)%nat ->
  served respond (w_parser st)
    (script_of a ++ (DBRACKET, op1) :: script_of b ++
     (DBRACKET, op2) :: script_of c ++ [(DBRACKET, k)]) ->
  (5 * Nat.max (depth a) (Nat.max (depth b) (depth c)) + 10 <= fuel)%nat ->
  let result := fst (Parse respond reader_errors regex_parse repr_str fuel st) in
  (word_class op1 Id.Op_DAmp Kind.Op -> word_class op2 Id.Op_DAmp Kind.Op ->
   result = Done (BinaryExprNode Id.Op_DAmp (denote a)
                    (BinaryExprNode Id.Op_DAmp (denote b) (denote c)))) /\
  (word_class op1 Id.Op_DPipe Kind.Op -> word_class op2 Id.Op_DPipe Kind.Op ->
   result = Done (BinaryExprNode Id.Op_DPipe (denote a)
                    (BinaryExprNode Id.Op_DPipe (denote b) (denote c)))) /\
  (word_class op1 Id.Op_DPipe Kind.Op -> word_class op2 Id.Op_DAmp Kind.Op ->
   result = Done (BinaryExprNode Id.Op_DPipe (denote a)
                    (BinaryExprNode Id.Op_DAmp (denote b) (denote c)))) /\
  (word_class op1 Id.Op_DAmp Kind.Op -> word_class op2 Id.Op_DPipe Kind.Op ->
   result = Done (BinaryExprNode Id.Op_DPipe
                    (BinaryExprNode Id.Op_DAmp (denote a) (denote b)) (denote c))).
Proof.
  intros [Ha La] [Hb Lb] [Hc Lc] Hfol Hlen Hserved Hfuel result.
  assert (Hparse : forall e,
    well_formed regex_parse e ->
    script_of e ++ [(DBRACKET, k)] =
      script_of a ++ (DBRACKET, op1) :: script_of b ++
      (DBRACKET, op2) :: script_of c ++ [(DBRACKET, k)] ->
    (depth e <= Nat.max (depth a) (Nat.max (depth b) (depth c)) + 2)%nat ->
    result = Done (denote e)).
  { intros e Hwf Hs Hd.
    apply (Parse_complete_run respond reader_errors regex_parse repr_str fuel e k kk st);
      try done; [by rewrite Hs | lia]. }
  repeat split; intros H1 H2.
  - apply (Hparse (XAnd a op1 (XAnd b op2 c))).
    + simpl. intuition lia.
    + unfold script_of. do 3 list_norm. reflexivity.
    + simpl. lia.
  - apply (Hparse (XOr a op1 (XOr b op2 c))).
    + simpl. intuition lia.
    + unfold script_of. do 3 list_norm. reflexivity.
    + simpl. lia.
  - apply (Hparse (XOr a op1 (XAnd b op2 c))).
    + simpl. intuition lia.
    + unfold script_of. do 3 list_norm. reflexivity.
    + simpl. lia.
  - apply (Hparse (XOr (XAnd a op1 b) op2 c)).
    + simpl. intuition lia.
    + unfold script_of. do 3 list_norm. reflexivity.
    + simpl. lia.
Qed.

Lemma C7_chains_lean_right_witness :
  fst (Parse_words and_chain_example (fun _ => true) 15) =
  Done (BinaryExprNode Id.Op_DAmp (NWord a_word)
          (BinaryExprNode Id.Op_DAmp (NWord b_word) (NWord c_word))).
Proof.
  assert (Hw : forall s, operand (fun _ => true) (XWord (literal_word Id.Lit_Chars s))).
  { intros s. split; [|simpl; lia]. simpl. class_solve. }
  assert (Hamp : word_class amp_word Id.Op_DAmp Kind.Op) by class_solve.
  refine (proj1 (C7_chains_lean_right (list_reader and_chain_example) no_errors
            (fun _ => true) (fun s => s) (XWord a_word) (XWord b_word) (XWord c_word)
            amp_word amp_word end_word 5 15 BoolParser_init
            (Hw "a") (Hw "b") (Hw "c") _ _ _ _) Hamp Hamp).
  - class_solve.
  - simpl. lia.
  - simpl. repeat split; reflexivity.
  - simpl. lia.
Defined.

(** C2: the right operand of [=~] is read under [BASH_REGEX] and checked as
    a regex.  For [ParseFactor] at a word [l] followed by a binary operator
    word [op] and a right operand [r]: [r] is requested under [BASH_REGEX]
    exactly when the Id of [op] is [BoolBinary_EqualTilde], and under
    [DBRACKET] otherwise.  For [=~]: if [r] evaluates statically to a string
    that is not a valid regex, [ParseFactor] returns [None] with one
    ["Invalid regex"] record pushed; if the static evaluation of [r] fails,
    the Binary node is built whatever the regex checker would say; if it
    gives a valid regex, the Binary node is built.  For another operator the
    Binary node is built with all three reads under [DBRACKET].  And over a
    whole well-formed expression, [Parse] requests under [BASH_REGEX] only
    right operands of [=~]; and on [l =~ r] with [r] an invalid regex,
    [Parse] returns [None] with the ["Invalid regex"] record pushed first. *)
Theorem C2_regex_right_operand
    (respond : list LexMode -> option Word)
    (reader_errors : list LexMode -> list ErrorContext)
    (regex_parse : string -> bool) (repr_str : string -> string) :
  (forall (fuel : nat) (l op r : Word) (oi ok ri rk : N) (st : BoolParser),
     let run := ParseFactor respond reader_errors regex_parse repr_str (S (S fuel)) st in
     positioned st l -> word_class l Id.Word_Compound Kind.Word ->
     word_class op oi ok -> ok = Kind.BoolBinary \/ ok = Kind.Redir ->
     word_class r ri rk ->
     served respond (w_parser st) [(DBRACKET, op); (right_operand_mode op, r)] ->
     (right_operand_mode op = BASH_REGEX <-> oi = Id.BoolBinary_EqualTilde) /\
     (right_operand_mode op = DBRACKET <-> oi <> Id.BoolBinary_EqualTilde) /\
     (oi = Id.BoolBinary_EqualTilde ->
      forall s q, EvalStatic r = Ok (true, s, q) -> regex_parse s = false ->
        fst run = Done NNone /\
        w_parser (snd run) = w_parser st ++ [DBRACKET; BASH_REGEX] /\
        error_stack (snd run) = error_stack st ++ [invalid_regex_error repr_str s r]) /\
     (forall k ki kk,
        word_class k ki kk ->
        served respond (w_parser st)
          [(DBRACKET, op); (right_operand_mode op, r); (DBRACKET, k)] ->
        (oi = Id.BoolBinary_EqualTilde ->
         forall s q, EvalStatic r = Ok (false, s, q) ->
           binary_built run st l oi BASH_REGEX r) /\
        (oi = Id.BoolBinary_EqualTilde ->
         forall s q, EvalStatic r = Ok (true, s, q) -> regex_parse s = true ->
           binary_built run st l oi BASH_REGEX r) /\
        (oi <> Id.BoolBinary_EqualTilde ->
           binary_built run st l oi DBRACKET r))) /\
  (forall (fuel : nat) (e : bexp) (k : Word) (kk : N) (st : BoolParser),
     let run := Parse respond reader_errors regex_parse repr_str fuel st in
     well_formed regex_parse e -> follows PExpr k Id.Lit_DRightBracket kk ->
     (length (words st) <= 1)%nat ->
     served respond (w_parser st) (script_of e ++ [(DBRACKET, k)]) ->
     (5 * depth e <= fuel)%nat ->
     fst run = Done (denote e) /\
     w_parser (snd run) = w_parser st ++ map fst (script_of e ++ [(DBRACKET, k)]) /\
     (forall w, In (BASH_REGEX, w) (script_of e ++ [(DBRACKET, k)]) ->
                In w (regex_operands e))) /\
  (forall (fuel : nat) (l op r : Word) (ri rk : N) (s : string) (q : bool)
          (st : BoolParser),
     let run := Parse respond reader_errors regex_parse repr_str fuel st in
     (5 <= fuel)%nat -> (length (words st) <= 1)%nat ->
     served respond (w_parser st) [(DBRACKET, l); (DBRACKET, op); (BASH_REGEX, r)] ->
     word_class l Id.Word_Compound Kind.Word ->
     BoolId op = Ok Id.BoolBinary_EqualTilde ->
     word_class r ri rk ->
     EvalStatic r = Ok (true, s, q) -> regex_parse s = false ->
     fst run = Done NNone /\
     exists rest,
       error_stack (snd run) =
       error_stack st ++ invalid_regex_error repr_str s r :: rest).
Proof.
  split; [|split]; cycle 2.
  { intros fuel l op r ri rk s q st run Hfuel Hlen Hserved Hl Hop Hr Hev Hbad.
    destruct (Parse_invalid_regex respond reader_errors regex_parse repr_str
                fuel l op r ri rk s q st Hfuel Hlen Hserved Hl Hop Hr Hev Hbad)
      as (st' & rest & Hrun & He).
    subst run. rewrite Hrun. split; [done|]. by exists rest. }
  - intros fuel l op r oi ok ri rk st run Hpos Hl Hop Hok Hr Hserved.
    assert (Hid : word_id op = oi) by (unfold word_id; by rewrite (proj1 Hop)).
    assert (Hmode : right_operand_mode op =
              if oi =? Id.BoolBinary_EqualTilde then BASH_REGEX else DBRACKET).
    { unfold right_operand_mode. by rewrite Hid. }
    assert (Hrun : run = ParseFactor_body respond reader_errors regex_parse repr_str
              (S fuel) (parse respond reader_errors regex_parse repr_str (S fuel) PExpr) st)
      by reflexivity.
    assert (Hbuilt : forall k ki kk,
      word_class k ki kk ->
      served respond (w_parser st)
        [(DBRACKET, op); (right_operand_mode op, r); (DBRACKET, k)] ->
      (oi = Id.BoolBinary_EqualTilde -> regex_accepted regex_parse r) ->
      binary_built run st l oi (right_operand_mode op) r).
    { intros k ki kk Hk Hs Hacc. unfold binary_built. rewrite Hrun.
      rewrite (factor_binary respond reader_errors regex_parse repr_str
                 (S fuel) _ l op oi ok r ri rk k ki kk st); try done; [|lia].
      simpl. split; [done|]. split; [|done]. by rewrite <- !app_assoc. }
    split; [|split; [|split]].
    + rewrite Hmode. destruct (oi =? Id.BoolBinary_EqualTilde) eqn:E.
      * apply N.eqb_eq in E. done.
      * apply N.eqb_neq in E. split; [discriminate|done].
    + rewrite Hmode. destruct (oi =? Id.BoolBinary_EqualTilde) eqn:E.
      * apply N.eqb_eq in E. split; [discriminate|done].
      * apply N.eqb_neq in E. done.
    + intros -> s q Hev Hbad. rewrite Hmode in Hserved. simpl in Hserved.
      rewrite Hrun.
      rewrite (factor_binary_invalid_regex respond reader_errors regex_parse repr_str
                 (S fuel) _ l op r ri rk s q st); try done; [|lia|by destruct Hop].
      simpl. split; [done|]. split; [|done]. by rewrite <- !app_assoc.
    + intros k ki kk Hk Hs. split; [|split].
      * intros -> s q Hev. rewrite Hmode in Hbuilt, Hs. simpl in Hbuilt, Hs.
        apply (Hbuilt k ki kk Hk Hs). intros _. exists false, s, q. done.
      * intros -> s q Hev Hgood. rewrite Hmode in Hbuilt, Hs. simpl in Hbuilt, Hs.
        apply (Hbuilt k ki kk Hk Hs). intros _. exists true, s, q. done.
      * intros Hne. rewrite Hmode in Hbuilt, Hs. apply N.eqb_neq in Hne.
        rewrite Hne in Hbuilt, Hs. apply (Hbuilt k ki kk Hk Hs).
        apply N.eqb_neq in Hne. done.
  - intros fuel e k kk st run Hwf Hfol Hlen Hserved Hfuel.
    destruct (Parse_complete_run respond reader_errors regex_parse repr_str
                fuel e k kk st Hwf Hfol Hlen Hserved Hfuel) as (Hn & Hw & _).
    split; [done|]. split; [done|]. intros w. apply script_modes.
Qed.

Lemma C2_regex_right_operand_witness :
  let run := ParseFactor (list_reader regex_operand_example) no_errors
               (fun _ => false) (fun s => s) 2 at_a_word in
  fst run = Done NNone /\
  w_parser (snd run) = w_parser at_a_word ++ [DBRACKET; BASH_REGEX] /\
  error_stack (snd run) =
    error_stack at_a_word ++ [invalid_regex_error (fun s => s) "b" b_word].
Proof.
  refine (proj1 (proj2 (proj2
    (proj1 (C2_regex_right_operand (list_reader regex_operand_example) no_errors
              (fun _ => false) (fun s => s))
       0%nat a_word regex_op_word b_word
       Id.BoolBinary_EqualTilde Kind.BoolBinary Id.Word_Compound Kind.Word
       at_a_word _ _ _ _ _ _))) eq_refl "b" false _ eq_refl).
  - class_solve.
  - class_solve.
  - class_solve.
  - by left.
  - class_solve.
  - class_solve.
  - vm_compute. reflexivity.
Defined.

(** C1: a stray operator, a missing operand, two operators in a row and a
    missing closing parenthesis are signalled by an exception, not by an
    error record.  On [&& a ]]], on [a && ]]] and on [a && && b ]]] the run
    of [Parse] ends in the [AssertionError] of the last line of
    [ParseFactor], and on [( a ]]] in its [RuntimeError]; in all four runs
    [Parse] does not return [None] and the error stack stays empty. *)
Theorem C1_malformed_input_raises :
  ((exists msg, fst (Parse_words stray_operator_example (fun _ => true) 10) =
                Raised (AssertionError msg)) /\
   error_stack (snd (Parse_words stray_operator_example (fun _ => true) 10)) = []) /\
  ((exists msg, fst (Parse_words missing_operand_example (fun _ => true) 10) =
                Raised (AssertionError msg)) /\
   error_stack (snd (Parse_words missing_operand_example (fun _ => true) 10)) = []) /\
  ((exists msg, fst (Parse_words double_operator_example (fun _ => true) 10) =
                Raised (AssertionError msg)) /\
   error_stack (snd (Parse_words double_operator_example (fun _ => true) 10)) = []) /\
  ((exists msg, fst (Parse_words unbalanced_example (fun _ => true) 10) =
                Raised (RuntimeError msg)) /\
   error_stack (snd (Parse_words unbalanced_example (fun _ => true) 10)) = []).
Proof.
  repeat split; try (eexists; vm_compute; reflexivity); vm_compute; reflexivity.
Qed.

(** X21: [Parse] never returns [None] silently.  With a reader that leaves
    at least one error for every read that fails, whenever [Parse] returns
    [None] the error stack has grown by at least one record, whatever the
    words, the fuel and the parser it started from. *)
Theorem Parse_None_reports_error
    (respond : list LexMode -> option Word)
    (reader_errors : list LexMode -> list ErrorContext)
    (regex_parse : string -> bool) (repr_str : string -> string)
    (fuel : nat) (st : BoolParser) :
  reader_reports_errors respond reader_errors ->
  fst (Parse respond reader_errors regex_parse repr_str fuel st) = Done NNone ->
  grows_strictly (error_stack st)
    (error_stack (snd (Parse respond reader_errors regex_parse repr_str fuel st))).
Proof.
  intros Hreader Hnone.
  pose proof (Parse_errors respond reader_errors regex_parse repr_str Hreader fuel st)
    as H.
  unfold wp in H. rewrite Hnone in H. by apply H.
Qed.

Lemma Parse_None_reports_error_witness :
  grows_strictly (error_stack BoolParser_init)
    (error_stack (snd (Parse (short_reader [z_word]) eof_errors (fun _ => true)
                         (fun s => s) 5 BoolParser_init))).
Proof.
  apply (Parse_None_reports_error (short_reader [z_word]) eof_errors (fun _ => true)
           (fun s => s) 5 BoolParser_init).
  - intros h _. discriminate.
  - vm_compute. reflexivity.
Defined.

(** X22: a word left over is reported.  A well-formed expression followed
    by a word [k] other than []]] that may follow an expression (a word
    [_Next] stops at that is not [&&], not [||] and not of Kind
    [BoolBinary] or [Redir]) makes [Parse] return [None] with exactly one
    record appended to the error stack, the ["Unexpected extra word"] record
    of [k]. *)
Theorem Parse_reports_extra_word
    (respond : list LexMode -> option Word)
    (reader_errors : list LexMode -> list ErrorContext)
    (regex_parse : string -> bool) (repr_str : string -> string)
    (fuel : nat) (e : bexp) (k : Word) (ki kk : N) (st : BoolParser) :
  well_formed regex_parse e -> follows PExpr k ki kk ->
  ki <> Id.Lit_DRightBracket ->
  (length (words st) <= 1)%nat ->
  served respond (w_parser st) (script_of e ++ [(DBRACKET, k)]) ->
  (5 * depth e <= fuel)%nat ->
  exists st',
    Parse respond reader_errors regex_parse repr_str fuel st = (Done NNone, st') /\
    error_stack st' = error_stack st ++ [extra_word_error k].
Proof.
  exact (Parse_extra_word respond reader_errors regex_parse repr_str fuel e k ki kk st).
Qed.

Lemma Parse_reports_extra_word_witness :
  exists st',
    Parse (list_reader extra_word_example) no_errors (fun _ => true) (fun s => s)
      5 BoolParser_init = (Done NNone, st') /\
    error_stack st' = error_stack BoolParser_init ++ [extra_word_error b_word].
Proof.
  apply (Parse_reports_extra_word (list_reader extra_word_example) no_errors
           (fun _ => true) (fun s => s) 5 (XWord a_word) b_word
           Id.Word_Compound Kind.Word).
  - class_solve.
  - class_solve.
  - class_solve.
  - simpl. lia.
  - simpl. repeat split; reflexivity.
  - simpl. lia.
Defined.

(** ** What a registration does *)

Lemma same_ids_refl spec : same_ids spec spec.
Proof. by repeat split. Qed.

Lemma token_name_of_inj kind_name a b :
  token_name_of kind_name a = token_name_of kind_name b -> a = b.
Proof.
  unfold token_name_of. induction kind_name as [|c kn IH].
  - change (String "_" a = String "_" b -> a = b). by intros [= ->].
  - rewrite !append_cons. intros [= H]. by apply IH.
Qed.

Lemma registered_app kind_name names1 names2 spec spec1 spec' :
  registered kind_name names1 spec spec1 ->
  registered kind_name names2 spec1 spec' ->
  registered kind_name (names1 ++ names2) spec spec'.
Proof.
  induction 1 as [s s1 Hs|name names s s1 s2 Hs _ IH]; intros H2.
  - simpl. destruct Hs as (E1 & E2 & E3 & E4 & E5 & E6 & E7 & E8).
    inversion H2 as [a b Hab|name names a b c Hab Hrest]; subst.
    + constructor. destruct Hab as (F1 & F2 & F3 & F4 & F5 & F6 & F7 & F8).
      repeat split; congruence.
    + econstructor; [|exact Hrest].
      destruct Hab as (F1 & F2 & F3 & F4 & F5 & F6 & F7 & F8).
      unfold same_ids, _AddId in *. simpl in *. repeat split; congruence.
  - simpl. econstructor; [exact Hs|]. by apply IH.
Qed.

Lemma AddKind_ids_registered kind_name tokens spec :
  registered kind_name tokens spec (AddKind_ids kind_name tokens spec) /\
  bool_ops (AddKind_ids kind_name tokens spec) = bool_ops spec.
Proof.
  revert spec. induction tokens as [|name tokens IH]; intros spec; simpl.
  - split; [constructor; apply same_ids_refl | done].
  - destruct (IH (_AddId (token_name_of kind_name name) spec)) as [Hr Hb].
    split; [|by rewrite Hb]. econstructor; [apply same_ids_refl | exact Hr].
Qed.

Lemma AddKindPairs_ids_registered kind_name pairs acc spec :
  registered kind_name (map fst pairs) spec (AddKindPairs_ids kind_name pairs acc spec).2 /\
  bool_ops (AddKindPairs_ids kind_name pairs acc spec).2 = bool_ops spec /\
  (AddKindPairs_ids kind_name pairs acc spec).1 = acc ++ lexer_rows (token_index spec) pairs.
Proof.
  revert acc spec. induction pairs as [|[name pat] pairs IH]; intros acc spec; simpl.
  - split; [constructor; apply same_ids_refl|]. by rewrite app_nil_r.
  - destruct (IH (acc ++ [(false, pat, token_index spec + 1)])
                (_AddId (token_name_of kind_name name) spec)) as (Hr & Hb & Hl).
    split; [econstructor; [apply same_ids_refl | exact Hr]|].
    split; [by rewrite Hb|]. rewrite Hl. simpl. by rewrite <- app_assoc.
Qed.

Lemma ops_added_nil spec spec' :
  bool_ops spec' = bool_ops spec -> ops_added [] spec spec'.
Proof. intros E. split; [done|]. intros i _. by rewrite E. Qed.

Lemma AddBoolKind_pairs_registered kind_name arg_type pairs acc spec :
  let r := AddBoolKind_pairs kind_name arg_type pairs acc spec in
  registered kind_name (map fst pairs) spec r.2 /\
  ops_added (map (fun _ => arg_type) pairs) spec r.2 /\
  r.1 = acc ++ lexer_rows (token_index spec) pairs.
Proof.
  cbv zeta. revert acc spec.
  induction pairs as [|[name pat] pairs IH]; intros acc spec.
  - simpl. split; [constructor; apply same_ids_refl|].
    split; [by apply ops_added_nil | by rewrite app_nil_r].
  - cbn [AddBoolKind_pairs].
    set (spec1 := _AddId (token_name_of kind_name name) spec).
    set (spec2 := AddBoolOp (token_index spec1) arg_type spec1).
    assert (Hti : token_index spec2 = token_index spec + 1) by reflexivity.
    destruct (IH (acc ++ [(false, pat, token_index spec2)]) spec2) as (Hr & [Ho Hf] & Hl).
    split; [|split].
    + cbn [map fst]. econstructor; [|exact Hr]. by repeat split.
    + split.
      * intros [|k] t Ht; simpl in Ht.
        { injection Ht as <-. rewrite Hf; [|left; lia].
          replace (token_index spec + 1 + N.of_nat 0) with (token_index spec + 1) by lia.
          apply lookup_insert_eq. }
        { specialize (Ho k t Ht). rewrite Hti in Ho.
          replace (token_index spec + 1 + N.of_nat (S k))
            with (token_index spec + 1 + 1 + N.of_nat k) by lia. exact Ho. }
      * intros i Hi. cbn [map length] in Hi. rewrite length_map in Hi.
        rewrite Hf; [|rewrite length_map; lia].
        apply lookup_insert_ne. change (token_index spec1) with (token_index spec + 1). lia.
    + rewrite Hl, Hti. cbn [lexer_rows]. by rewrite <- app_assoc.
Qed.

Lemma registered_token_index kind_name names spec spec' :
  registered kind_name names spec spec' ->
  token_index spec' = token_index spec + N.of_nat (length names).
Proof.
  induction 1 as [s s1 Hs|name names s s1 s2 Hs _ IH].
  - destruct Hs as (_ & _ & _ & _ & _ & _ & E & _). simpl. lia.
  - destruct Hs as (_ & _ & _ & _ & _ & _ & E & _). simpl in E.
    rewrite IH, <- E. simpl length. lia.
Qed.

Lemma ops_added_app types1 types2 spec spec1 spec' :
  token_index spec1 = token_index spec + N.of_nat (length types1) ->
  ops_added types1 spec spec1 -> ops_added types2 spec1 spec' ->
  ops_added (types1 ++ types2) spec spec'.
Proof.
  intros Ht [Ho1 Hf1] [Ho2 Hf2]. split.
  - intros k t Hk. apply lookup_app_Some in Hk as [Hk|[Hlen Hk]].
    + rewrite Hf2; [by apply Ho1|]. left. rewrite Ht.
      apply lookup_lt_Some in Hk. lia.
    + specialize (Ho2 _ _ Hk). rewrite Ht in Ho2.
      replace (token_index spec + 1 + N.of_nat k)
        with (token_index spec + N.of_nat (length types1) + 1 +
              N.of_nat (k - length types1)) by lia.
      exact Ho2.
  - intros i Hi. rewrite length_app in Hi. rewrite Hf2, Hf1; [done| |]; rewrite ?Ht; lia.
Qed.

Lemma AddBoolKind_items_registered kind_name items acc num_tokens spec :
  let r := AddBoolKind_items kind_name items acc num_tokens spec in
  registered kind_name (map fst (all_pairs items)) spec r.2 /\
  ops_added (all_types items) spec r.2 /\
  r.1.1 = acc ++ lexer_rows (token_index spec) (all_pairs items) /\
  r.1.2 = (num_tokens + length (all_pairs items))%nat.
Proof.
  cbv zeta. revert acc num_tokens spec.
  induction items as [|[arg_type pairs] items IH]; intros acc num_tokens spec.
  - simpl. split; [constructor; apply same_ids_refl|].
    split; [by apply ops_added_nil|]. split; [by rewrite app_nil_r | lia].
  - cbn [AddBoolKind_items].
    pose proof (AddBoolKind_pairs_registered kind_name arg_type pairs acc spec) as Hp.
    cbv zeta in Hp.
    destruct (AddBoolKind_pairs kind_name arg_type pairs acc spec) as [acc' spec1].
    simpl in Hp. destruct Hp as (Hr1 & Ho1 & Hl1).
    destruct (IH acc' (num_tokens + length pairs)%nat spec1) as (Hr2 & Ho2 & Hl2 & Hn2).
    pose proof (registered_token_index _ _ _ _ Hr1) as Hti. rewrite length_map in Hti.
    unfold all_pairs, all_types. simpl. fold (all_pairs items). fold (all_types items).
    split; [|split; [|split]].
    + rewrite map_app. by eapply registered_app.
    + eapply ops_added_app; [|exact Ho1|exact Ho2]. by rewrite length_map.
    + rewrite Hl2, Hl1, <- app_assoc. f_equal.
      clear -Hti. revert spec spec1 Hti.
      induction pairs as [|[n p] pairs IHp]; intros spec spec1 Hti; simpl.
      * simpl in Hti. f_equal. lia.
      * f_equal. apply (IHp (_AddId "" spec)). simpl. simpl in Hti. lia.
    + rewrite Hn2, length_app. lia.
Qed.

Lemma registered_ids_added kind_name names spec spec' :
  registered kind_name names spec spec' ->
  ids_added kind_name names spec spec' /\
  kind_index spec' = kind_index spec /\ kind_enum spec' = kind_enum spec /\
  kind_sizes spec' = kind_sizes spec /\ lexer_pairs spec' = lexer_pairs spec.
Proof.
  induction 1 as [s s1 Hs|name names s s1 s2 Hs Hreg IH].
  - destruct Hs as (E1 & E2 & E3 & E4 & E5 & E6 & E7 & E8).
    split; [|by repeat split].
    split; [simpl; lia|]. split; [done|].
    split; [intros i _; by rewrite E3, E4|].
    split; [intros nm _; by rewrite E1|]. intros nm i H. left. by rewrite E1.
  - destruct Hs as (E1 & E2 & E3 & E4 & E5 & E6 & E7 & E8).
    simpl in E1, E2, E3, E4, E5, E6, E7, E8.
    destruct IH as ((Hti & Hnew & Hold & Hfresh & Hrange) & K1 & K2 & K3 & K4).
    split; [|repeat split; congruence].
    split; [rewrite Hti, <- E7; cbn [length]; lia|]. split; [|split; [|split]].
    + intros [|k] nm Hk; simpl in Hk.
      * injection Hk as <-. cbv zeta.
        replace (token_index s + 1 + N.of_nat 0) with (token_index s + 1) by lia.
        destruct (Hold (token_index s + 1)) as [Hn Hk]; [left; lia|].
        rewrite Hn, Hk, <- E3, <- E4, !lookup_insert_eq.
        split; [done|]. split; [done|]. intros Hnd.
        apply NoDup_cons in Hnd as [Hnotin _].
        rewrite Hfresh, <- E1; [apply lookup_insert_eq|].
        intros name' Hin Heq. apply token_name_of_inj in Heq. by subst name'.
      * destruct (Hnew k nm Hk) as (Hn & Hkk & Hid). cbv zeta.
        replace (token_index s + 1 + N.of_nat (S k))
          with (token_index s1 + 1 + N.of_nat k) by lia.
        split; [done|]. split; [congruence|]. intros Hnd.
        apply NoDup_cons in Hnd as [_ Hnd]. by apply Hid.
    + intros i Hi. destruct (Hold i) as [Hn Hk]; [lia|].
      rewrite Hn, Hk, <- E3, <- E4, !lookup_insert_ne; [done|lia|lia].
    + intros nm Hnm. rewrite Hfresh, <- E1.
      * apply lookup_insert_ne. intros E. apply (Hnm name); [left|done].
      * intros name' Hin. apply Hnm. by right.
    + intros nm i Hi. apply Hrange in Hi as [Hi|Hi]; [|right; lia].
      rewrite <- E1 in Hi. apply lookup_insert_Some in Hi as [[_ <-]|[_ Hi]];
        [right; lia | by left].
Qed.

(** The three registration methods, each as a registration of one Kind. *)
Lemma Add_kind_effect (kind_name : string) (spec : IdSpec) :
  (forall tokens,
      let spec' := AddKind kind_name tokens spec in
      registers_kind kind_name tokens spec spec' /\
      lexer_pairs spec' = lexer_pairs spec /\ bool_ops spec' = bool_ops spec) /\
  (forall pairs,
      let spec' := AddKindPairs kind_name pairs spec in
      registers_kind kind_name (map fst pairs) spec spec' /\
      lexer_pairs spec' =
        <[kind_index spec := lexer_rows (token_index spec) pairs]> (lexer_pairs spec) /\
      bool_ops spec' = bool_ops spec) /\
  (forall items,
      let spec' := AddBoolKind kind_name items spec in
      registers_kind kind_name (map fst (all_pairs items)) spec spec' /\
      lexer_pairs spec' =
        <[kind_index spec := lexer_rows (token_index spec) (all_pairs items)]>
          (lexer_pairs spec) /\
      ops_added (all_types items) spec spec').
Proof.
  split; [|split].
  - intros tokens spec'. subst spec'. unfold AddKind.
    destruct (AddKind_ids_registered kind_name tokens spec) as [Hr Hb].
    apply registered_ids_added in Hr as (Hids & K1 & K2 & K3 & K4).
    split; [|by split].
    split; [exact Hids|]. simpl. rewrite K1, K2, K3. done.
  - intros pairs spec'. subst spec'. unfold AddKindPairs.
    destruct (AddKindPairs_ids_registered kind_name pairs [] spec) as (Hr & Hb & Hl).
    destruct (AddKindPairs_ids kind_name pairs [] spec) as [lp spec1].
    simpl in Hr, Hb, Hl. subst lp.
    apply registered_ids_added in Hr as (Hids & K1 & K2 & K3 & K4).
    split; [|split; [simpl; by rewrite K1, K4 | done]].
    split; [exact Hids|]. simpl. rewrite K1, K2, K3, length_map. done.
  - intros items spec'. subst spec'. unfold AddBoolKind.
    pose proof (AddBoolKind_items_registered kind_name items [] 0%nat spec) as H.
    cbv zeta in H.
    destruct (AddBoolKind_items kind_name items [] 0%nat spec) as [[lp n] spec1].
    simpl in H. destruct H as (Hr & Ho & Hl & Hn). subst lp n.
    apply registered_ids_added in Hr as (Hids & K1 & K2 & K3 & K4).
    split; [|split; [simpl; by rewrite K1, K4 | done]].
    split; [exact Hids|]. simpl. rewrite K1, K2, K3, length_map. done.
Qed.

(** X1: each of [AddKind], [AddKindPairs] and [AddBoolKind], on any
    instance and any arguments, registers one Kind: the Ids of the names
    given are the next integers after [token_index], in the order given,
    each named [<kind>_<name>] and mapped to the new Kind, which takes the
    next Kind number; the Ids and Kinds there were are untouched; an
    attribute of [Id] is found under its name when the names are distinct.
    [AddKindPairs] and [AddBoolKind] store under the new Kind the lexer
    table of the patterns with their Ids, in order, and [AddBoolKind] gives
    each new Id the operand type its pair stands under; [AddKind] leaves
    both tables alone. *)
Theorem Add_registers_kind (kind_name : string) (spec : IdSpec) :
  (forall tokens,
      let spec' := AddKind kind_name tokens spec in
      registers_kind kind_name tokens spec spec' /\
      lexer_pairs spec' = lexer_pairs spec /\ bool_ops spec' = bool_ops spec) /\
  (forall pairs,
      let spec' := AddKindPairs kind_name pairs spec in
      registers_kind kind_name (map fst pairs) spec spec' /\
      lexer_pairs spec' =
        <[kind_index spec := lexer_rows (token_index spec) pairs]> (lexer_pairs spec) /\
      bool_ops spec' = bool_ops spec) /\
  (forall items,
      let spec' := AddBoolKind kind_name items spec in
      registers_kind kind_name (map fst (all_pairs items)) spec spec' /\
      lexer_pairs spec' =
        <[kind_index spec := lexer_rows (token_index spec) (all_pairs items)]>
          (lexer_pairs spec) /\
      ops_added (all_types items) spec spec').
Proof. exact (Add_kind_effect kind_name spec). Qed.

Lemma registers_kind_ok kind_name names spec spec' :
  registry_ok spec -> registers_kind kind_name names spec spec' -> registry_ok spec'.
Proof.
  intros (Hn & Hk & Hb & Hm & Hi & Hke & Hl & Hs)
         ((Hti & Hnew & Hold & _ & Hrange) & Hki & Hkenum & Hsizes).
  assert (Hin : forall i, token_index spec < i <= token_index spec' ->
            exists (k : nat) name, names !! k = Some name /\
                                   i = token_index spec + 1 + N.of_nat k).
  { intros i Hi'.
    destruct (lookup_lt_is_Some_2 names (N.to_nat (i - token_index spec - 1)))
      as [name Hname]; [lia|].
    exists (N.to_nat (i - token_index spec - 1)), name. split; [done | lia]. }
  assert (Hkind : forall i k, kind_lookup spec' !! i = Some k ->
            (token_index spec < i <= token_index spec' /\ k = kind_index spec) \/
            (i <= token_index spec /\ kind_lookup spec !! i = Some k)).
  { intros i k Hik.
    destruct (decide (token_index spec < i <= token_index spec')) as [Hr|Hr].
    - left. split; [done|]. destruct (Hin i Hr) as (j & name & Hj & ->).
      destruct (Hnew j name Hj) as (_ & Hkj & _). cbv zeta in Hkj. congruence.
    - right. destruct (Hold i) as [_ Ho]; [lia|]. rewrite Ho in Hik.
      split; [|done]. assert (is_Some (kind_lookup spec !! i)) as Hsome by done.
      apply Hk in Hsome. lia. }
  split.
  { intros i. split.
    - intros Hsome. destruct (decide (token_index spec < i <= token_index spec')) as [Hr|Hr];
        [lia|].
      destruct (Hold i) as [Ho _]; [lia|]. rewrite Ho in Hsome. apply Hn in Hsome. lia.
    - intros [H1 H2]. destruct (decide (token_index spec < i)) as [Hr|Hr].
      + destruct (Hin i) as (j & name & Hj & ->); [lia|].
        destruct (Hnew j name Hj) as (Hnm & _). cbv zeta in Hnm. by rewrite Hnm.
      + destruct (Hold i) as [Ho _]; [lia|]. rewrite Ho. apply Hn. lia. }
  split.
  { intros i. split.
    - intros [k Hik]. apply Hkind in Hik as [[Hr _]|[Hr Hik]]; [lia|].
      assert (is_Some (kind_lookup spec !! i)) as Hsome by done. apply Hk in Hsome. lia.
    - intros [H1 H2]. destruct (decide (token_index spec < i)) as [Hr|Hr].
      + destruct (Hin i) as (j & name & Hj & ->); [lia|].
        destruct (Hnew j name Hj) as (_ & Hkj & _). cbv zeta in Hkj. by rewrite Hkj.
      + destruct (Hold i) as [_ Ho]; [lia|]. rewrite Ho. apply Hk. lia. }
  split.
  { intros i k Hik. apply Hkind in Hik as [[_ ->]|[_ Hik]]; [lia|].
    apply Hb in Hik. lia. }
  split.
  { intros i j ki kj Hij Hi' Hj'.
    apply Hkind in Hi' as [[Hri ->]|[Hri Hi']]; apply Hkind in Hj' as [[Hrj ->]|[Hrj Hj']].
    + lia.
    + lia.
    + apply Hb in Hi'. lia.
    + by apply (Hm i j). }
  split.
  { intros nm i Hid. apply Hrange in Hid as [Hid|Hid]; [apply Hi in Hid|]; lia. }
  split.
  { intros nm k Hnk. rewrite Hkenum in Hnk.
    apply lookup_insert_Some in Hnk as [[_ <-]|[_ Hnk]]; [lia|]. apply Hke in Hnk. lia. }
  split.
  - rewrite Hsizes, length_app. simpl. lia.
  - rewrite Hsizes, list_sum_app. simpl. lia.
Qed.

Lemma AddKind_ok kind_name tokens spec :
  registry_ok spec -> registry_ok (AddKind kind_name tokens spec).
Proof.
  intros H. eapply registers_kind_ok; [exact H | apply (proj1 (Add_kind_effect _ _))].
Qed.

Lemma AddKindPairs_ok kind_name pairs spec :
  registry_ok spec -> registry_ok (AddKindPairs kind_name pairs spec).
Proof.
  intros H. eapply registers_kind_ok;
    [exact H | apply (proj1 (proj2 (Add_kind_effect _ _)))].
Qed.

Lemma AddBoolKind_ok kind_name items spec :
  registry_ok spec -> registry_ok (AddBoolKind kind_name items spec).
Proof.
  intros H. eapply registers_kind_ok;
    [exact H | apply (proj2 (proj2 (Add_kind_effect _ _)))].
Qed.

Lemma AddBoolOp_ok id_ arg_type spec :
  registry_ok spec -> registry_ok (AddBoolOp id_ arg_type spec).
Proof. intros H. exact H. Qed.

Lemma _AddKinds_ok spec : registry_ok spec -> registry_ok (_AddKinds spec).
Proof.
  intros H. unfold _AddKinds. cbv zeta.
  do 4 apply AddKind_ok. do 4 apply AddKindPairs_ok. do 11 apply AddKind_ok.
  exact H.
Qed.

Lemma gmap_eq_by_list {K V} `{Countable K} (m1 m2 : gmap K V) :
  map_to_list m1 = map_to_list m2 -> m1 = m2.
Proof.
  intros E. rewrite <- (list_to_map_to_list m1), <- (list_to_map_to_list m2).
  by rewrite E.
Qed.

(** [ID_SPEC] is the instance after the two [AddBoolKind] calls, up to
    [bool_ops]. *)
Lemma ID_SPEC_same_ids : same_ids bool_kinds_added ID_SPEC.
Proof.
  unfold same_ids.
  split; [apply gmap_eq_by_list; vm_compute; reflexivity|].
  split; [apply gmap_eq_by_list; vm_compute; reflexivity|].
  split; [apply gmap_eq_by_list; vm_compute; reflexivity|].
  split; [apply gmap_eq_by_list; vm_compute; reflexivity|].
  split; [vm_compute; reflexivity|].
  split; [apply gmap_eq_by_list; vm_compute; reflexivity|].
  split; [vm_compute; reflexivity|]. vm_compute; reflexivity.
Qed.

Lemma same_ids_ok a b : same_ids a b -> registry_ok a -> registry_ok b.
Proof.
  intros (E1 & E2 & E3 & E4 & E5 & E6 & E7 & E8). unfold registry_ok.
  rewrite E1, E2, E3, E4, E5, E7, E8. done.
Qed.

Lemma IdSpec_init_ok : registry_ok IdSpec_init.
Proof.
  unfold registry_ok. simpl.
  split. { intros i. rewrite lookup_empty. split; [by intros [x Hx] | lia]. }
  split. { intros i. rewrite lookup_empty. split; [by intros [x Hx] | lia]. }
  split. { intros i k. by rewrite lookup_empty. }
  split. { intros i j ki kj _. by rewrite lookup_empty. }
  split. { intros nm i. by rewrite lookup_empty. }
  split. { intros nm k. by rewrite lookup_empty. }
  done.
Qed.

(** X2: the invariant of the registry.  It holds of the empty instance and
    each registration call keeps it, whatever its arguments: the Ids are the
    integers from 1 to [token_index], each with a name and a Kind, and 0 is
    no Id; the Kinds are the integers below [kind_index]; the Kind grows
    with the Id, so the Ids of one Kind are consecutive; the attributes of
    [Id] and [Kind] are in range; [kind_sizes] has one entry per Kind and
    they add up to the number of Ids.  So it holds of [ID_SPEC]. *)
Theorem registry_invariant :
  registry_ok IdSpec_init /\
  (forall kind_name tokens spec,
      registry_ok spec -> registry_ok (AddKind kind_name tokens spec)) /\
  (forall kind_name pairs spec,
      registry_ok spec -> registry_ok (AddKindPairs kind_name pairs spec)) /\
  (forall kind_name items spec,
      registry_ok spec -> registry_ok (AddBoolKind kind_name items spec)) /\
  (forall id_ arg_type spec,
      registry_ok spec -> registry_ok (AddBoolOp id_ arg_type spec)) /\
  registry_ok ID_SPEC.
Proof.
  split; [exact IdSpec_init_ok|].
  split; [exact AddKind_ok|]. split; [exact AddKindPairs_ok|].
  split; [exact AddBoolKind_ok|]. split; [exact AddBoolOp_ok|].
  apply (same_ids_ok _ _ ID_SPEC_same_ids). unfold bool_kinds_added.
  do 2 apply AddBoolKind_ok. apply _AddKinds_ok, IdSpec_init_ok.
Qed.

(** ** The finished registry *)

Lemma names_to_ids :
  forallb (fun ni : string * N =>
             match token_names ID_SPEC !! snd ni with
             | Some n => String.eqb n (fst ni)
             | None => false
             end) (map_to_list (id_enum ID_SPEC)) = true.
Proof. vm_compute. reflexivity. Qed.

Lemma ids_to_names :
  forallb (fun iname : N * string =>
             match id_enum ID_SPEC !! snd iname with
             | Some i => i =? fst iname
             | None => false
             end) (map_to_list (token_names ID_SPEC)) = true.
Proof. vm_compute. reflexivity. Qed.

(** X3: names and integers of the Ids are inverse to each other: the
    attribute [name] of [Id] is [i] exactly when [IdName(i)] is [name]. *)
Theorem IdName_inverse (name : string) (i : N) :
  id_enum ID_SPEC !! name = Some i <-> IdName i = Some name.
Proof.
  unfold IdName. split; intros H.
  - apply elem_of_map_to_list in H.
    pose proof (forallb_elem_of _ _ _ names_to_ids H) as Hrow. simpl in Hrow.
    destruct (token_names ID_SPEC !! i) as [n|]; [|discriminate].
    apply String.eqb_eq in Hrow. by subst n.
  - apply elem_of_map_to_list in H.
    pose proof (forallb_elem_of _ _ _ ids_to_names H) as Hrow. simpl in Hrow.
    destruct (id_enum ID_SPEC !! name) as [j|]; [|discriminate].
    apply N.eqb_eq in Hrow. by subst j.
Qed.

Lemma strip_prefix_sound p s rest : strip_prefix p s = Some rest -> s = p +:+ rest.
Proof.
  revert s. induction p as [|a p IH]; intros s; simpl.
  - by intros [= ->].
  - destruct s as [|b s]; [discriminate|].
    destruct (Ascii.eqb a b) eqn:E; [|discriminate].
    apply Ascii.eqb_eq in E. subst b. intros H. rewrite append_cons.
    f_equal. by apply IH.
Qed.

Lemma first_field_prefix c p rest :
  occurs c p = false -> first_field c (p +:+ String c rest) = p.
Proof.
  induction p as [|a p IH]; cbn [occurs].
  - intros _. rewrite append_nil. cbn [first_field]. by rewrite Ascii.eqb_refl.
  - intros H. apply orb_false_iff in H as [Ha Hp].
    rewrite append_cons. cbn [first_field]. rewrite Ha. f_equal. by apply IH.
Qed.

Lemma kind_is_named_sound (kinds : gmap string N) k kname :
  kind_is_named kinds k kname = true -> kinds !! kname = Some k.
Proof.
  unfold kind_is_named. destruct (kinds !! kname) as [k'|]; [|discriminate].
  intros H. apply N.eqb_eq in H. by subst k'.
Qed.

Lemma ids_prefixed :
  forallb (id_prefixedb (kind_enum ID_SPEC)) (map_to_list (token_names ID_SPEC)) = true.
Proof. vm_compute. reflexivity. Qed.

(** X4: the name of every Id begins with the name of its Kind and an
    underscore, and no Kind's name has an underscore: the Kind of an Id is
    the one named by the text of [IdName] before the first underscore, which
    is how [GenCppCode] finds it ([id_name.split('_')[0]]). *)
Theorem IdName_begins_with_Kind (i k : N) (name : string) :
  IdName i = Some name -> LookupKind i = Some k ->
  exists kname rest,
    kind_enum ID_SPEC !! kname = Some k /\
    name = kname +:+ "_" +:+ rest /\
    first_field "_"%char name = kname.
Proof.
  unfold IdName, LookupKind. intros Hn Hk.
  apply elem_of_map_to_list in Hn.
  pose proof (forallb_elem_of _ _ _ ids_prefixed Hn) as Hrow.
  unfold id_prefixedb in Hrow. cbn [fst snd] in Hrow. rewrite Hk in Hrow.
  apply existsb_exists in Hrow as (kname & _ & Hrow).
  unfold name_prefixedb in Hrow.
  apply andb_true_iff in Hrow as [Hrow Hno].
  apply andb_true_iff in Hrow as [Hkn Hpre].
  apply negb_true_iff in Hno.
  apply kind_is_named_sound in Hkn. rename Hkn into Hkk.
  destruct (strip_prefix (kname +:+ "_") name) as [rest|] eqn:Hs; [|discriminate].
  apply strip_prefix_sound in Hs.
  exists kname, rest. split; [exact Hkk|].
  clear Hn. subst name. rewrite append_assoc.
  change ("_" +:+ rest) with (String "_"%char rest).
  split; [reflexivity|]. apply first_field_prefix. exact Hno.
Qed.

Lemma IdName_begins_with_Kind_witness :
  exists kname rest,
    kind_enum ID_SPEC !! kname = Some Kind.BoolUnary /\
    "BoolUnary_z" = kname +:+ "_" +:+ rest /\
    first_field "_"%char "BoolUnary_z" = kname.
Proof.
  apply (IdName_begins_with_Kind Id.BoolUnary_z Kind.BoolUnary "BoolUnary_z").
  - vm_compute. reflexivity.
  - vm_compute. reflexivity.
Defined.

Lemma nodup_strings_NoDup (l : list string) : nodup_strings l = true -> NoDup l.
Proof.
  induction l as [|x l IH]; simpl; [constructor|].
  intros H. apply andb_true_iff in H as [Hx Hl].
  constructor; [|by apply IH].
  intros Hin. apply negb_true_iff in Hx.
  assert (existsb (String.eqb x) l = true); [|congruence].
  apply existsb_exists. exists x. split; [by apply list_elem_of_In | apply String.eqb_refl].
Qed.

Lemma lexer_tables_ok :
  forallb (lexer_table_okb (kind_enum ID_SPEC)) (map_to_list (lexer_pairs ID_SPEC)) = true.
Proof. vm_compute. reflexivity. Qed.

Lemma ids_in_tables :
  forallb (id_in_tableb (lexer_pairs ID_SPEC)) (map_to_list _ID_TO_KIND) = true.
Proof. vm_compute. reflexivity. Qed.

Lemma kinds_have_tables :
  forallb (kind_has_tableb (kind_enum ID_SPEC) (lexer_pairs ID_SPEC)) lexer_kind_names = true.
Proof. vm_compute. reflexivity. Qed.

Lemma kind_has_tableb_sound (kinds : gmap string N) (pairs : gmap N (list LexerPair))
    kname k :
  kind_has_tableb kinds pairs kname = true -> kinds !! kname = Some k ->
  is_Some (pairs !! k).
Proof.
  unfold kind_has_tableb. intros H Hk. rewrite Hk in H.
  destruct (pairs !! k) as [ps|]; [by exists ps | discriminate].
Qed.

Lemma lexer_table_okb_sound (kinds : gmap string N) kind ps :
  lexer_table_okb kinds (kind, ps) = true ->
  (exists kname, kname ∈ lexer_kind_names /\ kinds !! kname = Some kind) /\
  (forall b pat i, (b, pat, i) ∈ ps -> b = false /\ pat <> "" /\ LookupKind i = Some kind) /\
  NoDup (map snd ps) /\
  NoDup (map (fun p : LexerPair => snd (fst p)) ps).
Proof.
  unfold lexer_table_okb. cbn [fst snd]. intros H.
  apply andb_true_iff in H as [H Hpats].
  apply andb_true_iff in H as [H Hids].
  apply andb_true_iff in H as [Hname Hrows].
  split; [|split; [|split]].
  - apply existsb_exists in Hname as (kname & Hin & Hk).
    exists kname. split; [by apply list_elem_of_In | by apply kind_is_named_sound].
  - intros b pat i Hin.
    pose proof (forallb_elem_of _ _ _ Hrows Hin) as Hrow. cbn [fst snd] in Hrow.
    apply andb_true_iff in Hrow as [Hrow Hk].
    apply andb_true_iff in Hrow as [Hb Hp].
    apply negb_true_iff in Hb. apply negb_true_iff in Hp.
    split; [done|]. split.
    + intros ->. discriminate Hp.
    + unfold LookupKind. destruct (_ID_TO_KIND !! i) as [k|]; [|discriminate].
      apply N.eqb_eq in Hk. by subst k.
  - by apply nodupb_NoDup.
  - by apply nodup_strings_NoDup.
Qed.

Lemma id_in_tableb_sound (pairs : gmap N (list LexerPair)) i k ps :
  id_in_tableb pairs (i, k) = true -> pairs !! k = Some ps ->
  exists b pat, (b, pat, i) ∈ ps.
Proof.
  unfold id_in_tableb. cbn [fst snd]. intros H Hps. rewrite Hps in H.
  apply existsb_exists in H as ([[b pat] j] & Hin & Hj). cbn [snd] in Hj.
  apply N.eqb_eq in Hj. subst j. exists b, pat. by apply list_elem_of_In.
Qed.

(** X5: [LexerPairs(kind)] is defined (no [KeyError]) exactly for the
    Kinds [VTest], [VOp1], [VOp2], [Arith], [BoolUnary] and [BoolBinary].
    Every row of such a table is a constant pattern, not empty, with an Id
    of that Kind; every Id of the Kind has a row; and within one table no Id
    and no pattern occurs twice. *)
Theorem LexerPairs_tables :
  (forall kind,
      is_Some (LexerPairs ID_SPEC kind) <->
      exists kname, kname ∈ lexer_kind_names /\ kind_enum ID_SPEC !! kname = Some kind) /\
  (forall kind ps,
      LexerPairs ID_SPEC kind = Some ps ->
      (forall b pat i, (b, pat, i) ∈ ps -> b = false /\ pat <> "" /\ LookupKind i = Some kind) /\
      (forall i, LookupKind i = Some kind -> exists pat, (false, pat, i) ∈ ps) /\
      NoDup (map snd ps) /\
      NoDup (map (fun p : LexerPair => snd (fst p)) ps)).
Proof.
  unfold LexerPairs.
  assert (Htable : forall kind ps, lexer_pairs ID_SPEC !! kind = Some ps ->
            lexer_table_okb (kind_enum ID_SPEC) (kind, ps) = true).
  { intros kind ps H. apply elem_of_map_to_list in H.
    exact (forallb_elem_of _ _ _ lexer_tables_ok H). }
  split.
  - intros kind. split.
    + intros [ps Hps]. apply Htable, lexer_table_okb_sound in Hps. by destruct Hps.
    + intros (kname & Hin & Hk).
      pose proof (forallb_elem_of _ _ _ kinds_have_tables Hin) as Hrow.
      exact (kind_has_tableb_sound _ _ _ _ Hrow Hk).
  - intros kind ps Hps.
    destruct (lexer_table_okb_sound _ _ _ (Htable _ _ Hps)) as (_ & Hrows & Hids & Hpats).
    split; [exact Hrows|]. split; [|by split].
    intros i Hi. unfold LookupKind in Hi. apply elem_of_map_to_list in Hi.
    pose proof (forallb_elem_of _ _ _ ids_in_tables Hi) as Hrow.
    destruct (id_in_tableb_sound _ _ _ _ Hrow Hps) as (b & pat & Hin).
    destruct (Hrows _ _ _ Hin) as [-> _]. by exists pat.
Qed.

Lemma REDIR_tables_built :
  REDIR_DEFAULT_FD_build = Some REDIR_DEFAULT_FD /\ REDIR_TYPE_build = Some REDIR_TYPE.
Proof. split; vm_compute; reflexivity. Qed.

Lemma redir_rows_ok : forallb redir_row_okb (map_to_list REDIR_DEFAULT_FD) = true.
Proof. vm_compute. reflexivity. Qed.

Lemma redir_ids_ok : forallb redir_id_okb (map_to_list _ID_TO_KIND) = true.
Proof. vm_compute. reflexivity. Qed.

Lemma redir_types_keyed :
  forallb (fun it : N * RedirType => is_some_b (REDIR_DEFAULT_FD !! fst it))
    (map_to_list REDIR_TYPE) = true.
Proof. vm_compute. reflexivity. Qed.

Lemma is_some_b_true {A} (o : option A) : is_some_b o = true <-> is_Some o.
Proof. destruct o; simpl; split; try done; by intros [x Hx]. Qed.

(** X6: the two redirect tables are built without [AttributeError] and
    have the Ids of Kind [Redir] as their keys, all of them and no other
    Id, so that a lookup of such an Id never raises [KeyError]; the default
    descriptor is 0 or 1, and the here documents and here strings (type
    [Str]) read from descriptor 0. *)
Theorem REDIR_tables_total :
  REDIR_DEFAULT_FD_build = Some REDIR_DEFAULT_FD /\
  REDIR_TYPE_build = Some REDIR_TYPE /\
  (forall i, is_Some (REDIR_DEFAULT_FD !! i) <-> LookupKind i = Some Kind.Redir) /\
  (forall i, is_Some (REDIR_TYPE !! i) <-> LookupKind i = Some Kind.Redir) /\
  (forall i fd, REDIR_DEFAULT_FD !! i = Some fd -> fd = 0 \/ fd = 1) /\
  (forall i, REDIR_TYPE !! i = Some RT_Str -> REDIR_DEFAULT_FD !! i = Some 0).
Proof.
  destruct REDIR_tables_built as [Hfd Hty].
  assert (Hrow : forall i fd, REDIR_DEFAULT_FD !! i = Some fd ->
            LookupKind i = Some Kind.Redir /\ (fd = 0 \/ fd = 1) /\
            is_Some (REDIR_TYPE !! i) /\ (REDIR_TYPE !! i = Some RT_Str -> fd = 0)).
  { intros i fd H. apply elem_of_map_to_list in H.
    pose proof (forallb_elem_of _ _ _ redir_rows_ok H) as Hr.
    unfold redir_row_okb in Hr. cbn [fst snd] in Hr. unfold LookupKind.
    destruct (_ID_TO_KIND !! i) as [k|]; [|discriminate].
    destruct (REDIR_TYPE !! i) as [t|]; [|discriminate].
    apply andb_true_iff in Hr as [Hr Ht]. apply andb_true_iff in Hr as [Hk Hv].
    apply N.eqb_eq in Hk. subst k. split; [done|]. split.
    - apply orb_true_iff in Hv as [Hv|Hv]; apply N.eqb_eq in Hv; auto.
    - split; [by eexists|]. intros [= ->]. by apply N.eqb_eq in Ht. }
  assert (Hid : forall i, LookupKind i = Some Kind.Redir ->
            is_Some (REDIR_DEFAULT_FD !! i) /\ is_Some (REDIR_TYPE !! i)).
  { intros i H. unfold LookupKind in H. apply elem_of_map_to_list in H.
    pose proof (forallb_elem_of _ _ _ redir_ids_ok H) as Hr.
    unfold redir_id_okb in Hr. cbn [fst snd] in Hr.
    rewrite N.eqb_refl in Hr. cbn [negb orb] in Hr.
    apply andb_true_iff in Hr as [H1 H2].
    split; apply is_some_b_true; assumption. }
  assert (Hty_fd : forall i, is_Some (REDIR_TYPE !! i) -> is_Some (REDIR_DEFAULT_FD !! i)).
  { intros i [t H]. apply elem_of_map_to_list in H.
    pose proof (forallb_elem_of _ _ _ redir_types_keyed H) as Hr. cbn [fst] in Hr.
    apply is_some_b_true. exact Hr. }
  split; [done|]. split; [done|]. split; [|split; [|split]].
  - intros i. split; [intros [fd H]; by apply (Hrow i fd) | by apply Hid].
  - intros i. split; [|by apply Hid].
    intros H. apply Hty_fd in H as [fd H]. by apply (Hrow i fd).
  - intros i fd H. by apply (Hrow i fd).
  - intros i H. destruct (Hty_fd i) as [fd Hfdi]; [by eexists|].
    destruct (Hrow i fd Hfdi) as (_ & _ & _ & H0). by rewrite (H0 H) in Hfdi.
Qed.

(** ** The other methods of words and parts *)

Lemma Kind_of_more_ids :
  LookupKind Id.Undefined_Tok = Some Kind.Undefined /\
  LookupKind Id.Lit_LBrace = LookupKind Id.Lit_Chars /\
  LookupKind Id.Lit_RBrace = LookupKind Id.Lit_Chars /\
  LookupKind Id.Lit_DRightBracket = LookupKind Id.Lit_Chars /\
  LookupKind Id.KW_Bang = Some Kind.KW /\
  LookupKind Id.Lit_Chars <> Some Kind.KW /\
  LookupKind Id.Lit_Chars <> Some Kind.Assign /\
  LookupKind Id.Lit_Chars <> Some Kind.BoolUnary /\
  LookupKind Id.Lit_Chars <> Some Kind.BoolBinary.
Proof. vm_compute. repeat split; discriminate. Qed.

(** X7: [CommandId] of a compound word is the Id of its token exactly when
    the word is one literal part whose Id is [Lit_LBrace], [Lit_RBrace] or of
    Kind [KW]; for every other compound word it is [Word_Compound], and the
    call raises only the [KeyError] of an Id unknown to [LookupKind]. *)
Theorem CommandId_compound (parts : list WordPart) :
  match CommandId (CompoundWord parts) with
  | Ok i =>
      i = Id.Word_Compound \/
      exists token, parts = [LiteralPart token] /\ token_id token = i /\
        (i = Id.Lit_LBrace \/ i = Id.Lit_RBrace \/ LookupKind i = Some Kind.KW)
  | Raise e =>
      exists token, parts = [LiteralPart token] /\
        LookupKind (token_id token) = None /\ e = KeyError (token_id token)
  end /\
  (forall token,
      parts = [LiteralPart token] ->
      token_id token = Id.Lit_LBrace \/ token_id token = Id.Lit_RBrace \/
      LookupKind (token_id token) = Some Kind.KW ->
      CommandId (CompoundWord parts) = Ok (token_id token)).
Proof.
  pose proof Kind_of_more_ids as (Hu & _).
  split.
  - destruct parts as [|p [|p' ps]]; simpl; try by left.
    destruct p as [ws|token|token|ts|ps|token cl|nm token a b c|pre|an];
      simpl; try by left.
    destruct (token_id token =? Id.Undefined_Tok) eqn:E0; [by left|].
    destruct ((token_id token =? Id.Lit_LBrace) || (token_id token =? Id.Lit_RBrace)) eqn:E1.
    { right. exists token. split; [done|]. split; [done|].
      apply orb_true_iff in E1 as [E|E]; apply N.eqb_eq in E; auto. }
    destruct (LookupKind (token_id token)) as [k|] eqn:Hk.
    + destruct (k =? Kind.KW) eqn:E2; [|by left].
      apply N.eqb_eq in E2. subst k. right. exists token. auto.
    + exists token. auto.
  - intros token -> H. simpl.
    destruct (token_id token =? Id.Undefined_Tok) eqn:E0.
    { apply N.eqb_eq in E0. rewrite E0 in H. destruct H as [H|[H|H]];
        [discriminate H | discriminate H | rewrite Hu in H; discriminate H]. }
    destruct ((token_id token =? Id.Lit_LBrace) || (token_id token =? Id.Lit_RBrace)) eqn:E1;
      [done|].
    apply orb_false_iff in E1 as [E1 E2].
    apply N.eqb_neq in E1, E2. destruct H as [H|[H|H]]; try done.
    rewrite H. done.
Qed.

(** The Ids of Kind [Assign], by name. *)
Lemma Assign_ids_named :
  forallb (fun ik : N * N =>
             negb (snd ik =? Kind.Assign) ||
             match IdName (fst ik) with
             | Some name => existsb (String.eqb name) Assign_names
             | None => false
             end) (map_to_list _ID_TO_KIND) = true.
Proof. vm_compute. reflexivity. Qed.

(** X8: when [AssignmentBuiltinId] returns an Id other than
    [Undefined_Tok], the word is one literal part with that Id, the Id is of
    Kind [Assign] and is named [Assign_Declare], [Assign_Export],
    [Assign_Local] or [Assign_Readonly]; and in the two other contexts the
    same word is an ordinary word: [CommandId] and [BoolId] both return
    [Word_Compound]. *)
Theorem AssignmentBuiltinId_defined (parts : list WordPart) (i : N) :
  AssignmentBuiltinId parts = Ok i -> i <> Id.Undefined_Tok ->
  (exists token, parts = [LiteralPart token] /\ token_id token = i) /\
  LookupKind i = Some Kind.Assign /\
  (exists name, IdName i = Some name /\ name ∈ Assign_names) /\
  CommandId (CompoundWord parts) = Ok Id.Word_Compound /\
  BoolId (CompoundWord parts) = Ok Id.Word_Compound.
Proof.
  intros H Hne.
  destruct parts as [|p [|p' ps]]; simpl in H; try (injection H as <-; done).
  destruct p as [ws|token|token|ts|ps|token cl|nm token a b c|pre|an];
    simpl in H; try (injection H as <-; done).
  destruct (token_id token =? Id.Undefined_Tok) eqn:E0; [injection H as <-; done|].
  destruct (LookupKind (token_id token)) as [k|] eqn:Hk; [|discriminate].
  destruct (k =? Kind.Assign) eqn:E1; [|injection H as <-; done].
  apply N.eqb_eq in E1. subst k. injection H as <-.
  split; [by exists token|]. split; [done|]. split; [|split].
  - pose proof Assign_ids_named as Hall.
    assert (Hin : (token_id token, Kind.Assign) ∈ map_to_list _ID_TO_KIND)
      by (by apply elem_of_map_to_list).
    pose proof (forallb_elem_of _ _ _ Hall Hin) as Hrow. cbn [fst snd] in Hrow.
    rewrite N.eqb_refl in Hrow. cbn [negb orb] in Hrow.
    destruct (IdName (token_id token)) as [name|]; [|discriminate].
    exists name. split; [done|].
    apply existsb_exists in Hrow as (n & Hn & E). apply String.eqb_eq in E. subst n.
    by apply list_elem_of_In.
  - simpl. rewrite E0.
    destruct ((token_id token =? Id.Lit_LBrace) || (token_id token =? Id.Lit_RBrace)) eqn:E.
    { pose proof Kind_of_more_ids as (_ & Hl & Hr & _ & _ & _ & Hna & _).
      apply orb_true_iff in E as [E|E]; apply N.eqb_eq in E; rewrite E in Hk;
        rewrite ?Hl, ?Hr in Hk; done. }
    rewrite Hk. done.
  - simpl. rewrite E0.
    destruct ((token_id token =? Id.KW_Bang) || (token_id token =? Id.Lit_DRightBracket)) eqn:E.
    { pose proof Kind_of_more_ids as (_ & _ & _ & Hd & Hb & _ & Hna & _).
      apply orb_true_iff in E as [E|E]; apply N.eqb_eq in E; rewrite E in Hk;
        rewrite ?Hd, ?Hb in Hk; [discriminate Hk | done]. }
    rewrite Hk. done.
Qed.

Lemma AssignmentBuiltinId_defined_witness :
  CommandId (CompoundWord [LiteralPart (mkToken (Id_attr "Assign_Local") "local")]) =
    Ok Id.Word_Compound.
Proof.
  refine (proj1 (proj2 (proj2 (proj2
    (AssignmentBuiltinId_defined
       [LiteralPart (mkToken (Id_attr "Assign_Local") "local")]
       (Id_attr "Assign_Local") _ _))))).
  - vm_compute. reflexivity.
  - vm_compute. discriminate.
Defined.

(** A part that evaluates statically with [ok = True] is built from
    literal and quoted parts only. *)
Lemma dq_loop_ok_static (parts : list WordPart) :
  Forall (fun p => forall s q, part_EvalStatic p = Ok (true, s, q) ->
                   is_static p = true) parts ->
  forall ret s q, dq_loop parts ret = Ok (true, s, q) -> forallb is_static parts = true.
Proof.
  induction 1 as [|p parts Hp _ IH]; intros ret s q; simpl; [done|].
  destruct (part_EvalStatic p) as [[[ok s'] q']|e] eqn:E; [|discriminate].
  destruct ok; [|discriminate].
  intros H. rewrite (Hp _ _ eq_refl). simpl. by eapply IH.
Qed.

Lemma part_EvalStatic_ok_static (p : WordPart) s q :
  part_EvalStatic p = Ok (true, s, q) -> is_static p = true.
Proof.
  revert s q.
  induction p as [ws|token|token|ts|ps IH|token cl|nm token a b c|pre|an]
    using WordPart_nested_ind; intros s q; try done.
  rewrite part_EvalStatic_dq. cbn [is_static]. by apply dq_loop_ok_static.
Qed.

Lemma word_loop_ok_static (parts : list WordPart) ret quoted s q :
  word_loop parts ret quoted = Ok (true, s, q) -> forallb is_static parts = true.
Proof.
  revert ret quoted. induction parts as [|p parts IH]; intros ret quoted; simpl; [done|].
  destruct (part_EvalStatic p) as [[[ok s'] q']|e] eqn:E; [|discriminate].
  destruct ok; [|discriminate].
  intros H. rewrite (part_EvalStatic_ok_static _ _ _ E). simpl. by eapply IH.
Qed.

(** X9: [AsFuncName] accepts exactly the words built from literal and
    quoted parts that have no quoted part or are one part long, and then
    returns their text; a word of several parts one of which is quoted
    raises [RuntimeError]; a word with a substitution and no array literal
    gives [(False, '')]. *)
Theorem AsFuncName_static (parts : list WordPart) :
  (forallb is_static parts = true ->
   AsFuncName parts =
     if existsb is_quoted parts && negb (length parts =? 1)%nat
     then Raise (RuntimeError "Function names should not have quotes, got: %s")
     else Ok (true, join_strings (map static_text parts))) /\
  (forall s,
      AsFuncName parts = Ok (true, s) ->
      forallb is_static parts = true /\
      s = join_strings (map static_text parts) /\
      (existsb is_quoted parts = true -> length parts = 1%nat)) /\
  (existsb contains_subst parts = true -> existsb contains_array parts = false ->
   AsFuncName parts = Ok (false, "")).
Proof.
  assert (Hstatic : forallb is_static parts = true ->
    AsFuncName parts =
      if existsb is_quoted parts && negb (length parts =? 1)%nat
      then Raise (RuntimeError "Function names should not have quotes, got: %s")
      else Ok (true, join_strings (map static_text parts))).
  { intros Hs. unfold AsFuncName, EvalStatic.
    rewrite (word_loop_static parts "" false Hs). by rewrite append_nil. }
  split; [done|]. split.
  - intros s H.
    assert (Hs : forallb is_static parts = true).
    { unfold AsFuncName, EvalStatic in H.
      destruct (word_loop parts "" false) as [[[ok s'] q']|e] eqn:E; [|discriminate].
      destruct ok; [|discriminate]. by eapply word_loop_ok_static. }
    split; [done|]. rewrite (Hstatic Hs) in H.
    destruct (existsb is_quoted parts); simpl in H.
    + destruct (length parts =? 1)%nat eqn:El; [|discriminate].
      apply Nat.eqb_eq in El. injection H as <-. done.
    + injection H as <-. done.
  - intros Hsub Harr. unfold AsFuncName, EvalStatic.
    pose proof (word_loop_outcome parts "" false) as Ho.
    unfold EvalStatic_outcome_ok in Ho. rewrite Hsub, Harr in Ho.
    destruct (word_loop parts "" false) as [[[ok s'] q']|e].
    + by rewrite (Ho eq_refl).
    + by destruct Ho.
Qed.

Lemma last_TokenPair_snoc (ps : list WordPart) (q : WordPart) :
  last_TokenPair (ps ++ [q]) = part_TokenPair q.
Proof.
  induction ps as [|p ps IH]; [done|].
  change ((p :: ps) ++ [q]) with (p :: (ps ++ [q])). cbn [last_TokenPair].
  rewrite IH. destruct ps; done.
Qed.

Lemma part_TokenPair_dq parts :
  part_TokenPair (DoubleQuotedPart parts) = TokenPair (CompoundWord parts).
Proof.
  destruct parts as [|p0 rest]; [done|].
  cbn [part_TokenPair TokenPair].
  destruct (part_TokenPair p0) as [[b e]|err] eqn:E; [|done].
  match goal with
  | |- context [match rest with [] => _ | _ :: _ => ?loop rest end] =>
      assert (H : forall qs, loop qs = last_TokenPair qs)
  end.
  { induction qs as [|q qs IH]; [done|]. cbn [last_TokenPair].
    destruct qs; [done|]. apply IH. }
  cbn [last_TokenPair]. destruct rest as [|p1 rest]; [by rewrite E|].
  by rewrite H.
Qed.

Lemma TokenPair_defined (parts : list WordPart) :
  Forall (fun p => has_TokenPair p = true -> exists b e, part_TokenPair p = Ok (b, e)) parts ->
  forallb has_TokenPair parts = true ->
  (exists b e, last_TokenPair parts = Ok (b, e)) /\
  exists b e, TokenPair (CompoundWord parts) = Ok (b, e).
Proof.
  intros Hall Hs.
  assert (Hlast : exists b e, last_TokenPair parts = Ok (b, e)).
  { clear -Hall Hs. induction Hall as [|p ps Hp _ IH]; [by exists None, None|].
    simpl in Hs. apply andb_true_iff in Hs as [Hp' Hs].
    cbn [last_TokenPair]. destruct ps as [|p' ps]; [by apply Hp|]. by apply IH. }
  split; [done|].
  destruct Hall as [|p ps Hp Hall]; [by exists None, None|].
  simpl in Hs. apply andb_true_iff in Hs as [Hp' Hs].
  cbn [TokenPair]. destruct (Hp Hp') as (b & e & ->).
  destruct Hlast as (b' & e' & ->). by exists b, e'.
Qed.

Lemma part_TokenPair_defined (p : WordPart) :
  has_TokenPair p = true -> exists b e, part_TokenPair p = Ok (b, e).
Proof.
  induction p as [ws|token|token|ts|ps IH|token cl|nm token a b c|pre|an]
    using WordPart_nested_ind; try done; intros Hs.
  - by exists (Some token), (Some token).
  - by exists (Some token), (Some token).
  - destruct ts as [|t0 ts]; [by exists None, None|].
    by exists (Some t0), (last_item (t0 :: ts)).
  - rewrite part_TokenPair_dq. by apply TokenPair_defined.
  - destruct token as [t|]; [by exists (Some t), (Some t) | by exists None, None].
Qed.

Lemma part_TokenPair_raises (p : WordPart) e :
  part_TokenPair p = Raise e -> e = NotImplementedError.
Proof.
  induction p as [ws|token|token|ts|ps IH|token cl|nm token a b c|pre|an]
    using WordPart_nested_ind; try (by intros [= <-]); try done.
  - by destruct ts.
  - rewrite part_TokenPair_dq.
    assert (Hlast : last_TokenPair ps = Raise e -> e = NotImplementedError).
    { clear -IH. induction IH as [|p ps Hp _ IHps]; [done|].
      cbn [last_TokenPair]. destruct ps; [done | exact IHps]. }
    destruct IH as [|p ps Hp _]; [done|]. cbn [TokenPair].
    destruct (part_TokenPair p) as [[b e']|err] eqn:E.
    + destruct (last_TokenPair (p :: ps)) as [[b' e'']|err]; [done|].
      intros [= <-]. by apply Hlast.
    + intros [= <-]. by apply Hp.
  - by destruct token.
Qed.

(** X10: [TokenPair] of a compound word looks at its first and its last
    part only; it is defined whenever every part, also inside double
    quotes, is a literal, quoted or var-sub part; the only exception it
    raises is [NotImplementedError]; and between two literal parts it gives
    the token of the first and the token of the last. *)
Theorem TokenPair_first_and_last :
  (forall p q mid,
      TokenPair (CompoundWord (p :: mid ++ [q])) = TokenPair (CompoundWord [p; q])) /\
  (forall parts,
      forallb has_TokenPair parts = true ->
      exists b e, TokenPair (CompoundWord parts) = Ok (b, e)) /\
  (forall parts e, TokenPair (CompoundWord parts) = Raise e -> e = NotImplementedError) /\
  (forall t1 t2 mid,
      TokenPair (CompoundWord (LiteralPart t1 :: mid ++ [LiteralPart t2])) =
        Ok (Some t1, Some t2)).
Proof.
  assert (Hends : forall p q mid,
    TokenPair (CompoundWord (p :: mid ++ [q])) = TokenPair (CompoundWord [p; q])).
  { intros p q mid. cbn [TokenPair].
    change (p :: mid ++ [q]) with ((p :: mid) ++ [q]).
    rewrite last_TokenPair_snoc. reflexivity. }
  split; [done|]. split; [|split].
  - intros parts Hs. apply TokenPair_defined; [|done].
    apply Forall_forall. intros p _. apply part_TokenPair_defined.
  - intros parts e. rewrite <- part_TokenPair_dq. apply part_TokenPair_raises.
  - intros t1 t2 mid. by rewrite Hends.
Qed.

Lemma string_take_drop (n : nat) (s : string) :
  string_take n s +:+ string_drop n s = s.
Proof.
  revert s. induction n as [|n IH]; intros [|c s]; simpl; try done.
  rewrite append_cons. by rewrite IH.
Qed.

Lemma find_char_range (c : ascii) (s : string) :
  (-1 <= find_char c s < Z.of_nat (String.length s))%Z \/
  (s = "" /\ find_char c s = (-1)%Z).
Proof.
  induction s as [|a s IH]; [by right|]. left. cbn [find_char String.length].
  destruct (Ascii.eqb a c); [lia|].
  destruct (find_char c s <? 0)%Z eqn:E; [lia|].
  apply Z.ltb_ge in E. destruct IH as [IH|[_ IH]]; lia.
Qed.

Lemma find_char_absent (c : ascii) (s : string) :
  (find_char c s < 0)%Z -> find_char c s = (-1)%Z /\ occurs c s = false.
Proof.
  induction s as [|a s IH]; [done|]. cbn [find_char occurs].
  destruct (Ascii.eqb a c); [lia|].
  destruct (find_char c s <? 0)%Z eqn:E.
  - apply Z.ltb_lt in E. intros _. split; [done|]. by apply IH.
  - apply Z.ltb_ge in E. lia.
Qed.

Lemma find_char_found (c : ascii) (s : string) :
  (0 <= find_char c s)%Z ->
  let n := Z.to_nat (find_char c s) in
  occurs c (string_take n s) = false /\
  String.length (string_take n s) = n /\
  exists rest, string_drop n s = String c rest.
Proof.
  induction s as [|a s IH]; [done|]. cbn [find_char].
  destruct (Ascii.eqb a c) eqn:Ea.
  - intros _. apply Ascii.eqb_eq in Ea. subst a. simpl. split; [done|].
    split; [done|]. by exists s.
  - destruct (find_char c s <? 0)%Z eqn:E; [lia|].
    apply Z.ltb_ge in E. intros _. specialize (IH E). cbv zeta in IH.
    destruct IH as (Hno & Hlen & rest & Hrest).
    replace (Z.to_nat (find_char c s + 1)) with (S (Z.to_nat (find_char c s))) by lia.
    cbv zeta. cbn [string_take string_drop occurs String.length].
    rewrite Ea, Hno, Hlen. split; [done|]. split; [done|]. by exists rest.
Qed.

(** X11: [SplitAtIndex] cuts the text of a literal part in two pieces that
    put together give the text again, whatever the integer index (negative
    or beyond the end).  [TestLiteralForSlash] is [-2] exactly for the parts
    that are not [LiteralPart]s; for a literal part it is [-1] when the text
    has no slash, and otherwise the position at which [SplitAtIndex] leaves
    a slash-free piece of that length before and a piece that begins with
    the slash after. *)
Theorem SplitAtIndex_at_slash :
  (forall token i,
      exists a b, SplitAtIndex (LiteralPart token) i = Ok (a, b) /\
                  a +:+ b = token_val token) /\
  (forall p, TestLiteralForSlash p = (-2)%Z <-> forall token, p <> LiteralPart token) /\
  (forall token,
      let i := TestLiteralForSlash (LiteralPart token) in
      (i = (-1)%Z /\ occurs "/"%char (token_val token) = false) \/
      ((0 <= i)%Z /\
       exists a rest,
         SplitAtIndex (LiteralPart token) i = Ok (a, String "/"%char rest) /\
         occurs "/"%char a = false /\ Z.of_nat (String.length a) = i)).
Proof.
  split; [|split].
  - intros token i. eexists _, _. split; [reflexivity|]. apply string_take_drop.
  - intros p. split.
    + intros H token ->. simpl in H.
      destruct (find_char_range "/"%char (token_val token)) as [Hr|[_ Hr]]; lia.
    + intros H. destruct p; try done. by destruct (H token).
  - intros token i. subst i. cbn [TestLiteralForSlash].
    destruct (Z.ltb (find_char "/"%char (token_val token)) 0) eqn:E.
    + apply Z.ltb_lt in E. left. by apply find_char_absent.
    + apply Z.ltb_ge in E. right. split; [done|].
      destruct (find_char_found "/"%char (token_val token) E) as (Hno & Hlen & rest & Hrest).
      assert (Hb : slice_bound (String.length (token_val token))
                     (find_char "/"%char (token_val token)) =
                   Z.to_nat (find_char "/"%char (token_val token))).
      { unfold slice_bound.
        destruct (find_char_range "/"%char (token_val token)) as [Hr|[_ Hr]]; [|lia].
        destruct (find_char "/"%char (token_val token) <? 0)%Z eqn:E'; [apply Z.ltb_lt in E'|]; lia. }
      exists (string_take (Z.to_nat (find_char "/"%char (token_val token))) (token_val token)), rest.
      cbn [SplitAtIndex]. unfold slice_to, slice_from. rewrite Hb, Hrest.
      split; [done|]. split; [done|]. rewrite Hlen. lia.
Qed.

Lemma word_loop_from (parts : list WordPart) ret quoted :
  word_loop parts ret quoted =
  match word_loop parts "" false with
  | Ok (true, s, q) => Ok (true, ret +:+ s, quoted || q)
  | Ok (false, _, q) => Ok (false, "", quoted || q)
  | Raise e => Raise e
  end.
Proof.
  revert ret quoted. induction parts as [|p parts IH]; intros ret quoted.
  - simpl. by rewrite append_empty_r, orb_false_r.
  - cbn [word_loop]. destruct (part_EvalStatic p) as [[[ok s] q]|e]; [|done].
    destruct ok; [|by rewrite orb_false_r].
    rewrite (IH (ret +:+ s)), (IH ("" +:+ s)).
    destruct (word_loop parts "" false) as [[[[|] s'] q']|e]; try done.
    + rewrite append_nil, append_assoc. by destruct q, quoted.
    + by destruct q, quoted.
Qed.

Lemma word_loop_failed (parts : list WordPart) ret quoted s q :
  word_loop parts ret quoted = Ok (false, s, q) -> s = "".
Proof.
  revert ret quoted. induction parts as [|p parts IH]; intros ret quoted; simpl; [done|].
  destruct (part_EvalStatic p) as [[[ok s'] q']|e]; [|done].
  destruct ok; [apply IH | by intros [= <- _]].
Qed.

(** X12: [EvalStatic] of a word whose parts are [ps1] followed by [ps2]
    is made of the results for [ps1] and for [ps2], left to right: texts
    are concatenated and the quoted flags joined; a first half that is not
    static, or that raises, decides the result alone, so that parts after a
    substitution are never looked at. *)
Theorem EvalStatic_app (ps1 ps2 : list WordPart) :
  EvalStatic (CompoundWord (ps1 ++ ps2)) =
  EvalStatic_then (EvalStatic (CompoundWord ps1)) (EvalStatic (CompoundWord ps2)).
Proof.
  unfold EvalStatic.
  assert (H : forall ret quoted,
    word_loop (ps1 ++ ps2) ret quoted =
    match word_loop ps1 ret quoted with
    | Ok (true, r, q) => word_loop ps2 r q
    | other => other
    end).
  { induction ps1 as [|p ps1 IH]; intros ret quoted; simpl.
    - by destruct (word_loop ps2 ret quoted) as [[[[|] s] q]|e].
    - destruct (part_EvalStatic p) as [[[ok s] q]|e]; [|done].
      destruct ok; [apply IH | done]. }
  rewrite H. unfold EvalStatic_then.
  destruct (word_loop ps1 "" false) as [[[[|] s1] q1]|e] eqn:E; try done.
  - by rewrite word_loop_from.
  - by rewrite (word_loop_failed _ _ _ _ _ E).
Qed.

Lemma endswith_char_split (s : string) (c : ascii) :
  endswith_char s c = true -> s = slice_to_last s +:+ String c "".
Proof.
  induction s as [|a s IH]; [done|]. cbn [endswith_char slice_to_last].
  destruct s as [|b s].
  - intros H. apply bool_decide_eq_true in H. by subst a.
  - intros H. rewrite append_cons. f_equal. by apply IH.
Qed.

(** X13: [LooksLikeAssignment] returns a pair only for a word whose first
    part is a literal with Id [Lit_VarLike] and text [name=] with [name] not
    empty, and the pair is [name] and the remaining parts (one empty
    single-quoted part when none remain); it raises only the
    [AssertionError] of a [Lit_VarLike] token whose text does not end in
    [=]. *)
Theorem LooksLikeAssignment_only_VarLike (parts : list WordPart) :
  match LooksLikeAssignment parts with
  | Ok (Some (name, rhs)) =>
      exists token rest,
        parts = LiteralPart token :: rest /\
        token_id token = Id.Lit_VarLike /\
        token_val token = name +:+ "=" /\ name <> "" /\
        rhs = assignment_rhs rest
  | Ok None => True
  | Raise e =>
      exists token rest,
        parts = LiteralPart token :: rest /\
        token_id token = Id.Lit_VarLike /\
        endswith_char (token_val token) "="%char = false /\
        e = AssertionError ""
  end.
Proof.
  destruct parts as [|p rest]; [done|]. cbn [LooksLikeAssignment].
  destruct p as [ws|token|token|ts|ps|token cl|nm token a b c|pre|an]; try done.
  cbn [VarLikeName].
  destruct (token_id token =? Id.Lit_VarLike) eqn:Ei; [|done].
  apply N.eqb_eq in Ei.
  destruct (endswith_char (token_val token) "="%char) eqn:Ee.
  - destruct (slice_to_last (token_val token)) as [|c name] eqn:En; [done|].
    cbn [truthy].
    assert (Hrhs : match rest with
                   | [] => Ok (Some (String c name, CompoundWord [SingleQuotedPart []]))
                   | _ :: _ => Ok (Some (String c name, CompoundWord rest))
                   end = Ok (Some (String c name, assignment_rhs rest)))
      by (by destruct rest).
    rewrite Hrhs. exists token, rest. rewrite <- En.
    split; [done|]. split; [done|]. split; [by apply endswith_char_split|].
    split; [by rewrite En | done].
  - exists token, rest. done.
Qed.

(** ** What a run that returns a complete node has read *)

Lemma word_kind_ids : forallb word_kind_okb (map_to_list _ID_TO_KIND) = true.
Proof. vm_compute. reflexivity. Qed.

Lemma Kind_Word_only i : LookupKind i = Some Kind.Word -> i = Id.Word_Compound.
Proof.
  unfold LookupKind. intros H. apply elem_of_map_to_list in H.
  pose proof (forallb_elem_of _ _ _ word_kind_ids H) as Hrow.
  unfold word_kind_okb in Hrow. cbn [fst snd] in Hrow.
  rewrite N.eqb_refl in Hrow. cbn [negb orb] in Hrow. by apply N.eqb_eq.
Qed.

Section Sound.

Variable respond : list LexMode -> option Word.
Variable reader_errors : list LexMode -> list ErrorContext.
Variable regex_parse : string -> bool.
Variable repr_str : string -> string.
Hypothesis Hnl : newline_free respond.

Local Abbreviation parse_ := (parse respond reader_errors regex_parse repr_str).
Local Abbreviation recognised_ := (recognised respond regex_parse).

Lemma NextOne_sound lex_mode st :
  (length (words st) <= 1)%nat ->
  wp (_NextOne respond reader_errors lex_mode) st (on_done (fun (ok : bool) st' =>
    ok = true ->
    exists w i k,
      respond (w_parser st ++ [lex_mode]) = Some w /\ BoolId w = Ok i /\
      LookupKind i = Some k /\ st' = after_read lex_mode w i k st)).
Proof.
  intros Hlen. unfold wp, _NextOne, after_read.
  destruct st as [h ws cw oi bk es cs]. simpl in *.
  destruct ws as [|w0 [|w1 ws]]; simpl in Hlen; [| |lia].
  - unfold bind, get, modify, ReadWord, reader_Error, ret; simpl.
    destruct (respond (h ++ [lex_mode])) as [w|] eqn:Hr; simpl; [|done].
    unfold call_LookupKind, lift. destruct (BoolId w) as [i|e] eqn:Hi; simpl; [|done].
    destruct (LookupKind i) as [k|] eqn:Hk; simpl; [|done].
    intros _. by exists w, i, k.
  - unfold bind, get, modify, ReadWord, reader_Error, ret; simpl.
    destruct (respond (h ++ [lex_mode])) as [w|] eqn:Hr; simpl; [|done].
    unfold call_LookupKind, lift. destruct (BoolId w) as [i|e] eqn:Hi; simpl; [|done].
    destruct (LookupKind i) as [k|] eqn:Hk; simpl; [|done].
    intros _. by exists w, i, k.
Qed.

Lemma Next_sound fuel lex_mode st :
  (length (words st) <= 1)%nat ->
  wp (_Next respond reader_errors fuel lex_mode) st (on_done (fun (ok : bool) st' =>
    ok = true -> has_read respond lex_mode st st')).
Proof.
  intros Hlen. destruct fuel as [|fuel]; simpl; [by wp_steps|].
  eapply wp_bind_done; [by apply NextOne_sound|].
  intros [|] st1 H1; simpl.
  - destruct (H1 eq_refl) as (w & i & k & Hr & Hi & Hk & ->). wp_steps. simpl.
    destruct (N.eqb_spec i Id.Op_Newline) as [->|Hne]; simpl.
    + exfalso. by apply (Hnl _ _ Hr).
    + wp_steps. simpl. intros _. by exists w, i, k.
  - by wp_steps.
Qed.

Lemma Next_drain_sound fuel x w st :
  words st = [x; Some w] -> BoolId w <> Ok Id.Op_Newline ->
  wp (_Next respond reader_errors fuel DBRACKET) st (on_done (fun (ok : bool) st' =>
    ok = true /\ exists i k, word_class w i k /\ st' = after_drain w i k st)).
Proof.
  intros Hws Hw. destruct fuel as [|fuel]; [by wp_steps|].
  destruct (BoolId w) as [i|e] eqn:Hi.
  - destruct (LookupKind i) as [k|] eqn:Hk.
    + assert (Hc : word_class w i k) by (repeat split; congruence).
      unfold wp. rewrite (Next_drain respond reader_errors (S fuel) x w i k st); try done; [|lia].
      simpl. split; [done|]. by exists i, k.
    + unfold wp. simpl. unfold _NextOne.
      destruct st as [h ws cw oi bk es cs]. simpl in *. subst ws.
      unfold bind, get, modify, ret. simpl. unfold call_LookupKind, lift.
      rewrite Hi. simpl. rewrite Hk. done.
  - unfold wp. simpl. unfold _NextOne.
    destruct st as [h ws cw oi bk es cs]. simpl in *. subst ws.
    unfold bind, get, modify, ret. simpl. unfold lift. rewrite Hi. done.
Qed.

Lemma LookAhead_sound x st :
  words st = [x] ->
  wp (_LookAhead respond) st (on_done (fun t2 st' =>
    match t2 with
    | Some w => respond (w_parser st ++ [DBRACKET]) = Some w /\
                st' = after_lookahead x w st
    | None => True
    end)).
Proof.
  intros Hws. unfold wp, _LookAhead, after_lookahead.
  destruct st as [h ws cw oi bk es cs]. simpl in *. subst ws.
  unfold bind, get, modify, ReadWord, ret. simpl.
  destruct (respond (h ++ [DBRACKET])) as [w|] eqn:Hr; simpl; done.
Qed.


Lemma wp_bind_any {A B} (m : M A) (k : A -> M B) st (Q : B -> BoolParser -> Prop) :
  (forall a st1, wp (k a) st1 (on_done Q)) -> wp (bind m k) st (on_done Q).
Proof.
  intros H. unfold wp, bind. destruct (m st) as [[a|e|] st1] eqn:E; simpl; [|done|done].
  apply H.
Qed.

Lemma positioned_kind st w i k :
  positioned st w -> op_id st = i -> LookupKind i = Some k -> word_class w i k.
Proof.
  intros (_ & _ & Hi & Hk & Hn) <- Hk'. repeat split; [done| |done]. congruence.
Qed.

Lemma recognised_weaken nt nt' w0 st nd st' :
  recognised_ nt w0 st nd st' -> (level_of nt <= level_of nt')%nat ->
  recognised_ nt' w0 st nd st'.
Proof.
  intros (e & k & H1 & H2 & H3 & H4) Hle. exists e, k.
  split; [done|]. split; [done|]. split; [lia | done].
Qed.

Lemma rec_word w k ki kk st :
  word_class w Id.Word_Compound Kind.Word ->
  respond (w_parser st ++ [DBRACKET]) = Some k -> word_class k ki kk ->
  recognised_ PFactor w st (NWord w)
    (after_drain k ki kk (after_lookahead (Some w) k st)).
Proof.
  intros Hw Hr Hk. exists (XWord w), k.
  split; [done|]. split; [done|]. split; [done|]. split; [done|].
  split; [by split|]. split; [by apply positioned_after_drain | done].
Qed.

Lemma rec_unary op w wi wk k ki kk st :
  positioned st op -> b_kind st = Kind.BoolUnary ->
  respond (w_parser st ++ [DBRACKET]) = Some w -> word_class w wi wk ->
  respond ((w_parser st ++ [DBRACKET]) ++ [DBRACKET]) = Some k -> word_class k ki kk ->
  recognised_ PFactor op st (UnaryExprNode (op_id st) (NWord w))
    (after_read DBRACKET k ki kk (after_read DBRACKET w wi wk st)).
Proof.
  intros Hpos Hbk Hrw Hwc Hrk Hkc.
  assert (Hop : word_class op (op_id st) Kind.BoolUnary).
  { destruct Hpos as (_ & _ & Hc). by rewrite Hbk in Hc. }
  exists (XUnary op w), k.
  split; [done|]. split.
  { split; [by exists (op_id st) | by exists wi, wk]. }
  split; [done|]. split.
  { simpl. by rewrite (word_id_class op _ _ Hop). }
  split; [by repeat split|].
  split; [by apply positioned_after_read|]. split; [|done].
  simpl. by rewrite <- app_assoc.
Qed.

Lemma rec_binary l op oi ok r ri rk k ki kk st :
  positioned st l -> b_kind st = Kind.Word ->
  respond (w_parser st ++ [DBRACKET]) = Some op -> word_class op oi ok ->
  ok = Kind.BoolBinary \/ ok = Kind.Redir ->
  let m := if oi =? Id.BoolBinary_EqualTilde then BASH_REGEX else DBRACKET in
  respond ((w_parser st ++ [DBRACKET]) ++ [m]) = Some r -> word_class r ri rk ->
  (oi = Id.BoolBinary_EqualTilde -> regex_accepted regex_parse r) ->
  respond (((w_parser st ++ [DBRACKET]) ++ [m]) ++ [DBRACKET]) = Some k ->
  word_class k ki kk ->
  recognised_ PFactor l st (BinaryExprNode oi (NWord l) (NWord r))
    (after_read DBRACKET k ki kk
       (after_read m r ri rk (after_drain op oi ok (after_lookahead (Some l) op st)))).
Proof.
  intros Hpos Hbk Hro Hoc Hok m Hrr Hrc Hacc Hrk Hkc.
  assert (Hl : word_class l Id.Word_Compound Kind.Word).
  { destruct Hpos as (_ & _ & Hi & Hk & Hn). rewrite Hbk in Hk.
    pose proof (Kind_Word_only _ Hk) as E. rewrite E in Hi, Hk. by repeat split. }
  assert (Hid : word_id op = oi) by (by apply (word_id_class op oi ok)).
  assert (Hm : right_operand_mode op = m).
  { unfold right_operand_mode. by rewrite Hid. }
  exists (XBinary l op r), k.
  split; [done|]. split.
  { split; [done|]. split; [by exists oi, ok|]. split; [by exists ri, rk|].
    rewrite Hid. exact Hacc. }
  split; [done|]. split; [simpl; by rewrite Hid|].
  split.
  { simpl. rewrite Hm. by repeat split. }
  split; [by apply positioned_after_read|]. split; [|done].
  simpl. rewrite Hm. by rewrite <- !app_assoc.
Qed.

Lemma rec_paren lp fw fi fk nd st st2 st' :
  positioned st lp -> op_id st = Id.Op_LParen ->
  respond (w_parser st ++ [DBRACKET]) = Some fw ->
  recognised_ PExpr fw (after_read DBRACKET fw fi fk st) nd st2 ->
  op_id st2 = Id.Op_RParen ->
  has_read respond DBRACKET st2 st' ->
  recognised_ PFactor lp st nd st'.
Proof.
  intros Hpos Hop Hrf (e & rp & Hfirst & Hwf & Hlev & Hden & Hserved & Hpos2 & Hw2 & He2)
    Hrp (k & ki & kk & Hrk & Hkc & ->).
  pose proof Kind_of_ids as (_ & Hlpk & Hrpk & _).
  exists (XParen lp e rp), k.
  split; [done|]. split.
  { split; [by apply (positioned_kind st)|]. split; [done|].
    by apply (positioned_kind st2). }
  split; [done|]. split; [done|].
  split.
  { simpl. rewrite Hfirst. split; [done|].
    apply served_app. split; [exact Hserved|].
    change (w_parser (after_read DBRACKET fw fi fk st)) with (w_parser st ++ [DBRACKET])
      in Hw2.
    rewrite <- Hw2. by split. }
  split; [by apply positioned_after_read|]. split.
  - simpl. rewrite Hw2. simpl.
    rewrite !map_app. simpl. by rewrite <- !app_assoc.
  - simpl. rewrite He2. done.
Qed.

Lemma rec_not bang fw fi fk child st st' :
  positioned st bang -> op_id st = Id.KW_Bang ->
  respond (w_parser st ++ [DBRACKET]) = Some fw ->
  recognised_ PFactor fw (after_read DBRACKET fw fi fk st) child st' ->
  recognised_ PNegatedFactor bang st (LogicalNot child) st'.
Proof.
  intros Hpos Hop Hrf (e & k & Hfirst & Hwf & Hlev & Hden & Hserved & Hpos2 & Hw2 & He2).
  pose proof Kind_of_ids as (Hbk & _).
  exists (XNot bang e), k.
  split; [done|]. split.
  { split; [by apply (positioned_kind st)|]. simpl in Hlev. split; [lia | done]. }
  split; [done|]. split; [simpl; by rewrite Hden|].
  split.
  { simpl. rewrite Hfirst. by split. }
  split; [done|]. split; [|done].
  rewrite Hw2. simpl. by rewrite <- app_assoc.
Qed.

Lemma rec_chain (build : bexp -> Word -> bexp -> bexp) (opid : N) nt_l nt w0 left st st1 st2
    right st3 :
  (forall l o r, first_word (build l o r) = first_word l) ->
  (forall l o r, reads (build l o r) =
                 reads l ++ (DBRACKET, o) :: (DBRACKET, first_word r) :: reads r) ->
  (forall l o r, denote (build l o r) = BinaryExprNode opid (denote l) (denote r)) ->
  (forall l o r, well_formed regex_parse l -> (level l <= level_of nt_l)%nat ->
                 word_class o opid Kind.Op ->
                 well_formed regex_parse r -> (level r <= level_of nt)%nat ->
                 well_formed regex_parse (build l o r) /\
                 (level (build l o r) <= level_of nt)%nat) ->
  LookupKind opid = Some Kind.Op ->
  recognised_ nt_l w0 st left st1 ->
  op_id st1 = opid ->
  forall w2 i2 k2,
    respond (w_parser st1 ++ [DBRACKET]) = Some w2 ->
    st2 = after_read DBRACKET w2 i2 k2 st1 ->
    recognised_ nt w2 st2 right st3 ->
    recognised_ nt w0 st (BinaryExprNode opid left right) st3.
Proof.
  intros Bfirst Breads Bden Bwf Hkind
    (el & o & Hf1 & Hwf1 & Hl1 & Hd1 & Hs1 & Hp1 & Hw1 & He1) Hop w2 i2 k2 Hr2 ->
    (er & k & Hf2 & Hwf2 & Hl2 & Hd2 & Hs2 & Hp2 & Hw2 & He2).
  assert (Ho : word_class o opid Kind.Op) by (by apply (positioned_kind st1)).
  destruct (Bwf el o er Hwf1 Hl1 Ho Hwf2 Hl2) as [Hwf Hlev].
  exists (build el o er), k.
  split; [by rewrite Bfirst|]. split; [done|]. split; [done|].
  split; [by rewrite Bden, Hd1, Hd2|].
  simpl in Hs2, Hw2, He2.
  split.
  { rewrite Breads, Hf2.
    replace ((reads el ++ (DBRACKET, o) :: (DBRACKET, w2) :: reads er) ++ [(DBRACKET, k)])
      with ((reads el ++ [(DBRACKET, o)]) ++ (DBRACKET, w2) :: reads er ++ [(DBRACKET, k)])
      by (by rewrite <- !app_assoc).
    apply served_app. split; [exact Hs1|]. rewrite <- Hw1. by split. }
  split; [done|]. split.
  - rewrite Hw2, Hw1, Breads, Hf2. rewrite !map_app. simpl. rewrite ?map_app. simpl.
    by rewrite <- !app_assoc.
  - by rewrite He2, He1.
Qed.

Lemma ParseFactor_sound fuel (PE : M node) :
  (forall st w, positioned st w ->
     wp PE st (on_done (fun nd st' =>
       complete nd = true -> recognised_ PExpr w st nd st'))) ->
  forall st w0, positioned st w0 ->
    wp (ParseFactor_body respond reader_errors regex_parse repr_str fuel PE) st
      (on_done (fun nd st' => complete nd = true -> recognised_ PFactor w0 st nd st')).
Proof.
  intros HPE st w0 Hpos. pose proof Hpos as (Hws & Hcw & Hc).
  unfold ParseFactor_body. wp_steps.
  destruct (b_kind st =? Kind.BoolUnary) eqn:Eu.
  { apply N.eqb_eq in Eu. wp_steps.
    eapply wp_bind_done; [apply Next_sound; rewrite Hws; simpl; lia|].
    intros [|] st1 H1; simpl; [|by wp_steps].
    destruct (H1 eq_refl) as (w & wi & wk & Hrw & Hwc & ->). wp_steps.
    eapply wp_bind_done; [apply Next_sound; simpl; lia|].
    intros [|] st2 H2; simpl; [|by wp_steps].
    destruct (H2 eq_refl) as (k & ki & kk & Hrk & Hkc & ->). wp_steps. simpl.
    intros _. by apply rec_unary. }
  destruct (b_kind st =? Kind.Word) eqn:Ew.
  { apply N.eqb_eq in Ew.
    eapply wp_bind_done; [by apply (LookAhead_sound (Some w0))|].
    intros [w1|] st1 H1; simpl; [|by apply wp_bind, wp_raise].
    destruct H1 as [Hr1 ->].
    apply wp_bind, wp_lift. destruct (BoolId w1) as [i1|e1] eqn:Hi1; [|done].
    simpl. apply wp_bind. unfold call_LookupKind.
    destruct (LookupKind i1) as [k1|] eqn:Hk1; [|by apply wp_raise].
    apply wp_ret. simpl.
    assert (Hnl1 : BoolId w1 <> Ok Id.Op_Newline) by (by apply (Hnl _ _ Hr1)).
    destruct ((k1 =? Kind.BoolBinary) || (k1 =? Kind.Redir)) eqn:Ebin.
    - wp_steps.
      eapply wp_bind_done; [by apply (Next_drain_sound fuel (Some w0) w1)|].
      intros ok st2 (-> & i & k & Hc1 & ->). simpl.
      assert (i = i1) as -> by (destruct Hc1 as (Hb & _); congruence).
      assert (k = k1) as -> by (destruct Hc1 as (_ & Hk & _); congruence).
      wp_steps. rewrite if_Next.
      eapply wp_bind_done; [apply Next_sound; simpl; lia|].
      intros [|] st3 H3; simpl; [|by wp_steps].
      destruct (H3 eq_refl) as (r & ri & rk & Hrr & Hrc & ->). wp_steps.
      assert (Hcont : (i1 = Id.BoolBinary_EqualTilde -> regex_accepted regex_parse r) ->
        wp (ok <- _Next respond reader_errors fuel DBRACKET ;;
            if negb ok then ret NNone
            else ret (BinaryExprNode i1 (node_of (Some w0)) (node_of (Some r))))
          (after_read (if i1 =? Id.BoolBinary_EqualTilde then BASH_REGEX else DBRACKET)
             r ri rk (after_drain w1 i1 k1 (after_lookahead (Some w0) w1 st)))
          (on_done (fun nd st' => complete nd = true -> recognised_ PFactor w0 st nd st'))).
      { intros Hacc.
        eapply wp_bind_done; [apply Next_sound; simpl; lia|].
        intros [|] st4 H4; simpl; [|by wp_steps].
        destruct (H4 eq_refl) as (k & ki & kk & Hrk & Hkc & ->). wp_steps. simpl.
        intros _. apply rec_binary; try done.
        apply orb_true_iff in Ebin as [E|E]; apply N.eqb_eq in E; auto. }
      simpl. rewrite Hcw.
      destruct (i1 =? Id.BoolBinary_EqualTilde) eqn:Eet.
      + apply wp_bind, wp_bind, wp_lift.
        destruct (EvalStatic r) as [[[ok s] q]|e] eqn:Hev; [|done].
        simpl. destruct (ok && negb (regex_parse s)) eqn:Einv.
        * wp_steps. simpl. wp_steps. simpl. wp_steps. done.
        * wp_steps. simpl. wp_steps. simpl. apply Hcont. intros _. exists ok, s, q.
          split; [done|]. intros ->. simpl in Einv. by apply negb_false_iff in Einv.
      + wp_steps. simpl. apply Hcont. intros ->. discriminate Eet.
    - wp_steps.
      eapply wp_bind_done; [by apply (Next_drain_sound fuel (Some w0) w1)|].
      intros ok st2 (-> & i & k & Hc1 & ->). simpl. wp_steps. simpl. rewrite Hcw. simpl.
      intros _. apply rec_word; try done.
      destruct Hc as (Hi & Hk & Hn). rewrite Ew in Hk.
      pose proof (Kind_Word_only _ Hk) as E. rewrite E in Hi, Hk. by repeat split. }
  wp_steps. destruct (op_id st =? Id.Op_LParen) eqn:Elp; [|by wp_steps].
  apply N.eqb_eq in Elp.
  eapply wp_bind_done; [apply Next_sound; rewrite Hws; simpl; lia|].
  intros [|] st1 H1; simpl; [|by wp_steps].
  destruct (H1 eq_refl) as (fw & fi & fk & Hrf & Hfc & ->).
  eapply wp_bind_done; [apply (HPE _ fw); by apply positioned_after_read|].
  intros nd st2 H2. wp_steps.
  destruct (op_id st2 =? Id.Op_RParen) eqn:Erp; simpl; [|by wp_steps].
  apply N.eqb_eq in Erp.
  destruct (complete nd) eqn:Hnd.
  - specialize (H2 Hnd). pose proof H2 as (e & rp & _ & _ & _ & _ & _ & (Hw2 & _) & _).
    eapply wp_bind_done; [apply Next_sound; rewrite Hw2; simpl; lia|].
    intros [|] st3 H3; simpl; [|by wp_steps].
    wp_steps. simpl. intros _. by eapply rec_paren; [..|apply H3].
  - apply wp_bind_any. intros [|] st3; simpl; wp_steps; simpl; [congruence | done].
Qed.

Lemma parse_sound fuel nt st w0 :
  positioned st w0 ->
  wp (parse_ fuel nt) st
    (on_done (fun nd st' => complete nd = true -> recognised_ nt w0 st nd st')).
Proof.
  revert nt st w0. induction fuel as [|fuel IH]; intros nt st w0 Hpos; simpl;
    [by wp_steps|].
  pose proof Kind_of_ids as (_ & _ & _ & Hamp & Hpipe & _).
  destruct nt.
  - eapply wp_bind_done; [by apply (IH PTerm st w0)|].
    intros left st1 H1. wp_steps.
    destruct (op_id st1 =? Id.Op_DPipe) eqn:Ep.
    + apply N.eqb_eq in Ep. destruct (complete left) eqn:Hleft.
      * specialize (H1 Hleft).
        pose proof H1 as (el & o & _ & _ & _ & _ & _ & (Hw1 & _) & _).
        eapply wp_bind_done; [apply Next_sound; rewrite Hw1; simpl; lia|].
        intros [|] st2 H2; simpl; [|by wp_steps].
        destruct (H2 eq_refl) as (w2 & i2 & k2 & Hr2 & Hc2 & ->).
        eapply wp_bind_done; [apply (IH PExpr _ w2); by apply positioned_after_read|].
        intros right st3 H3. wp_steps. simpl. rewrite Hleft. simpl. intros Hright.
        apply (rec_chain XOr Id.Op_DPipe PTerm PExpr w0 left st st1
                 (after_read DBRACKET w2 i2 k2 st1) right st3)
          with (w2 := w2) (i2 := i2) (k2 := k2); try done.
        by apply H3.
      * apply wp_bind_any. intros [|] st2; simpl; [|by wp_steps].
        apply wp_bind_any. intros right st3. wp_steps. simpl. by rewrite Hleft.
    + wp_steps. simpl. intros Hleft. eapply recognised_weaken; [by apply H1 | simpl; lia].
  - eapply wp_bind_done; [by apply (IH PNegatedFactor st w0)|].
    intros left st1 H1. wp_steps.
    destruct (op_id st1 =? Id.Op_DAmp) eqn:Ep.
    + apply N.eqb_eq in Ep. destruct (complete left) eqn:Hleft.
      * specialize (H1 Hleft).
        pose proof H1 as (el & o & _ & _ & _ & _ & _ & (Hw1 & _) & _).
        eapply wp_bind_done; [apply Next_sound; rewrite Hw1; simpl; lia|].
        intros [|] st2 H2; simpl; [|by wp_steps].
        destruct (H2 eq_refl) as (w2 & i2 & k2 & Hr2 & Hc2 & ->).
        eapply wp_bind_done; [apply (IH PTerm _ w2); by apply positioned_after_read|].
        intros right st3 H3. wp_steps. simpl. rewrite Hleft. simpl. intros Hright.
        apply (rec_chain XAnd Id.Op_DAmp PNegatedFactor PTerm w0 left st st1
                 (after_read DBRACKET w2 i2 k2 st1) right st3)
          with (w2 := w2) (i2 := i2) (k2 := k2); try done.
        by apply H3.
      * apply wp_bind_any. intros [|] st2; simpl; [|by wp_steps].
        apply wp_bind_any. intros right st3. wp_steps. simpl. by rewrite Hleft.
    + wp_steps. simpl. intros Hleft. eapply recognised_weaken; [by apply H1 | simpl; lia].
  - wp_steps. destruct (op_id st =? Id.KW_Bang) eqn:Eb.
    + apply N.eqb_eq in Eb. pose proof Hpos as (Hws & _).
      eapply wp_bind_done; [apply Next_sound; rewrite Hws; simpl; lia|].
      intros [|] st1 H1; simpl; [|by wp_steps].
      destruct (H1 eq_refl) as (fw & fi & fk & Hrf & Hfc & ->).
      eapply wp_bind_done; [apply (IH PFactor _ fw); by apply positioned_after_read|].
      intros child st3 H3. wp_steps. simpl. intros Hchild.
      eapply rec_not; try done. by apply H3.
    + eapply wp_conseq; [by apply (IH PFactor st w0)|].
      intros [nd|e|] st1; simpl; try done.
      intros H Hnd. eapply recognised_weaken; [by apply H | simpl; lia].
  - apply ParseFactor_sound; [|done]. intros st0 w Hp. by apply IH.
Qed.

Lemma Parse_sound_wp fuel st :
  (length (words st) <= 1)%nat ->
  wp (Parse respond reader_errors regex_parse repr_str fuel) st
    (on_done (fun nd st' =>
       complete nd = true ->
       exists e k kk,
         well_formed regex_parse e /\ denote e = nd /\
         word_class k Id.Lit_DRightBracket kk /\
         served respond (w_parser st) (script_of e ++ [(DBRACKET, k)]) /\
         w_parser st' = w_parser st ++ map fst (script_of e ++ [(DBRACKET, k)]) /\
         error_stack st' = error_stack st /\ cur_word st' = Some k)).
Proof.
  intros Hlen. unfold Parse.
  eapply wp_bind_done; [by apply Next_sound|].
  intros [|] st1 H1; simpl; [|by wp_steps].
  destruct (H1 eq_refl) as (w0 & i0 & k0 & Hr0 & Hc0 & ->).
  eapply wp_bind_done; [apply (parse_sound fuel PExpr _ w0); by apply positioned_after_read|].
  intros nd st2 H2. wp_steps.
  destruct (op_id st2 =? Id.Lit_DRightBracket) eqn:Eend; simpl; [|by wp_steps].
  apply N.eqb_eq in Eend. wp_steps. simpl. intros Hnd.
  destruct (H2 Hnd) as (e & k & Hfirst & Hwf & _ & Hden & Hserved & Hpos & Hw & He).
  pose proof Hpos as (_ & Hcw & Hi & Hk & Hn). rewrite Eend in Hi, Hk, Hn.
  exists e, k, (b_kind st2).
  split; [done|]. split; [done|]. split; [by repeat split|].
  simpl in Hserved, Hw, He. unfold script_of. rewrite Hfirst.
  split; [by split|]. split; [|done].
  rewrite Hw. simpl. by rewrite <- app_assoc.
Qed.

End Sound.

(** ** Runs with newlines and failed reads *)

Section Edges.

Variable respond : list LexMode -> option Word.
Variable reader_errors : list LexMode -> list ErrorContext.
Variable regex_parse : string -> bool.
Variable repr_str : string -> string.

Local Abbreviation parse_ := (parse respond reader_errors regex_parse repr_str).
Local Abbreviation Next_ := (_Next respond reader_errors).

Lemma NextOne_failed lex_mode st :
  (length (words st) <= 1)%nat ->
  respond (w_parser st ++ [lex_mode]) = None ->
  _NextOne respond reader_errors lex_mode st =
  (Done false, after_failed_read reader_errors lex_mode st).
Proof.
  intros Hlen Hr. unfold _NextOne, after_failed_read.
  destruct st as [h ws cw oi bk es cs]. simpl in *.
  destruct ws as [|w0 [|w1 ws]]; simpl in Hlen; [| |lia].
  - unfold bind, get, modify, ReadWord, reader_Error, ret. simpl. rewrite Hr. reflexivity.
  - unfold bind, get, modify, ReadWord, reader_Error, ret. simpl. rewrite Hr. reflexivity.
Qed.

Lemma Next_failed fuel lex_mode st :
  (1 <= fuel)%nat ->
  (length (words st) <= 1)%nat ->
  respond (w_parser st ++ [lex_mode]) = None ->
  Next_ fuel lex_mode st = (Done false, after_failed_read reader_errors lex_mode st).
Proof.
  intros Hf Hlen Hr. destruct fuel as [|fuel]; [lia|]. simpl.
  eapply run_bind; [by apply NextOne_failed|]. reflexivity.
Qed.

Lemma Next_over_newline fuel lex_mode n st r :
  (length (words st) <= 1)%nat ->
  respond (w_parser st ++ [lex_mode]) = Some n ->
  BoolId n = Ok Id.Op_Newline ->
  Next_ fuel lex_mode (after_read lex_mode n Id.Op_Newline Kind.Op st) = r ->
  Next_ (S fuel) lex_mode st = r.
Proof.
  intros Hlen Hr Hn Hrest. pose proof Kind_of_ids as (_ & _ & _ & _ & _ & Hk & _).
  simpl. eapply run_bind; [by apply NextOne_read|]. cbv beta.
  change (negb true) with false. cbv iota.
  eapply run_bind; [reflexivity|]. cbv beta. exact Hrest.
Qed.

Lemma Next_drain_newline fuel x n st r :
  words st = [x; Some n] ->
  BoolId n = Ok Id.Op_Newline ->
  Next_ fuel DBRACKET (after_drain n Id.Op_Newline Kind.Op st) = r ->
  Next_ (S fuel) DBRACKET st = r.
Proof.
  intros Hws Hn Hrest. pose proof Kind_of_ids as (_ & _ & _ & _ & _ & Hk & _).
  simpl. eapply run_bind; [by apply (NextOne_drain respond reader_errors x)|]. cbv beta.
  change (negb true) with false. cbv iota.
  eapply run_bind; [reflexivity|]. cbv beta. exact Hrest.
Qed.

Lemma Next_newlines lex_mode w i k nls :
  forall st fuel,
    (length (words st) <= 1)%nat ->
    Forall (fun n => BoolId n = Ok Id.Op_Newline) nls ->
    word_class w i k ->
    served respond (w_parser st) (map (pair lex_mode) nls ++ [(lex_mode, w)]) ->
    (length nls < fuel)%nat ->
    exists st',
      Next_ fuel lex_mode st = (Done true, st') /\
      positioned st' w /\
      w_parser st' = w_parser st ++ repeat lex_mode (S (length nls)) /\
      error_stack st' = error_stack st.
Proof.
  induction nls as [|n nls IH]; intros st fuel Hlen Hall Hw Hserved Hfuel.
  - simpl in Hserved. destruct Hserved as [Hr _].
    exists (after_read lex_mode w i k st).
    split; [apply Next_read; [simpl in Hfuel; lia | done..]|].
    split; [by apply positioned_after_read | done].
  - simpl in Hserved. destruct Hserved as [Hr Hs].
    apply Forall_cons in Hall as [Hn Hall].
    destruct fuel as [|fuel]; [simpl in Hfuel; lia|].
    destruct (IH (after_read lex_mode n Id.Op_Newline Kind.Op st) fuel)
      as (st' & Hrun & Hpos & Hw' & He); try done; try (simpl in *; lia).
    exists st'. split; [by apply (Next_over_newline fuel lex_mode n)|].
    split; [done|]. rewrite Hw', He. simpl. by rewrite <- app_assoc.
Qed.

Lemma factor_lookahead_failed fuel PE w st :
  positioned st w -> b_kind st = Kind.Word ->
  respond (w_parser st ++ [DBRACKET]) = None ->
  ParseFactor_body respond reader_errors regex_parse repr_str fuel PE st =
  (Raised (AttributeError "BoolId"), after_failed_lookahead (Some w) st).
Proof.
  intros (Hws & Hcw & _) Hbk Hr. unfold ParseFactor_body. run_basic. rewrite Hbk.
  change (Kind.Word =? Kind.BoolUnary) with false.
  change (Kind.Word =? Kind.Word) with true. cbv iota.
  assert (Hla : _LookAhead respond st = (Done None, after_failed_lookahead (Some w) st)).
  { unfold _LookAhead, after_failed_lookahead.
    destruct st as [h ws cw oi bk es cs]. simpl in *. subst ws.
    unfold bind, get, modify, ReadWord, ret. simpl. rewrite Hr. reflexivity. }
  eapply run_bind; [exact Hla|]. reflexivity.
Qed.

Lemma factor_word_newline fuel PE l nl k ki kk st :
  positioned st l -> b_kind st = Kind.Word ->
  BoolId nl = Ok Id.Op_Newline -> word_class k ki kk ->
  served respond (w_parser st) [(DBRACKET, nl); (DBRACKET, k)] ->
  ParseFactor_body respond reader_errors regex_parse repr_str (S (S fuel)) PE st =
  (Done (NWord l),
   after_read DBRACKET k ki kk
     (after_drain nl Id.Op_Newline Kind.Op (after_lookahead (Some l) nl st))).
Proof.
  intros (Hws & Hcw & _) Hbk Hn Hkc (Hr1 & Hr2 & _).
  pose proof Kind_of_ids as (_ & _ & _ & _ & _ & Hk & _).
  unfold ParseFactor_body. run_basic. rewrite Hbk.
  change (Kind.Word =? Kind.BoolUnary) with false.
  change (Kind.Word =? Kind.Word) with true. cbv iota.
  eapply run_bind; [by apply (LookAhead_read respond (Some l))|]. cbv beta.
  eapply run_call_BoolId; [exact Hn|]. eapply run_call_LookupKind; [exact Hk|].
  change ((Kind.Op =? Kind.BoolBinary) || (Kind.Op =? Kind.Redir)) with false. cbv iota.
  run_basic.
  eapply run_bind.
  { apply (Next_drain_newline (S fuel) (Some l) nl); [done | done |].
    apply Next_read; [lia | simpl; lia | exact Hr2 | exact Hkc]. }
  cbv beta. simpl. by rewrite Hcw.
Qed.

End Edges.

Section Partial.

Variable respond : list LexMode -> option Word.
Variable reader_errors : list LexMode -> list ErrorContext.
Variable regex_parse : string -> bool.
Variable repr_str : string -> string.

Local Abbreviation parse_ := (parse respond reader_errors regex_parse repr_str).
Local Abbreviation Parse_ := (Parse respond reader_errors regex_parse repr_str).

Lemma factor_unary_failed fuel PE op k ki kk st :
  (1 <= fuel)%nat ->
  positioned st op -> b_kind st = Kind.BoolUnary ->
  respond (w_parser st ++ [DBRACKET]) = Some k -> word_class k ki kk ->
  respond ((w_parser st ++ [DBRACKET]) ++ [DBRACKET]) = None ->
  ParseFactor_body respond reader_errors regex_parse repr_str fuel PE st =
  (Done NNone, after_failed_read reader_errors DBRACKET (after_read DBRACKET k ki kk st)).
Proof.
  intros Hf (Hws & Hcw & _) Hbk Hr Hkc Hnone.
  unfold ParseFactor_body. run_basic. rewrite Hbk.
  change (Kind.BoolUnary =? Kind.BoolUnary) with true. cbv iota. run_basic.
  eapply run_bind; [apply (Next_read respond reader_errors fuel DBRACKET k ki kk);
                    try done; rewrite Hws; simpl; lia|].
  cbv beta. simpl. run_basic.
  eapply run_bind; [apply Next_failed; [done | simpl; lia | exact Hnone]|].
  reflexivity.
Qed.

Lemma DRightBracket_follows k kk :
  word_class k Id.Lit_DRightBracket kk -> follows PExpr k Id.Lit_DRightBracket kk.
Proof.
  intros Hk. pose proof Hk as (_ & Hkind & _).
  assert (kk <> Kind.BoolBinary /\ kk <> Kind.Redir) as [H1 H2].
  { revert Hkind. vm_compute. intros [= <-]. split; discriminate. }
  repeat split; try done; apply Hk.
Qed.

Lemma Parse_incomplete fuel l pipe op oi k kk st :
  well_formed regex_parse l -> (level l <= 2)%nat ->
  word_class pipe Id.Op_DPipe Kind.Op ->
  word_class op oi Kind.BoolUnary ->
  word_class k Id.Lit_DRightBracket kk ->
  (length (words st) <= 1)%nat ->
  served respond (w_parser st)
    (script_of l ++ [(DBRACKET, pipe); (DBRACKET, op); (DBRACKET, k)]) ->
  respond (w_parser st ++ map fst (script_of l) ++
           [DBRACKET; DBRACKET; DBRACKET; DBRACKET]) = None ->
  (5 * depth l + 5 <= fuel)%nat ->
  exists st',
    Parse_ fuel st = (Done (BinaryExprNode Id.Op_DPipe (denote l) NNone), st') /\
    w_parser st' = w_parser st ++ map fst (script_of l) ++
                   [DBRACKET; DBRACKET; DBRACKET; DBRACKET] /\
    error_stack st' = error_stack st ++ reader_errors (w_parser st').
Proof.
  intros Hwf Hlev Hpipe Hop Hk Hlen Hserved Hnone Hfuel.
  pose proof Kind_of_ids as (Hbang & _).
  unfold script_of in Hserved, Hnone. simpl in Hserved, Hnone.
  destruct Hserved as [Hrf Hserved].
  replace (reads l ++ [(DBRACKET, pipe); (DBRACKET, op); (DBRACKET, k)])
    with ((reads l ++ [(DBRACKET, pipe)]) ++ [(DBRACKET, op); (DBRACKET, k)])
    in Hserved by (by rewrite <- app_assoc).
  apply served_app in Hserved as [Hs1 (Hrop & Hrk & _)].
  destruct (first_word_class regex_parse l Hwf) as (fi & fk & Hfc & _).
  assert (Hd : (1 <= depth l)%nat) by (destruct l; simpl; lia).
  destruct fuel as [|f]; [lia|].
  destruct (fuel_for_factor PExpr f) as (f1 & Hf1 & ->); [lia|].
  set (f := (level_of PExpr + S f1)%nat) in *.
  set (st1 := after_read DBRACKET (first_word l) fi fk st).
  destruct (parse_well_formed respond reader_errors regex_parse repr_str l Hwf
              PTerm f pipe Id.Op_DPipe Kind.Op st1)
    as (st2 & Hrun & Hpos2 & Hw2 & He2); try done.
  { lia. }
  { by apply follows_DPipe. }
  destruct (positioned_class st2 pipe _ _ Hpos2 Hpipe) as [Hi2 _].
  change (w_parser st1) with (w_parser st ++ [DBRACKET]) in Hw2.
  rewrite <- Hw2 in Hrop, Hrk.
  set (st3 := after_read DBRACKET op oi Kind.BoolUnary st2).
  set (st5 := after_failed_read reader_errors DBRACKET
                (after_read DBRACKET k Id.Lit_DRightBracket kk st3)).
  assert (Hw5 : w_parser st5 = w_parser st ++ DBRACKET :: map fst (reads l) ++
                   [DBRACKET; DBRACKET; DBRACKET; DBRACKET]).
  { subst st5 st3. simpl. rewrite Hw2. do 3 list_norm. done. }
  assert (Hinner : parse_ f PExpr st3 = (Done NNone, st5)).
  { subst f. apply lift_factor.
    - rewrite parse_factor_step. apply (factor_unary_failed _ _ op); try done.
      change (((w_parser st3 ++ [DBRACKET]) ++ [DBRACKET])) with (w_parser st5).
      by rewrite Hw5.
    - simpl. intros ->. destruct Hop as (_ & Hk' & _). rewrite Hbang in Hk'.
      discriminate Hk'.
    - intros _. simpl. discriminate.
    - intros _. simpl. discriminate. }
  exists st5. split; [|split].
  - unfold Parse.
    eapply run_bind; [apply (Next_read respond reader_errors _ DBRACKET (first_word l) fi fk);
                      try done; lia|].
    cbv beta. simpl negb. cbv iota.
    eapply run_bind.
    { unfold ParseExpr.
      apply (expr_or respond reader_errors regex_parse repr_str f st1 (denote l) st2
               op oi Kind.BoolUnary NNone st5); try done.
      - subst f. simpl. lia.
      - destruct Hpos2 as (Hws2 & _). rewrite Hws2. simpl. lia. }
    cbv beta. eapply run_bind; [reflexivity|]. reflexivity.
  - exact Hw5.
  - rewrite Hw5. subst st5 st3. simpl. rewrite He2. simpl.
    rewrite Hw2. do 3 list_norm. done.
Qed.

End Partial.

Lemma list_reader_newline_free ws :
  forallb no_newline_word ws = true -> newline_free (list_reader ws).
Proof.
  intros H h w Hr Hb. unfold list_reader in Hr. injection Hr as <-.
  destruct (nth_in_or_default (length h - 1) ws (TokenWord (mkToken Id.Eof_Real "")))
    as [Hin|Heq].
  - rewrite forallb_forall in H. specialize (H _ Hin).
    unfold no_newline_word in H. rewrite Hb in H. vm_compute in H. discriminate H.
  - rewrite Heq in Hb. vm_compute in Hb. discriminate Hb.
Qed.

(** ** The parser and the grammar *)

(** X14: [ParseExpr], [ParseTerm], [ParseNegatedFactor] and [ParseFactor]
    accept the expressions of their level.  A method called at the first
    word of a well-formed expression [e] of its level or below, with a
    reader that hands over the words of [e] and then a word [k] that may
    follow, and fuel enough for the depth of [e], returns the node of [e];
    the parser then stands at [k], has asked the reader for exactly the
    words of [e] and [k], and has left the error stack as it was. *)
Theorem parse_accepts_well_formed
    (respond : list LexMode -> option Word)
    (reader_errors : list LexMode -> list ErrorContext)
    (regex_parse : string -> bool) (repr_str : string -> string)
    (e : bexp) (nt : NonTerminal) (fuel : nat) (k : Word) (ki kk : N) (st : BoolParser) :
  well_formed regex_parse e ->
  (level e <= level_of nt)%nat ->
  (5 * depth e <= fuel)%nat ->
  positioned st (first_word e) ->
  served respond (w_parser st) (reads e ++ [(DBRACKET, k)]) ->
  follows nt k ki kk ->
  exists st',
    parse respond reader_errors regex_parse repr_str fuel nt st = (Done (denote e), st') /\
    positioned st' k /\
    w_parser st' = w_parser st ++ map fst (reads e ++ [(DBRACKET, k)]) /\
    error_stack st' = error_stack st.
Proof.
  intros Hwf.
  exact (parse_well_formed respond reader_errors regex_parse repr_str e Hwf
           nt fuel k ki kk st).
Qed.

Lemma parse_accepts_well_formed_witness :
  exists st',
    parse (list_reader and_chain_example) no_errors (fun _ => true) (fun s => s)
      15 PTerm at_a_word = (Done (denote and_chain_expr), st') /\
    positioned st' end_word /\
    w_parser st' =
      w_parser at_a_word ++ map fst (reads and_chain_expr ++ [(DBRACKET, end_word)]) /\
    error_stack st' = error_stack at_a_word.
Proof.
  apply (parse_accepts_well_formed (list_reader and_chain_example) no_errors
           (fun _ => true) (fun s => s) and_chain_expr PTerm 15 end_word
           Id.Lit_DRightBracket 5).
  - simpl. repeat split; try lia; class_solve.
  - simpl. lia.
  - simpl. lia.
  - class_solve.
  - simpl. repeat split; reflexivity.
  - class_solve.
Defined.

(** X15: [Parse] accepts every well-formed expression closed by []]].  With
    at most one word buffered, a reader that hands over the words of [e] and
    then a word [k] whose [BoolId] is [Lit_DRightBracket], and fuel enough
    for the depth of [e], [Parse] returns the node of [e]; [k] is then the
    current word, the reader has been asked for exactly these words, and the
    error stack is as it was. *)
Theorem Parse_accepts_well_formed
    (respond : list LexMode -> option Word)
    (reader_errors : list LexMode -> list ErrorContext)
    (regex_parse : string -> bool) (repr_str : string -> string)
    (fuel : nat) (e : bexp) (k : Word) (kk : N) (st : BoolParser) :
  well_formed regex_parse e ->
  word_class k Id.Lit_DRightBracket kk ->
  (length (words st) <= 1)%nat ->
  served respond (w_parser st) (script_of e ++ [(DBRACKET, k)]) ->
  (5 * depth e <= fuel)%nat ->
  exists st',
    Parse respond reader_errors regex_parse repr_str fuel st = (Done (denote e), st') /\
    cur_word st' = Some k /\
    w_parser st' = w_parser st ++ map fst (script_of e ++ [(DBRACKET, k)]) /\
    error_stack st' = error_stack st.
Proof.
  intros Hwf Hk Hlen Hserved Hfuel.
  pose proof (DRightBracket_follows k kk Hk) as Hfol.
  destruct (Parse_expr respond reader_errors regex_parse repr_str
              fuel e k _ kk st Hwf Hfol Hlen Hserved Hfuel)
    as (st1 & st2 & Hn & Hrun & Hpos & Hw & He).
  destruct (positioned_class st2 k _ _ Hpos Hk) as [Hi _].
  exists st2. split; [|split; [apply Hpos | done]]. unfold Parse.
  eapply run_bind; [exact Hn|]. cbv beta. simpl.
  eapply run_bind; [exact Hrun|]. cbv beta.
  eapply run_bind; [reflexivity|]. cbv beta. by rewrite Hi.
Qed.

Lemma Parse_accepts_well_formed_witness :
  exists st',
    Parse (list_reader and_chain_example) no_errors (fun _ => true) (fun s => s)
      15 BoolParser_init = (Done (denote and_chain_expr), st') /\
    cur_word st' = Some end_word /\
    w_parser st' =
      w_parser BoolParser_init ++
      map fst (script_of and_chain_expr ++ [(DBRACKET, end_word)]) /\
    error_stack st' = error_stack BoolParser_init.
Proof.
  apply (Parse_accepts_well_formed (list_reader and_chain_example) no_errors
           (fun _ => true) (fun s => s) 15 and_chain_expr end_word 5).
  - simpl. repeat split; try lia; class_solve.
  - class_solve.
  - simpl. lia.
  - simpl. repeat split; reflexivity.
  - simpl. lia.
Defined.

(** X16: what [Parse] returns without a [None] in it is the node of a
    well-formed expression it has read.  With a reader that hands over no
    newline word and at most one word buffered: if [Parse] returns a node
    [nd] that holds no [None], then [nd] is the node of a well-formed
    expression [e], the reader has handed over the words of [e] and then a
    word [k] whose [BoolId] is [Lit_DRightBracket], under the modes of [e],
    and nothing else has been asked of it; [k] is the current word and the
    error stack is as it was. *)
Theorem Parse_sound
    (respond : list LexMode -> option Word)
    (reader_errors : list LexMode -> list ErrorContext)
    (regex_parse : string -> bool) (repr_str : string -> string)
    (fuel : nat) (st : BoolParser) (nd : node) (st' : BoolParser) :
  newline_free respond ->
  (length (words st) <= 1)%nat ->
  Parse respond reader_errors regex_parse repr_str fuel st = (Done nd, st') ->
  complete nd = true ->
  exists e k kk,
    well_formed regex_parse e /\ denote e = nd /\
    word_class k Id.Lit_DRightBracket kk /\
    served respond (w_parser st) (script_of e ++ [(DBRACKET, k)]) /\
    w_parser st' = w_parser st ++ map fst (script_of e ++ [(DBRACKET, k)]) /\
    error_stack st' = error_stack st /\ cur_word st' = Some k.
Proof.
  intros Hnl Hlen Hrun Hnd.
  pose proof (Parse_sound_wp respond reader_errors regex_parse repr_str Hnl fuel st Hlen)
    as H.
  apply (wp_run _ _ _ _ _ H Hrun). exact Hnd.
Qed.

Lemma Parse_sound_witness :
  newline_free (list_reader and_chain_example) /\
  exists e k kk,
    well_formed (fun _ => true) e /\ denote e = and_chain_node /\
    word_class k Id.Lit_DRightBracket kk /\
    served (list_reader and_chain_example) (w_parser BoolParser_init)
      (script_of e ++ [(DBRACKET, k)]) /\
    w_parser (snd (Parse_words and_chain_example (fun _ => true) 15)) =
      w_parser BoolParser_init ++ map fst (script_of e ++ [(DBRACKET, k)]) /\
    error_stack (snd (Parse_words and_chain_example (fun _ => true) 15)) =
      error_stack BoolParser_init /\
    cur_word (snd (Parse_words and_chain_example (fun _ => true) 15)) = Some k.
Proof.
  assert (Hnl : newline_free (list_reader and_chain_example)).
  { apply list_reader_newline_free. vm_compute. reflexivity. }
  split; [exact Hnl|].
  apply (Parse_sound (list_reader and_chain_example) no_errors (fun _ => true)
           (fun s => s) 15 BoolParser_init and_chain_node
           (snd (Parse_words and_chain_example (fun _ => true) 15)) Hnl).
  - simpl. lia.
  - vm_compute. reflexivity.
  - reflexivity.
Defined.

(** X17: [_Next] skips newlines.  With at most one word buffered and a
    reader that hands over, under [lex_mode], any number of words whose
    [BoolId] is [Op_Newline] and then a word [w] of another Id, [_Next]
    returns [True] standing at [w]: [w] is the one buffered word and the
    current word, [op_id] and [b_kind] are those of [w], the reader has been
    asked once for each newline and once for [w], and the error stack is as
    it was. *)
Theorem Next_skips_newlines
    (respond : list LexMode -> option Word)
    (reader_errors : list LexMode -> list ErrorContext)
    (lex_mode : LexMode) (nls : list Word) (w : Word) (i k : N)
    (st : BoolParser) (fuel : nat) :
  (length (words st) <= 1)%nat ->
  Forall (fun n => BoolId n = Ok Id.Op_Newline) nls ->
  word_class w i k ->
  served respond (w_parser st) (map (pair lex_mode) nls ++ [(lex_mode, w)]) ->
  (length nls < fuel)%nat ->
  exists st',
    _Next respond reader_errors fuel lex_mode st = (Done true, st') /\
    positioned st' w /\
    w_parser st' = w_parser st ++ repeat lex_mode (S (length nls)) /\
    error_stack st' = error_stack st.
Proof.
  exact (Next_newlines respond reader_errors lex_mode w i k nls st fuel).
Qed.

Lemma Next_skips_newlines_witness :
  exists st',
    _Next (list_reader newlines_example) no_errors 3 DBRACKET BoolParser_init =
      (Done true, st') /\
    positioned st' a_word /\
    w_parser st' = w_parser BoolParser_init ++ repeat DBRACKET 3 /\
    error_stack st' = error_stack BoolParser_init.
Proof.
  apply (Next_skips_newlines (list_reader newlines_example) no_errors DBRACKET
           [newline_word; newline_word] a_word Id.Word_Compound Kind.Word
           BoolParser_init 3).
  - simpl. lia.
  - repeat constructor.
  - class_solve.
  - simpl. repeat split; reflexivity.
  - simpl. lia.
Defined.

(** X18: a newline behind a word ends the factor.  When [ParseFactor]
    stands at a plain word [l] and the look-ahead reads a newline, it
    returns [l] alone and moves on to the word [k] behind the newline,
    whatever [k] is: a binary operator on the next line is not taken as the
    operator of [l]. *)
Theorem ParseFactor_newline_ends_word
    (respond : list LexMode -> option Word)
    (reader_errors : list LexMode -> list ErrorContext)
    (regex_parse : string -> bool) (repr_str : string -> string)
    (fuel : nat) (l nl k : Word) (ki kk : N) (st : BoolParser) :
  positioned st l -> b_kind st = Kind.Word ->
  BoolId nl = Ok Id.Op_Newline -> word_class k ki kk ->
  served respond (w_parser st) [(DBRACKET, nl); (DBRACKET, k)] ->
  exists st',
    ParseFactor respond reader_errors regex_parse repr_str (S (S (S fuel))) st =
      (Done (NWord l), st') /\
    positioned st' k /\
    w_parser st' = w_parser st ++ [DBRACKET; DBRACKET] /\
    error_stack st' = error_stack st.
Proof.
  intros Hpos Hbk Hn Hk Hserved.
  exists (after_read DBRACKET k ki kk
            (after_drain nl Id.Op_Newline Kind.Op (after_lookahead (Some l) nl st))).
  split.
  - exact (factor_word_newline respond reader_errors regex_parse repr_str fuel
             (parse respond reader_errors regex_parse repr_str (S (S fuel)) PExpr)
             l nl k ki kk st Hpos Hbk Hn Hk Hserved).
  - split; [by apply positioned_after_read|]. simpl. by rewrite <- app_assoc.
Qed.

Lemma ParseFactor_newline_ends_word_witness :
  exists st',
    ParseFactor (list_reader broken_line_example) no_errors (fun _ => true) (fun s => s)
      3 at_a_word = (Done (NWord a_word), st') /\
    positioned st' deq_word /\
    w_parser st' = w_parser at_a_word ++ [DBRACKET; DBRACKET] /\
    error_stack st' = error_stack at_a_word.
Proof.
  apply (ParseFactor_newline_ends_word (list_reader broken_line_example) no_errors
           (fun _ => true) (fun s => s) 0 a_word newline_word deq_word
           Id.BoolBinary_DEqual Kind.BoolBinary at_a_word).
  - class_solve.
  - reflexivity.
  - reflexivity.
  - class_solve.
  - simpl. repeat split; reflexivity.
Defined.

(** X19: a failed read behind a plain word makes [ParseFactor] raise.  When
    [ParseFactor] stands at a plain word and the reader has no word to hand
    over for the look-ahead, [None] is buffered and asked for its [BoolId]:
    the method raises [AttributeError] instead of returning [None], and the
    errors of the reader are not copied to the error stack. *)
Theorem ParseFactor_failed_lookahead
    (respond : list LexMode -> option Word)
    (reader_errors : list LexMode -> list ErrorContext)
    (regex_parse : string -> bool) (repr_str : string -> string)
    (fuel : nat) (w : Word) (st : BoolParser) :
  positioned st w -> b_kind st = Kind.Word ->
  respond (w_parser st ++ [DBRACKET]) = None ->
  exists st',
    ParseFactor respond reader_errors regex_parse repr_str (S fuel) st =
      (Raised (AttributeError "BoolId"), st') /\
    words st' = [Some w; None] /\
    error_stack st' = error_stack st.
Proof.
  intros Hpos Hbk Hr. exists (after_failed_lookahead (Some w) st). split; [|done].
  exact (factor_lookahead_failed respond reader_errors regex_parse repr_str fuel
           (parse respond reader_errors regex_parse repr_str fuel PExpr) w st Hpos Hbk Hr).
Qed.

Lemma ParseFactor_failed_lookahead_witness :
  exists st',
    ParseFactor (short_reader [a_word]) no_errors (fun _ => true) (fun s => s)
      1 at_a_word = (Raised (AttributeError "BoolId"), st') /\
    words st' = [Some a_word; None] /\
    error_stack st' = error_stack at_a_word.
Proof.
  apply (ParseFactor_failed_lookahead (short_reader [a_word]) no_errors
           (fun _ => true) (fun s => s) 0 a_word at_a_word).
  - class_solve.
  - reflexivity.
  - reflexivity.
Defined.

(** X20: [Parse] can return a node with [None] inside.  On a well-formed
    term [l], then [||], a unary operator and []]], with a reader that fails
    on the read behind []]]: [ParseFactor] takes []]] as the operand of the
    unary operator and returns [None] when the next read fails, and since
    the parser stands at []]], [Parse] returns [Binary(Op_DPipe, l, None)]
    rather than [None]; the error stack holds the errors of the reader. *)
Theorem Parse_node_with_None
    (respond : list LexMode -> option Word)
    (reader_errors : list LexMode -> list ErrorContext)
    (regex_parse : string -> bool) (repr_str : string -> string)
    (fuel : nat) (l : bexp) (pipe op : Word) (oi : N) (k : Word) (kk : N)
    (st : BoolParser) :
  well_formed regex_parse l -> (level l <= 2)%nat ->
  word_class pipe Id.Op_DPipe Kind.Op ->
  word_class op oi Kind.BoolUnary ->
  word_class k Id.Lit_DRightBracket kk ->
  (length (words st) <= 1)%nat ->
  served respond (w_parser st)
    (script_of l ++ [(DBRACKET, pipe); (DBRACKET, op); (DBRACKET, k)]) ->
  respond (w_parser st ++ map fst (script_of l) ++
           [DBRACKET; DBRACKET; DBRACKET; DBRACKET]) = None ->
  (5 * depth l + 5 <= fuel)%nat ->
  exists st',
    Parse respond reader_errors regex_parse repr_str fuel st =
      (Done (BinaryExprNode Id.Op_DPipe (denote l) NNone), st') /\
    w_parser st' = w_parser st ++ map fst (script_of l) ++
                   [DBRACKET; DBRACKET; DBRACKET; DBRACKET] /\
    error_stack st' = error_stack st ++ reader_errors (w_parser st').
Proof.
  exact (Parse_incomplete respond reader_errors regex_parse repr_str
           fuel l pipe op oi k kk st).
Qed.

Lemma Parse_node_with_None_witness :
  exists st',
    Parse (short_reader cut_short_example) no_errors (fun _ => true) (fun s => s)
      10 BoolParser_init =
      (Done (BinaryExprNode Id.Op_DPipe (denote (XWord a_word)) NNone), st') /\
    w_parser st' = w_parser BoolParser_init ++ map fst (script_of (XWord a_word)) ++
                   [DBRACKET; DBRACKET; DBRACKET; DBRACKET] /\
    error_stack st' = error_stack BoolParser_init ++ no_errors (w_parser st').
Proof.
  apply (Parse_node_with_None (short_reader cut_short_example) no_errors
           (fun _ => true) (fun s => s) 10 (XWord a_word) pipe_word z_word
           Id.BoolUnary_z end_word 5).
  - simpl. class_solve.
  - simpl. lia.
  - class_solve.
  - class_solve.
  - class_solve.
  - simpl. lia.
  - simpl. repeat split; reflexivity.
  - reflexivity.
  - simpl. lia.
Defined.
